(** * AWS knowledge relay ([app.py]): content normalisation, argument
    mapping and the per-call connection scope.

    The development embeds [format_content], the five tool handlers and
    [AWSClientContext] of [app.py].  Python strings are sequences of code
    points, JSON values are the Python values [json.loads] builds, and the
    two library functions the program relies on, [json.loads] and
    [json.dumps(.., indent=2)], are written out after CPython's [json]
    package so that the model can be run on concrete payloads. *)

From Stdlib Require Import Decimal DecimalFacts DecimalPos DecimalN DecimalZ.
From Stdlib Require Import List ZArith NArith Lia Bool String Ascii.
Import ListNotations.

Set Implicit Arguments.
Local Open Scope N_scope.

(** ** Python strings *)

(** A [str] is a sequence of Unicode code points. *)
Definition pystr := list N.

Definition py (s : string) : pystr :=
  List.map N_of_ascii (list_ascii_of_string s).

Fixpoint pystr_eqb (a b : pystr) : bool :=
  match a, b with
  | [], [] => true
  | x :: a', y :: b' => (x =? y) && pystr_eqb a' b'
  | _, _ => false
  end.

(** [sep.join(parts)] *)
Fixpoint join (sep : pystr) (parts : list pystr) : pystr :=
  match parts with
  | [] => []
  | [x] => x
  | x :: rest => x ++ sep ++ join sep rest
  end.

(** [s.startswith(p)], returning what follows the prefix. *)
Fixpoint strip_prefix (p s : pystr) : option pystr :=
  match p, s with
  | [], _ => Some s
  | a :: p', b :: s' => if a =? b then strip_prefix p' s' else None
  | _ :: _, [] => None
  end.

(** The characters the JSON code below tests for. *)
Definition ch_quote : N := 34.      (* double quote *)
Definition ch_backslash : N := 92.  (* backslash *)
Definition ch_slash : N := 47.      (* slash *)
Definition ch_comma : N := 44.
Definition ch_colon : N := 58.
Definition ch_lbracket : N := 91.
Definition ch_rbracket : N := 93.
Definition ch_lbrace : N := 123.
Definition ch_rbrace : N := 125.
Definition ch_minus : N := 45.
Definition ch_plus : N := 43.
Definition ch_dot : N := 46.
Definition ch_space : N := 32.
Definition ch_newline : N := 10.
Definition ch_zero : N := 48.

(** ** The interpreter

    What the program takes from the interpreter it runs on.

    Floats: the program never computes with a float, it reads one from a
    JSON number literal and prints it back.  The type and these two
    conversions are kept abstract ([float(text)] and the encoder's
    [floatstr]).

    Limits: [int(text)] and [int.__repr__] refuse more than
    [sys.get_int_max_str_digits()] digits (4300 unless set otherwise, 0 for
    no limit), and the recursion limit bounds how deep [json.loads] and
    [json.dumps] can go.  How much of the recursion limit is left when
    [format_content] or a handler calls them depends on the frames already
    in use, which the program does not fix: [decoder_depth] is the number
    of nested containers the scanner can enter, [encoder_depth] the number
    of recursion levels left to the encoder, and [encoder_overflow] the text
    of the [RecursionError] the interpreter raises inside the encoder.  The
    one thing assumed of the two depths is that a few levels are left
    ([min_depth]); the default recursion limit is 1000. *)
Definition min_depth : nat := 8.

Class Interpreter := {
  float : Type;
  parse_float : pystr -> float;   (* float(numstr) *)
  floatstr : float -> pystr;      (* float.__repr__, NaN, Infinity, -Infinity *)
  NaN : float;
  PosInf : float;
  NegInf : float;
  int_max_str_digits : N;
  decoder_depth : nat;
  encoder_depth : nat;
  encoder_overflow : pystr;
  decoder_depth_min : (min_depth <= decoder_depth)%nat;
  encoder_depth_min : (min_depth <= encoder_depth)%nat
}.

(** ** Exceptions *)

(** The exception classes the program names or meets, all subclasses of
    [Exception].  [ValueError] here is a [ValueError] that is not a
    [JSONDecodeError] (which is a subclass of it: [except
    json.JSONDecodeError] does not catch a plain [ValueError]).
    [Exception msg] stands for any other one, with [msg] its [str()].  The
    text of a [JSONDecodeError] or [TypeError] is not modelled: neither is
    ever printed (both are caught where they arise). *)
Inductive exn :=
| JSONDecodeError
| TypeError
| ValueError (message : pystr)
| RecursionError (message : pystr)
| McpError (code : Z) (message : pystr)
| Exception (message : pystr).

Definition INTERNAL_ERROR : Z := (-32603)%Z.

(** [str(e)] *)
Definition exn_str (e : exn) : pystr :=
  match e with
  | JSONDecodeError => []
  | TypeError => []
  | ValueError message => message
  | RecursionError message => message
  | McpError _ message => message
  | Exception message => message
  end.

Inductive result (A : Type) :=
| Ok (a : A)
| Raise (e : exn).
Arguments Raise {A}.

Definition rbind {A B} (m : result A) (k : A -> result B) : result B :=
  match m with
  | Ok a => k a
  | Raise e => Raise e
  end.

(** The outcome of a scanner: a value and the text that follows it, or a
    rejection of the text ([JSONDecodeError]), or another exception raised
    on the way, or the embedding's recursion measure running out. *)
Inductive scan_result (A : Type) :=
| Scanned (a : A) (rest : pystr)
| DecodeError
| Raised (e : exn)
| OutOfFuel.
Arguments DecodeError {A}.
Arguments Raised {A}.
Arguments OutOfFuel {A}.

(** ** Python values of JSON shape *)

Section Values.
Context {F : Interpreter}.

(** A [dict] keeps its keys in insertion order; it is modelled as an
    association list in which a key occurs at most once. *)
Unset Elimination Schemes.
Inductive pyval :=
| PNone
| PBool (b : bool)
| PInt (z : Z)
| PFloat (f : float)
| PStr (s : pystr)
| PList (xs : list pyval)
| PDict (kvs : list (pystr * pyval)).
Set Elimination Schemes.

Definition dict := list (pystr * pyval).

(** [d.get(k)] *)
Fixpoint dict_get (k : pystr) (d : dict) : option pyval :=
  match d with
  | [] => None
  | (k', v) :: d' => if pystr_eqb k k' then Some v else dict_get k d'
  end.

(** [k in d] *)
Definition dict_contains (k : pystr) (d : dict) : bool :=
  match dict_get k d with Some _ => true | None => false end.

(** [d[k] = v]: an existing key keeps its place, a new one goes last. *)
Fixpoint dict_set (k : pystr) (v : pyval) (d : dict) : dict :=
  match d with
  | [] => [(k, v)]
  | (k', v') :: d' =>
      if pystr_eqb k k' then (k', v) :: d' else (k', v') :: dict_set k v d'
  end.

(** [d.pop(k, None)], the dictionary that is left. *)
Fixpoint dict_pop (k : pystr) (d : dict) : dict :=
  match d with
  | [] => []
  | (k', v') :: d' =>
      if pystr_eqb k k' then d' else (k', v') :: dict_pop k d'
  end.

(** [dict(pairs)] *)
Definition dict_of_pairs (pairs : list (pystr * pyval)) : dict :=
  fold_left (fun d kv => dict_set (fst kv) (snd kv) d) pairs [].

(** ** [json.dumps(obj, indent=2)] *)

(** Four lower-case hexadecimal digits of [n < 0x10000]. *)
Definition hex_digit (n : N) : N := if n <? 10 then 48 + n else 87 + n.

Definition u_escape (n : N) : pystr :=
  [ch_backslash; 117;
   hex_digit (n / 4096 mod 16); hex_digit (n / 256 mod 16);
   hex_digit (n / 16 mod 16); hex_digit (n mod 16)].

(** [py_encode_basestring_ascii]: the replacement of one character. *)
Definition escape_char (c : N) : pystr :=
  if c =? ch_quote then [ch_backslash; ch_quote]
  else if c =? ch_backslash then [ch_backslash; ch_backslash]
  else if c =? 10 then [ch_backslash; 110]
  else if c =? 13 then [ch_backslash; 114]
  else if c =? 9 then [ch_backslash; 116]
  else if c =? 12 then [ch_backslash; 102]
  else if c =? 8 then [ch_backslash; 98]
  else if (32 <=? c) && (c <=? 126) then [c]
  else if c <? 65536 then u_escape c
  else
    let n := c - 65536 in
    let s1 := N.lor 55296 (N.land (N.shiftr n 10) 1023) in
    let s2 := N.lor 56320 (N.land n 1023) in
    u_escape s1 ++ u_escape s2.

Definition encode_basestring_ascii (s : pystr) : pystr :=
  ch_quote :: flat_map escape_char s ++ [ch_quote].

Fixpoint uint_chars (d : uint) : pystr :=
  match d with
  | Nil => []
  | D0 d => 48 :: uint_chars d
  | D1 d => 49 :: uint_chars d
  | D2 d => 50 :: uint_chars d
  | D3 d => 51 :: uint_chars d
  | D4 d => 52 :: uint_chars d
  | D5 d => 53 :: uint_chars d
  | D6 d => 54 :: uint_chars d
  | D7 d => 55 :: uint_chars d
  | D8 d => 56 :: uint_chars d
  | D9 d => 57 :: uint_chars d
  end.

(** [int.__repr__] *)
Definition int_repr (z : Z) : pystr :=
  match Z.to_int z with
  | Pos d => uint_chars d
  | Neg d => ch_minus :: uint_chars d
  end.

(** A line feed followed by [indent * level] spaces. *)
Definition newline_indent (indent level : nat) : pystr :=
  ch_newline :: repeat ch_space (indent * level).

(** [_iterencode], with the default separators that go with an indent:
    a comma between items, a colon and a space after a key. *)
Fixpoint iterencode (indent level : nat) (o : pyval) : pystr :=
  match o with
  | PStr s => encode_basestring_ascii s
  | PNone => py "null"
  | PBool true => py "true"
  | PBool false => py "false"
  | PInt z => int_repr z
  | PFloat f => floatstr f
  | PList [] => py "[]"
  | PList xs =>
      [ch_lbracket] ++ newline_indent indent (S level)
      ++ join (ch_comma :: newline_indent indent (S level))
              (List.map (iterencode indent (S level)) xs)
      ++ newline_indent indent level ++ [ch_rbracket]
  | PDict [] => py "{}"
  | PDict kvs =>
      [ch_lbrace] ++ newline_indent indent (S level)
      ++ join (ch_comma :: newline_indent indent (S level))
              (List.map (fun kv => encode_basestring_ascii (fst kv)
                                     ++ [ch_colon; ch_space]
                                     ++ iterencode indent (S level) (snd kv))
                        kvs)
      ++ newline_indent indent level ++ [ch_rbrace]
  end.

(** The decimal digits of a number, as an error message prints it. *)
Definition decimal (n : N) : pystr := int_repr (Z.of_N n).

(** The limit on the digits of an integer, in either conversion. *)
Definition too_many_digits (digits : nat) : bool :=
  (0 <? int_max_str_digits) && (int_max_str_digits <? N.of_nat digits).

(** The number of decimal digits [int.__repr__] has to write. *)
Definition int_digits (z : Z) : nat :=
  match Z.to_int z with
  | Pos d => List.length (uint_chars d)
  | Neg d => List.length (uint_chars d)
  end.

Definition int_to_str_error : exn :=
  ValueError (py "Exceeds the limit (" ++ decimal int_max_str_digits
              ++ py " digits) for integer string conversion; use sys.set_int_max_str_digits() to increase the limit").

Definition encoder_recursion_error : exn := RecursionError encoder_overflow.

Fixpoint first_error (errors : list (option exn)) : option exn :=
  match errors with
  | [] => None
  | Some e :: _ => Some e
  | None :: rest => first_error rest
  end.

(** The exception that stops [_iterencode], if one does, with [room]
    recursion levels left.  With an indent the encoder is the one written
    in Python: a list or a dictionary runs in a generator frame of its
    own, and a frame that has an item to encode makes calls of its own,
    which take one more level for their duration; a float is printed by
    the function [floatstr], a frame that in turn calls [float.__repr__].
    An integer is printed by [int.__repr__], which refuses one of too many
    digits.  The items are encoded in order, so the first exception met is
    the one raised. *)
Fixpoint encode_error (room : nat) (o : pyval) {struct o} : option exn :=
  match o with
  | PInt z => if too_many_digits (int_digits z) then Some int_to_str_error else None
  | PFloat _ => if (room <? 2)%nat then Some encoder_recursion_error else None
  | PList [] => if (room <? 1)%nat then Some encoder_recursion_error else None
  | PList xs =>
      match room with
      | S (S r) => first_error (List.map (encode_error (S r)) xs)
      | _ => Some encoder_recursion_error
      end
  | PDict [] => if (room <? 1)%nat then Some encoder_recursion_error else None
  | PDict kvs =>
      match room with
      | S (S r) => first_error (List.map (fun kv => encode_error (S r) (snd kv)) kvs)
      | _ => Some encoder_recursion_error
      end
  | _ => None
  end.

(** [json.dumps(obj, indent=indent)]: the text [iterencode] writes, unless
    writing it raises. *)
Definition json_dumps (indent : nat) (obj : pyval) : result pystr :=
  match encode_error encoder_depth obj with
  | Some e => Raise e
  | None => Ok (iterencode indent 0 obj)
  end.

(** ** [json.loads(text)]

    The scanner follows CPython's [json.scanner] and [json.decoder]
    (strict mode, default hooks).  Every way of rejecting a text is the one
    exception class [JSONDecodeError]; besides, building an integer can
    raise [ValueError] and entering a container [RecursionError].
    [OutOfFuel] is the recursion measure of the embedding running out,
    which [json_loads] never meets (see [decode_fuel]). *)


Definition is_ws (c : N) : bool :=
  (c =? 32) || (c =? 9) || (c =? 10) || (c =? 13).

Fixpoint skip_ws (s : pystr) : pystr :=
  match s with
  | c :: s' => if is_ws c then skip_ws s' else s
  | [] => []
  end.

Definition is_digit (c : N) : bool := (48 <=? c) && (c <=? 57).

Definition hexval (c : N) : option N :=
  if is_digit c then Some (c - 48)
  else if (97 <=? c) && (c <=? 102) then Some (c - 87)
  else if (65 <=? c) && (c <=? 70) then Some (c - 55)
  else None.

(** The four hexadecimal digits of a [\uXXXX] escape. *)
Definition hex4 (a b c d : N) : option N :=
  match hexval a, hexval b, hexval c, hexval d with
  | Some x, Some y, Some z, Some w => Some (4096 * x + 256 * y + 16 * z + w)
  | _, _, _, _ => None
  end.

Definition is_high_surrogate (c : N) : bool := (55296 <=? c) && (c <=? 56319).
Definition is_low_surrogate (c : N) : bool := (56320 <=? c) && (c <=? 57343).

Definition join_surrogates (hi lo : N) : N :=
  65536 + N.lor (N.shiftl (hi - 55296) 10) (lo - 56320).

(** The character a one-letter escape stands for. *)
Definition simple_escape (e : N) : option N :=
  if e =? ch_quote then Some ch_quote
  else if e =? ch_backslash then Some ch_backslash
  else if e =? ch_slash then Some ch_slash
  else if e =? 98 then Some 8
  else if e =? 102 then Some 12
  else if e =? 110 then Some 10
  else if e =? 114 then Some 13
  else if e =? 116 then Some 9
  else None.

Definition cons_char (c : N) (r : option (pystr * pystr)) : option (pystr * pystr) :=
  match r with
  | Some (str, rest) => Some (c :: str, rest)
  | None => None
  end.

(** [scanstring], entered after the opening quote: the decoded string and
    the text after the closing quote. *)
Fixpoint scanstring (s : pystr) : option (pystr * pystr) :=
  match s with
  | [] => None
  | c :: s1 =>
      if c =? ch_quote then Some ([], s1)
      else if c =? ch_backslash then
        match s1 with
        | [] => None
        | e :: s2 =>
            if e =? 117 then
              match s2 with
              | ha :: hb :: hc :: hd :: s3 =>
                  match hex4 ha hb hc hd with
                  | None => None
                  | Some uni =>
                      match s3 with
                      | bs :: u :: xa :: xb :: xc :: xd :: s4 =>
                          if is_high_surrogate uni && (bs =? ch_backslash) && (u =? 117)
                          then
                            match hex4 xa xb xc xd with
                            | None => None
                            | Some uni2 =>
                                if is_low_surrogate uni2
                                then cons_char (join_surrogates uni uni2) (scanstring s4)
                                else cons_char uni (scanstring s3)
                            end
                          else cons_char uni (scanstring s3)
                      | _ => cons_char uni (scanstring s3)
                      end
                  end
              | _ => None
              end
            else
              match simple_escape e with
              | Some c' => cons_char c' (scanstring s2)
              | None => None
              end
        end
      else if c <? 32 then None
      else cons_char c (scanstring s1)
  end.

(** The longest prefix of decimal digits. *)
Fixpoint take_digits (s : pystr) : pystr * pystr :=
  match s with
  | c :: s' =>
      if is_digit c
      then let (ds, r) := take_digits s' in (c :: ds, r)
      else ([], s)
  | [] => ([], [])
  end.

Fixpoint uint_of_chars (ds : pystr) : uint :=
  match ds with
  | [] => Nil
  | c :: ds' =>
      let d := uint_of_chars ds' in
      if c =? 48 then D0 d else if c =? 49 then D1 d
      else if c =? 50 then D2 d else if c =? 51 then D3 d
      else if c =? 52 then D4 d else if c =? 53 then D5 d
      else if c =? 54 then D6 d else if c =? 55 then D7 d
      else if c =? 56 then D8 d else D9 d
  end.

(** [int(numstr)] on an optional minus sign followed by digits. *)
Definition int_of_text (neg : bool) (ds : pystr) : Z :=
  if neg then Z.opp (Z.of_uint (uint_of_chars ds)) else Z.of_uint (uint_of_chars ds).

Definition number_sign (s : pystr) : bool * pystr :=
  match s with
  | c :: s' => if c =? ch_minus then (true, s') else (false, s)
  | [] => (false, s)
  end.

Definition number_frac (s : pystr) : pystr * pystr :=
  match s with
  | dot :: d :: s' =>
      if (dot =? ch_dot) && is_digit d
      then let (fs, r) := take_digits s' in (dot :: d :: fs, r)
      else ([], s)
  | _ => ([], s)
  end.

Definition number_exp (s : pystr) : pystr * pystr :=
  match s with
  | e :: s' =>
      if (e =? 101) || (e =? 69) then
        let (sg, s'') :=
          match s' with
          | g :: t => if (g =? ch_plus) || (g =? ch_minus) then ([g], t) else ([], s')
          | [] => ([], s')
          end in
        let (es, r) := take_digits s'' in
        match es with
        | [] => ([], s)
        | _ :: _ => (e :: sg ++ es, r)
        end
      else ([], s)
  | [] => ([], s)
  end.

(** [_match_number]: an integer part, then an optional fraction and an
    optional exponent; either of the two makes the number a float. *)
Definition match_number (s : pystr) : option (pyval * pystr) :=
  let (neg, s1) := number_sign s in
  match s1 with
  | c :: s2 =>
      if is_digit c then
        let (ip, s3) :=
          if c =? ch_zero then ([c], s2)
          else let (ds, r) := take_digits s2 in (c :: ds, r) in
        let (frac, s4) := number_frac s3 in
        let (ex, s5) := number_exp s4 in
        match frac, ex with
        | [], [] => Some (PInt (int_of_text neg ip), s5)
        | _, _ =>
            Some (PFloat (parse_float
                            ((if neg then [ch_minus] else []) ++ ip ++ frac ++ ex)), s5)
        end
      else None
  | [] => None
  end.

Definition scan_constant (name : pystr) (v : pyval) (s : pystr) : option (pyval * pystr) :=
  match strip_prefix name s with
  | Some r => Some (v, r)
  | None => None
  end.

Definition or_else {A} (a : option A) (b : option A) : option A :=
  match a with
  | Some _ => a
  | None => b
  end.

(** The cases of [scan_once] that do not nest: a string, one of the
    constants, or a number. *)
Definition scan_atom (s : pystr) : option (pyval * pystr) :=
  match s with
  | [] => None
  | c :: s' =>
      if c =? ch_quote then
        match scanstring s' with
        | Some (str, r) => Some (PStr str, r)
        | None => None
        end
      else
        or_else (scan_constant (py "null") PNone s)
        (or_else (scan_constant (py "true") (PBool true) s)
        (or_else (scan_constant (py "false") (PBool false) s)
        (or_else (scan_constant (py "NaN") (PFloat NaN) s)
        (or_else (scan_constant (py "Infinity") (PFloat PosInf) s)
        (or_else (scan_constant (py "-Infinity") (PFloat NegInf) s)
                 (match_number s))))))
  end.

(** The digits of the integer literal at the head of [s]: the integer part
    [match_number] reads. *)
Definition int_literal_digits (s : pystr) : nat :=
  let (_, s1) := number_sign s in
  match s1 with
  | c :: s2 =>
      if c =? ch_zero then 1%nat else S (List.length (fst (take_digits s2)))
  | [] => 0%nat
  end.

Definition int_from_str_error (digits : nat) : exn :=
  ValueError (py "Exceeds the limit (" ++ decimal int_max_str_digits
              ++ py " digits) for integer string conversion: value has "
              ++ decimal (N.of_nat digits)
              ++ py " digits; use sys.set_int_max_str_digits() to increase the limit").

(** The conversion of an integer literal is [int(text)], which refuses a
    literal of too many digits with a [ValueError]; no other value that
    [scan_atom] reads can fail to be built. *)
Definition conversion_error (s : pystr) (v : pyval) : option exn :=
  match v with
  | PInt _ =>
      if too_many_digits (int_literal_digits s)
      then Some (int_from_str_error (int_literal_digits s))
      else None
  | _ => None
  end.

Definition object_recursion_error : exn :=
  RecursionError
    (py "maximum recursion depth exceeded while decoding a JSON object from a unicode string").

Definition array_recursion_error : exn :=
  RecursionError
    (py "maximum recursion depth exceeded while decoding a JSON array from a unicode string").

(** [scan_once] with the array and object loops of [JSONArray] and
    [JSONObject].  The scanner enters a recursive call at every opening
    brace or bracket, before it looks at what follows: [depth] is the
    number of containers it can still enter, and with none left the
    interpreter raises [RecursionError]. *)
Fixpoint scan_once (fuel depth : nat) (s : pystr) : scan_result pyval :=
  match fuel with
  | O => OutOfFuel
  | S n =>
      match s with
      | [] => DecodeError
      | c :: s' =>
          if c =? ch_lbrace then
            match depth with
            | O => Raised object_recursion_error
            | S d =>
                match skip_ws s' with
                | c1 :: s2 =>
                    if c1 =? ch_rbrace then Scanned (PDict []) s2
                    else
                      match parse_object n d (skip_ws s') with
                      | Scanned pairs r => Scanned (PDict (dict_of_pairs pairs)) r
                      | DecodeError => DecodeError
                      | Raised e => Raised e
                      | OutOfFuel => OutOfFuel
                      end
                | [] => DecodeError
                end
            end
          else if c =? ch_lbracket then
            match depth with
            | O => Raised array_recursion_error
            | S d =>
                match skip_ws s' with
                | c1 :: s2 =>
                    if c1 =? ch_rbracket then Scanned (PList []) s2
                    else
                      match parse_array n d (skip_ws s') with
                      | Scanned xs r => Scanned (PList xs) r
                      | DecodeError => DecodeError
                      | Raised e => Raised e
                      | OutOfFuel => OutOfFuel
                      end
                | [] => DecodeError
                end
            end
          else
            match scan_atom s with
            | Some (v, r) =>
                match conversion_error s v with
                | Some e => Raised e
                | None => Scanned v r
                end
            | None => DecodeError
            end
      end
  end

(** The items of an array, entered at the first character of an item. *)
with parse_array (fuel depth : nat) (s : pystr) : scan_result (list pyval) :=
  match fuel with
  | O => OutOfFuel
  | S n =>
      match scan_once n depth s with
      | Scanned v r =>
          match skip_ws r with
          | c :: r1 =>
              if c =? ch_rbracket then Scanned [v] r1
              else if c =? ch_comma then
                match parse_array n depth (skip_ws r1) with
                | Scanned vs r2 => Scanned (v :: vs) r2
                | DecodeError => DecodeError
                | Raised e => Raised e
                | OutOfFuel => OutOfFuel
                end
              else DecodeError
          | [] => DecodeError
          end
      | DecodeError => DecodeError
      | Raised e => Raised e
      | OutOfFuel => OutOfFuel
      end
  end

(** The pairs of an object, entered at the quote that opens a key. *)
with parse_object (fuel depth : nat) (s : pystr) : scan_result (list (pystr * pyval)) :=
  match fuel with
  | O => OutOfFuel
  | S n =>
      match s with
      | c :: s1 =>
          if c =? ch_quote then
            match scanstring s1 with
            | Some (key, r) =>
                match skip_ws r with
                | c2 :: r1 =>
                    if c2 =? ch_colon then
                      match scan_once n depth (skip_ws r1) with
                      | Scanned v r2 =>
                          match skip_ws r2 with
                          | c3 :: r3 =>
                              if c3 =? ch_rbrace then Scanned [(key, v)] r3
                              else if c3 =? ch_comma then
                                match parse_object n depth (skip_ws r3) with
                                | Scanned kvs r4 => Scanned ((key, v) :: kvs) r4
                                | DecodeError => DecodeError
                                | Raised e => Raised e
                                | OutOfFuel => OutOfFuel
                                end
                              else DecodeError
                          | [] => DecodeError
                          end
                      | DecodeError => DecodeError
                      | Raised e => Raised e
                      | OutOfFuel => OutOfFuel
                      end
                    else DecodeError
                | [] => DecodeError
                end
            | None => DecodeError
            end
          else DecodeError
      | [] => DecodeError
      end
  end.

(** [JSONDecoder.decode]: one value, white space around it, nothing else. *)
Definition decode (fuel depth : nat) (s : pystr) : scan_result pyval :=
  match scan_once fuel depth (skip_ws s) with
  | Scanned obj r =>
      match skip_ws r with
      | [] => Scanned obj []
      | _ :: _ => DecodeError
      end
  | DecodeError => DecodeError
  | Raised e => Raised e
  | OutOfFuel => OutOfFuel
  end.


(** [json.loads(s)] on a [str]: a [JSONDecodeError] when the text is
    rejected, and the exception itself when the interpreter raises another
    one on the way (a [ValueError] for an integer of too many digits, a
    [RecursionError] for containers nested too deep). *)
Definition json_loads (s : pystr) : result pyval :=
  match decode (2 * List.length s + 1)%nat decoder_depth s with
  | Scanned obj _ => Ok obj
  | DecodeError => Raise JSONDecodeError
  | Raised e => Raise e
  | OutOfFuel => Raise JSONDecodeError
  end.

(** ** [format_content] *)

(** The content blocks of a tool result; [TextContent] is the one whose
    [type] is ["text"]. *)
Inductive ContentBlock :=
| TextContent (text : pystr)
| ImageContent (data mimeType : pystr)
| AudioContent (data mimeType : pystr)
| ResourceLink (uri : pystr)
| EmbeddedResource (uri : pystr).

Definition block_type (c : ContentBlock) : pystr :=
  match c with
  | TextContent _ => py "text"
  | ImageContent _ _ => py "image"
  | AudioContent _ _ => py "audio"
  | ResourceLink _ => py "resource_link"
  | EmbeddedResource _ => py "resource"
  end.

(** [d.get(k) is None] *)
Definition get_is_None (k : pystr) (d : dict) : bool :=
  match dict_get k d with
  | None => true
  | Some PNone => true
  | Some _ => false
  end.

(** Lines 27-31: drop [next_token] and [failed_regions] when null. *)
Definition remove_null_fields (parsed : dict) : dict :=
  let parsed :=
    if get_is_None (py "next_token") parsed
    then dict_pop (py "next_token") parsed else parsed in
  if get_is_None (py "failed_regions") parsed
  then dict_pop (py "failed_regions") parsed else parsed.

(** Lines 22-24: the [result] object of a [content.result] envelope, when
    [parsed] is one. *)
Definition envelope_result (parsed : pyval) : option dict :=
  match parsed with
  | PDict d =>
      match dict_get (py "content") d with
      | Some (PDict content) =>
          match dict_get (py "result") content with
          | Some (PDict result) => Some result
          | _ => None
          end
      | _ => None
      end
  | _ => None
  end.

(** Lines 22-31: the working value when line 33 renders it.  The null
    fields are removed inside the branch that unwraps. *)
Definition unwrap (parsed : pyval) : pyval :=
  match envelope_result parsed with
  | Some result => PDict (remove_null_fields result)
  | None => parsed
  end.

(** Lines 17-35: the [try] block of one text block and its handler, which
    catches [JSONDecodeError] and [TypeError] and lets anything else
    through. *)
Definition render_text (text : pystr) : result pystr :=
  match rbind (json_loads text)
              (fun parsed => json_dumps 2 (unwrap parsed)) with
  | Ok s => Ok s
  | Raise JSONDecodeError => Ok text
  | Raise TypeError => Ok text
  | Raise e => Raise e
  end.

(** The [for] loop, with [formatted_texts] as accumulator. *)
Fixpoint format_loop (content : list ContentBlock) (formatted_texts : list pystr)
  : result (list pystr) :=
  match content with
  | [] => Ok formatted_texts
  | TextContent text :: rest =>
      rbind (render_text text)
            (fun s => format_loop rest (formatted_texts ++ [s]))
  | _ :: rest => format_loop rest formatted_texts
  end.

Definition format_content (content : list ContentBlock) : result pystr :=
  rbind (format_loop content [])
        (fun formatted_texts => Ok (join [ch_newline] formatted_texts)).

(** ** The connection scope and the tool handlers *)

Inductive resource := Transport | Session.

(** What an invocation does to the outside world, in order. *)
Inductive event :=
| Opened (r : resource)                 (* a context manager was entered *)
| Closed (r : resource)                 (* its exit ran *)
| Initialized                           (* session.initialize() returned *)
| Called (name : pystr) (args : dict)   (* session.call_tool(name, args) was issued *)
| Released                              (* one call of stack.aclose() *)
| Logged (msg : pystr).                 (* logger.error(msg) *)

(** The upstream service as one invocation meets it: whether the transport
    connects, the session opens and initialises, and what a call answers. *)
Record Upstream := {
  connect : result unit;
  open_session : result unit;
  initialize : result unit;
  call_tool : pystr -> dict -> result (list ContentBlock)
}.

(** The state of one invocation: the [AsyncExitStack] of its
    [AWSClientContext] (innermost resource first) and the events so far. *)
Record state := { stack : list resource; trace : list event }.

Definition M (A : Type) := state -> result A * state.

Definition ret {A} (a : A) : M A := fun st => (Ok a, st).
Definition raise {A} (e : exn) : M A := fun st => (Raise e, st).
Definition bind {A B} (m : M A) (k : A -> M B) : M B :=
  fun st => match m st with
            | (Ok a, st') => k a st'
            | (Raise e, st') => (Raise e, st')
            end.
Definition lift {A} (r : result A) : M A := fun st => (r, st).
Definition emit (e : event) : M unit :=
  fun st => (Ok tt, {| stack := stack st; trace := trace st ++ [e] |}).

(** [try: body except Exception as e: handler(e)] *)
Definition try_except {A} (body : M A) (handler : exn -> M A) : M A :=
  fun st => match body st with
            | (Ok a, st') => (Ok a, st')
            | (Raise e, st') => handler e st'
            end.

(** [await self.stack.enter_async_context(cm)]: the resource is pushed
    only when entering it succeeded. *)
Definition enter_async_context (r : resource) (outcome : result unit) : M unit :=
  fun st => match outcome with
            | Ok _ => (Ok tt, {| stack := r :: stack st;
                                 trace := trace st ++ [Opened r] |})
            | Raise e => (Raise e, st)
            end.

(** [await self.stack.aclose()]: every entered resource is exited, last
    entered first, and the stack is left empty. *)
Definition aclose : M unit :=
  fun st => (Ok tt, {| stack := [];
                       trace := trace st ++ Released :: List.map Closed (stack st) |}).

(** [AWSClientContext.__aenter__] *)
Definition aenter (U : Upstream) : M unit :=
  try_except
    (bind (enter_async_context Transport (connect U)) (fun _ =>
     bind (enter_async_context Session (open_session U)) (fun _ =>
     bind (lift (initialize U)) (fun _ =>
     emit Initialized))))
    (fun e =>
     bind aclose (fun _ =>
     bind (emit (Logged (py "Failed to connect to AWS MCP: " ++ exn_str e))) (fun _ =>
     raise (McpError INTERNAL_ERROR (py "Connection Error: " ++ exn_str e))))).

(** [AWSClientContext.__aexit__] *)
Definition aexit : M unit := aclose.

(** [async with AWSClientContext() as session: body].  When [__aenter__]
    raises, neither the body nor [__aexit__] runs; otherwise [__aexit__]
    runs whatever the body did and does not swallow its exception. *)
Definition async_with {A} (U : Upstream) (body : M A) : M A :=
  fun st => match aenter U st with
            | (Raise e, st1) => (Raise e, st1)
            | (Ok _, st1) =>
                match body st1 with
                | (r, st2) =>
                    match aexit st2 with
                    | (Ok _, st3) => (r, st3)
                    | (Raise e, st3) => (Raise e, st3)
                    end
                end
            end.

(** [await session.call_tool(name, args)] *)
Definition session_call_tool (U : Upstream) (name : pystr) (args : dict)
  : M (list ContentBlock) :=
  bind (emit (Called name args)) (fun _ => lift (call_tool U name args)).

(** The body shared by the handlers: issue the call and format its content,
    turning any exception into a string behind [label]. *)
Definition guarded_call (U : Upstream) (name : pystr) (args : M dict) (label : pystr)
  : M pystr :=
  try_except
    (bind args (fun a =>
     bind (session_call_tool U name a) (fun content =>
     lift (format_content content))))
    (fun e => ret (label ++ exn_str e)).

(** Lines 81-83 *)
Definition search_args (query : pystr) (topics : option (list pystr)) : dict :=
  let args := [(py "search_phrase", PStr query)] in
  match topics with
  | Some (t :: ts) => dict_set (py "topics") (PList (List.map PStr (t :: ts))) args
  | Some [] => args
  | None => args
  end.

Definition search_documentation (U : Upstream) (query : pystr)
    (topics : option (list pystr)) : M pystr :=
  async_with U
    (guarded_call U (py "aws___search_documentation")
       (ret (search_args query topics))
       (py "Error searching documentation: ")).

(** Lines 94-98 *)
Definition read_args (url : pystr) (start_index max_length : option Z) : dict :=
  let args := [(py "url", PStr url)] in
  let args := match start_index with
              | Some i => dict_set (py "start_index") (PInt i) args
              | None => args
              end in
  match max_length with
  | Some n => dict_set (py "max_length") (PInt n) args
  | None => args
  end.

Definition read_documentation (U : Upstream) (url : pystr)
    (start_index max_length : option Z) : M pystr :=
  async_with U
    (guarded_call U (py "aws___read_documentation")
       (ret (read_args url start_index max_length))
       (py "Error reading documentation: ")).

Definition recommend (U : Upstream) (url : pystr) : M pystr :=
  async_with U
    (guarded_call U (py "aws___recommend") (ret [(py "url", PStr url)])
       (py "Error getting recommendations: ")).

Definition list_regions (U : Upstream) : M pystr :=
  async_with U
    (guarded_call U (py "aws___list_regions") (ret [])
       (py "Error listing regions: ")).

(** The [filters] parameter: [Union[List[str], str, None]]. *)
Inductive filters_arg :=
| FiltersNone
| FiltersStr (s : pystr)
| FiltersList (l : list pystr).

(** [if filters:] *)
Definition filters_truthy (filters : filters_arg) : bool :=
  match filters with
  | FiltersNone => false
  | FiltersStr [] => false
  | FiltersStr (_ :: _) => true
  | FiltersList [] => false
  | FiltersList (_ :: _) => true
  end.

(** Lines 133-141: what a string [filters] becomes.  Only
    [JSONDecodeError] is caught here. *)
Definition filters_of_str (s : pystr) : result pyval :=
  match json_loads s with
  | Ok (PList parsed) => Ok (PList parsed)
  | Ok _ => Ok (PList [PStr s])
  | Raise JSONDecodeError => Ok (PList [PStr s])
  | Raise e => Raise e
  end.

(** Lines 130-142: the argument set of the upstream call. *)
Definition availability_args (resource_type region : pystr) (filters : filters_arg)
  : result dict :=
  let args := [(py "resource_type", PStr resource_type); (py "region", PStr region)] in
  if filters_truthy filters then
    match filters with
    | FiltersStr s =>
        rbind (filters_of_str s) (fun f => Ok (dict_set (py "filters") f args))
    | FiltersList l => Ok (dict_set (py "filters") (PList (List.map PStr l)) args)
    | FiltersNone => Ok args
    end
  else Ok args.

Definition default_region : pystr := py "us-east-1".

Definition get_regional_availability (U : Upstream) (resource_type region : pystr)
    (filters : filters_arg) : M pystr :=
  async_with U
    (guarded_call U (py "aws___get_regional_availability")
       (lift (availability_args resource_type region filters))
       (py "Error checking availability: ")).

(** One invocation as the dispatcher sees it: the result or the exception
    that came out of the handler, and the state it left (the fresh
    context's exit stack and the events caused). *)
Definition initial_state : state := {| stack := []; trace := [] |}.

Definition invoke {A} (handler : M A) : result A * state := handler initial_state.

(** The tools registered with the server, each with the arguments of one
    call, and the handler the dispatcher runs for it. *)
Inductive tool_call :=
| SearchDocumentation (query : pystr) (topics : option (list pystr))
| ReadDocumentation (url : pystr) (start_index max_length : option Z)
| Recommend (url : pystr)
| ListRegions
| GetRegionalAvailability (resource_type region : pystr) (filters : filters_arg).

Definition handle (U : Upstream) (tc : tool_call) : M pystr :=
  match tc with
  | SearchDocumentation query topics => search_documentation U query topics
  | ReadDocumentation url start_index max_length =>
      read_documentation U url start_index max_length
  | Recommend url => recommend U url
  | ListRegions => list_regions U
  | GetRegionalAvailability resource_type region filters =>
      get_regional_availability U resource_type region filters
  end.

(** The prefix of the string a handler returns for a caught exception. *)
Definition error_label (tc : tool_call) : pystr :=
  match tc with
  | SearchDocumentation _ _ => py "Error searching documentation: "
  | ReadDocumentation _ _ _ => py "Error reading documentation: "
  | Recommend _ => py "Error getting recommendations: "
  | ListRegions => py "Error listing regions: "
  | GetRegionalAvailability _ _ _ => py "Error checking availability: "
  end.

(** The upstream tool a call is forwarded to, and its argument set. *)
Definition upstream_name (tc : tool_call) : pystr :=
  match tc with
  | SearchDocumentation _ _ => py "aws___search_documentation"
  | ReadDocumentation _ _ _ => py "aws___read_documentation"
  | Recommend _ => py "aws___recommend"
  | ListRegions => py "aws___list_regions"
  | GetRegionalAvailability _ _ _ => py "aws___get_regional_availability"
  end.

Definition upstream_args (tc : tool_call) : result dict :=
  match tc with
  | SearchDocumentation query topics => Ok (search_args query topics)
  | ReadDocumentation url start_index max_length =>
      Ok (read_args url start_index max_length)
  | Recommend url => Ok [(py "url", PStr url)]
  | ListRegions => Ok []
  | GetRegionalAvailability resource_type region filters =>
      availability_args resource_type region filters
  end.

(** Acquisition as [__aenter__] performs it: the first step that raises
    decides. *)
Definition acquisition (U : Upstream) : result unit :=
  rbind (connect U) (fun _ => rbind (open_session U) (fun _ => initialize U)).

(** The resources [__aenter__] has entered when acquisition stops, last
    entered first. *)
Definition entered (U : Upstream) : list resource :=
  match connect U with
  | Raise _ => []
  | Ok _ => match open_session U with
            | Raise _ => [Transport]
            | Ok _ => [Session; Transport]
            end
  end.

(** Apostrophes for double quotes: a way to write JSON texts down. *)
Definition jtext (s : string) : pystr :=
  List.map (fun c => if c =? 39 then ch_quote else c) (py s).

(** How often an event occurs in a trace. *)
Definition is_released (e : event) : bool :=
  match e with Released => true | _ => false end.

Definition resource_eqb (a b : resource) : bool :=
  match a, b with
  | Transport, Transport => true
  | Session, Session => true
  | _, _ => false
  end.

Definition is_opened (r : resource) (e : event) : bool :=
  match e with Opened r' => resource_eqb r r' | _ => false end.

Definition is_closed (r : resource) (e : event) : bool :=
  match e with Closed r' => resource_eqb r r' | _ => false end.

Definition count (p : event -> bool) (tr : list event) : nat :=
  List.length (filter p tr).

(** The text blocks of a content sequence, in order. *)
Fixpoint text_payloads (content : list ContentBlock) : list pystr :=
  match content with
  | [] => []
  | TextContent text :: rest => text :: text_payloads rest
  | _ :: rest => text_payloads rest
  end.

(** The text blocks rendered one after the other, as the loop does: the
    first exception ends it. *)
Fixpoint render_all (texts : list pystr) : result (list pystr) :=
  match texts with
  | [] => Ok []
  | text :: rest =>
      rbind (render_text text) (fun s =>
      rbind (render_all rest) (fun l => Ok (s :: l)))
  end.

(** The two fields line 27-31 look at. *)
Definition is_null_field (kv : pystr * pyval) : bool :=
  (pystr_eqb (fst kv) (py "next_token") || pystr_eqb (fst kv) (py "failed_regions"))
  && match snd kv with PNone => true | _ => false end.

(** Keys of a dictionary, and dictionaries in which no key repeats. *)
Definition keys (d : dict) : list pystr := List.map fst d.


(** ** Notions the properties below are stated with *)

Unset Implicit Arguments.

(** The string the guarded body of a handler returns. *)
Definition body_outcome (U : Upstream) (tc : tool_call) : pystr :=
  match upstream_args tc with
  | Raise e => error_label tc ++ exn_str e
  | Ok args =>
      match call_tool U (upstream_name tc) args with
      | Raise e => error_label tc ++ exn_str e
      | Ok content =>
          match format_content content with
          | Ok s => s
          | Raise e => error_label tc ++ exn_str e
          end
      end
  end.

Definition body_events (tc : tool_call) : list event :=
  match upstream_args tc with
  | Raise _ => []
  | Ok args => [Called (upstream_name tc) args]
  end.


Definition drop_if_null (k : pystr) (d : dict) : dict :=
  if get_is_None k d then dict_pop k d else d.

Definition null_at (k : pystr) (kv : pystr * pyval) : bool :=
  pystr_eqb (fst kv) k && match snd kv with PNone => true | _ => false end.

(** A string [json.loads] can give back: code points in range, and no
    high surrogate directly before a low one (an escaped pair reads as one
    character). *)
Fixpoint no_surrogate_pair (s : pystr) : bool :=
  match s with
  | a :: s' =>
      match s' with
      | b :: _ => negb (is_high_surrogate a && is_low_surrogate b)
      | [] => true
      end && no_surrogate_pair s'
  | [] => true
  end.

Definition valid_str (s : pystr) : bool :=
  forallb (fun c => c <=? 1114111) s && no_surrogate_pair s.

Definition pair_ahead (t : pystr) : bool :=
  match t with
  | bs :: u :: xa :: xb :: xc :: xd :: _ =>
      (bs =? ch_backslash) && (u =? 117)
      && match hex4 xa xb xc xd with
         | Some uni2 => is_low_surrogate uni2
         | None => true
         end
  | _ => false
  end.

(** What may follow a value in an encoded text: nothing, a comma or a line feed. *)
Definition delimited (rest : pystr) : bool :=
  match rest with
  | [] => true
  | c :: _ => (c =? ch_comma) || (c =? ch_newline)
  end.

Definition nondigit_head (t : pystr) : bool :=
  match t with
  | [] => true
  | c :: _ => negb (is_digit c)
  end.

(** A digit sequence as [int.__repr__] writes it: a single zero, or no
    leading zero. *)
Definition canonical (d : uint) : bool :=
  match d with
  | Nil => false
  | D0 Nil => true
  | D0 _ => false
  | _ => true
  end.

(** r is what is left of s after some prefix was read *)
Inductive suffix (r : pystr) : pystr -> Prop :=
| suffix_here : suffix r r
| suffix_skip (c : N) (s : pystr) : suffix r s -> suffix r (c :: s).

Definition strict_suffix (r s : pystr) : Prop :=
  match s with
  | [] => False
  | _ :: s' => suffix r s'
  end.

(** Every string of a value satisfies [P], and no dictionary in it repeats
    a key. *)
Unset Elimination Schemes.
Inductive wf_with (P : pystr -> Prop) : pyval -> Prop :=
| wf_none : wf_with P PNone
| wf_bool (b : bool) : wf_with P (PBool b)
| wf_int (z : Z) : wf_with P (PInt z)
| wf_float (f : float) : wf_with P (PFloat f)
| wf_str (s : pystr) : P s -> wf_with P (PStr s)
| wf_list (xs : list pyval) : Forall (wf_with P) xs -> wf_with P (PList xs)
| wf_dict (kvs : list (pystr * pyval)) :
    NoDup (keys kvs) ->
    Forall (fun kv => P (fst kv) /\ wf_with P (snd kv)) kvs ->
    wf_with P (PDict kvs).
Set Elimination Schemes.

Definition wf_value : pyval -> Prop := wf_with (fun s => valid_str s = true).

(** A value whose containers nest no deeper than [depth] and whose
    integers have no more digits than the limit allows. *)
Fixpoint fits (depth : nat) (v : pyval) {struct v} : bool :=
  match v with
  | PInt z => negb (too_many_digits (int_digits z))
  | PList xs =>
      match depth with
      | O => false
      | S d => forallb (fits d) xs
      end
  | PDict kvs =>
      match depth with
      | O => false
      | S d => forallb (fun kv => fits d (snd kv)) kvs
      end
  | _ => true
  end.

(** The values [json.loads] builds from Unicode text. *)
Definition well_formed (v : pyval) : Prop :=
  wf_value v /\ fits decoder_depth v = true.

(** A Unicode scalar value: a code point that is not a surrogate.  Text
    that was decoded from UTF-8 consists of these. *)
Definition is_scalar_value (c : N) : bool :=
  (c <? 55296) || ((57343 <? c) && (c <=? 1114111)).

Definition valid_text (s : pystr) : bool := forallb is_scalar_value s.

(** What [float.__repr__] and [float()] guarantee the decoder: the text the
    encoder writes for a float is read back, whole, as that float. *)
Class FloatLaws : Prop := {
  floatstr_scans : forall f : float, scan_atom (floatstr f) = Some (PFloat f, [])
}.

(** The first character of a value is neither white space nor a closing
    bracket. *)
Definition value_head (s : pystr) : Prop :=
  match s with
  | [] => False
  | c :: _ => is_ws c = false /\ (c =? ch_rbracket) = false
  end.

(** One item of an encoded dictionary. *)
Definition encode_item (indent level : nat) (kv : pystr * pyval) : pystr :=
  encode_basestring_ascii (fst kv) ++ [ch_colon; ch_space]
  ++ iterencode indent level (snd kv).

(** The scanner reads the encoding of [x] back, whatever delimiter
    follows, when it has the depth for it. *)
Definition reads_back (indent : nat) (x : pyval) : Prop :=
  forall level depth rest, delimited rest = true -> fits depth x = true ->
  exists fuel, scan_once fuel depth (iterencode indent level x ++ rest) = Scanned x rest.

Definition in_range (s : pystr) : bool := forallb (fun c => c <=? 1114111) s.

(** What the scanner's output satisfies, next to the text it was read from. *)
Definition scanned_ok (s out : pystr) : Prop :=
  in_range out = true /\ no_surrogate_pair out = true
  /\ match out with
     | b :: _ => is_low_surrogate b = true -> pair_ahead s = true
     | [] => True
     end.

(** What a trace records, by kind of event and in order: the resources
    entered, the resources exited, the upstream calls issued and the
    messages logged. *)
Definition opened_resources (tr : list event) : list resource :=
  flat_map (fun e => match e with Opened r => [r] | _ => [] end) tr.

Definition closed_resources (tr : list event) : list resource :=
  flat_map (fun e => match e with Closed r => [r] | _ => [] end) tr.

Definition calls (tr : list event) : list (pystr * dict) :=
  flat_map (fun e => match e with Called name args => [(name, args)] | _ => [] end) tr.



(** The exceptions that come from a limit of the interpreter. *)
Definition limit_error (e : exn) : bool :=
  match e with
  | ValueError _ => true
  | RecursionError _ => true
  | _ => false
  end.

(** A string of ASCII characters only. *)
Definition is_ascii (s : pystr) : bool := forallb (fun c => c <? 128) s.

(** [s] starts, after white space, with the character [ch]. *)
Definition first_char_is (ch : N) (s : pystr) : bool :=
  match skip_ws s with
  | c :: _ => c =? ch
  | [] => false
  end.

End Values.

(** ** An interpreter to run the model with

    Floats with integral values, printed with a [.0] fraction; enough to
    evaluate the model on payloads, none of which below has a fractional
    number.  The limit on the digits of an integer is CPython's default,
    and the two depths are those of a recursion limit of 1000 with a
    hundred frames in use. *)
Inductive wfloat := FNaN | FInf | FNegInf | FWhole (z : Z).

Definition wfloat_parse (text : pystr) : wfloat :=
  let (neg, s1) := number_sign text in
  let (ds, _) := take_digits s1 in
  FWhole (int_of_text neg ds).

Definition wfloat_str (f : wfloat) : pystr :=
  match f with
  | FNaN => py "NaN"
  | FInf => py "Infinity"
  | FNegInf => py "-Infinity"
  | FWhole z => int_repr z ++ py ".0"
  end.

Definition whole_floats : Interpreter := {|
  float := wfloat;
  parse_float := wfloat_parse;
  floatstr := wfloat_str;
  NaN := FNaN;
  PosInf := FInf;
  NegInf := FNegInf;
  int_max_str_digits := 4300;
  decoder_depth := 900;
  encoder_depth := 900;
  encoder_overflow := py "maximum recursion depth exceeded while calling a Python object";
  decoder_depth_min := proj1 (Nat.leb_le min_depth 900) eq_refl;
  encoder_depth_min := proj1 (Nat.leb_le min_depth 900) eq_refl
|}.

(** Three upstreams to run the handlers against. *)
Definition upstream_answering (content : list ContentBlock) : @Upstream whole_floats :=
  {| connect := Ok tt; open_session := Ok tt; initialize := Ok tt;
     call_tool := fun _ _ => Ok content |}.



(** Two payloads beyond the limits: an integer literal of 4301 digits
    ('1' * 4301), and a thousand opening brackets ('[' * 1000). *)
Definition long_integer : pystr := repeat 49%N 4301%nat.
Definition deep_brackets : pystr := repeat ch_lbracket 1000%nat.

(** * Properties *)

Ltac Zify.zify_post_hook ::= Z.to_euclidean_division_equations.

Ltac bdestruct :=
  repeat match goal with
  | |- context [N.eqb ?a ?b] => destruct (N.eqb_spec a b)
  | |- context [N.leb ?a ?b] => destruct (N.leb_spec a b)
  | |- context [N.ltb ?a ?b] => destruct (N.ltb_spec a b)
  end.

Ltac len_lia := cbn [List.length] in *; lia.

(** The keys of a literal argument set are pairwise different. *)
Ltac distinct_keys :=
  vm_compute;
  repeat (constructor;
          [ let H := fresh "H" in
            intros H; cbn in H;
            repeat (destruct H as [H|H]; [discriminate H|]); exact H
          | ]);
  constructor.

Section Properties.
Context {F : Interpreter}.

(** *** Strings and dictionaries *)

Lemma pystr_eqb_eq (a b : pystr) : pystr_eqb a b = true <-> a = b.
Proof.
  revert b; induction a as [|x a IH]; destruct b as [|y b]; simpl; split;
    try congruence; try reflexivity.
  - rewrite andb_true_iff, N.eqb_eq, IH. intros [-> ->]. reflexivity.
  - intros H. injection H as -> ->. rewrite N.eqb_refl. simpl. apply IH. reflexivity.
Qed.

Lemma pystr_eqb_refl (a : pystr) : pystr_eqb a a = true.
Proof. apply pystr_eqb_eq. reflexivity. Qed.

Lemma pystr_eqb_sym (a b : pystr) : pystr_eqb a b = pystr_eqb b a.
Proof.
  destruct (pystr_eqb a b) eqn:E1, (pystr_eqb b a) eqn:E2; try reflexivity.
  - apply pystr_eqb_eq in E1. subst. rewrite pystr_eqb_refl in E2. discriminate.
  - apply pystr_eqb_eq in E2. subst. rewrite pystr_eqb_refl in E1. discriminate.
Qed.

Lemma dict_get_in (k : pystr) (d : dict) (v : pyval) :
  dict_get k d = Some v -> In k (keys d).
Proof.
  induction d as [|[k' v'] d IH]; simpl; [discriminate|].
  destruct (pystr_eqb k k') eqn:E.
  - apply pystr_eqb_eq in E. auto.
  - auto.
Qed.

Lemma dict_get_notin (k : pystr) (d : dict) :
  ~ In k (keys d) -> dict_get k d = None.
Proof.
  intros H. destruct (dict_get k d) eqn:E; [|reflexivity].
  exfalso. eauto using dict_get_in.
Qed.

Lemma filter_id_notin (k : pystr) (d : dict) :
  ~ In k (keys d) -> filter (fun kv => negb (null_at k kv)) d = d.
Proof.
  induction d as [|[k' v'] d IH]; simpl; [reflexivity|].
  intros H. unfold null_at at 1. simpl.
  destruct (pystr_eqb k' k) eqn:E.
  - apply pystr_eqb_eq in E. subst. tauto.
  - simpl. f_equal. apply IH. tauto.
Qed.

Lemma drop_if_null_filter (k : pystr) (d : dict) :
  NoDup (keys d) ->
  drop_if_null k d = filter (fun kv => negb (null_at k kv)) d.
Proof.
  unfold drop_if_null, get_is_None.
  induction d as [|[k' v'] d IH]; simpl; [reflexivity|].
  intros Hnd. inversion Hnd as [|? ? Hnotin Hnd']; subst.
  unfold null_at at 1. simpl. rewrite (pystr_eqb_sym k' k).
  destruct (pystr_eqb k k') eqn:E.
  - apply pystr_eqb_eq in E. subst k'.
    destruct v'; simpl; rewrite ?(filter_id_notin _ _ Hnotin); reflexivity.
  - simpl. specialize (IH Hnd').
    destruct (dict_get k d) as [[]|]; simpl in *; rewrite <- IH; reflexivity.
Qed.

Lemma keys_filter_nodup (p : pystr * pyval -> bool) (d : dict) :
  NoDup (keys d) -> NoDup (keys (filter p d)).
Proof.
  induction d as [|[k v] d IH]; simpl; [constructor|].
  intros Hnd. inversion Hnd as [|? ? Hnotin Hnd']; subst.
  destruct (p (k, v)); simpl; [constructor|]; auto.
  intros Hin. apply Hnotin. unfold keys in *.
  apply in_map_iff in Hin. destruct Hin as [[k' v'] [Hk Hin]]. simpl in Hk. subst.
  apply filter_In in Hin. apply in_map_iff. exists (k, v'). tauto.
Qed.

Lemma remove_null_fields_filter (d : dict) :
  NoDup (keys d) ->
  remove_null_fields d = filter (fun kv => negb (is_null_field kv)) d.
Proof.
  intros Hnd. unfold remove_null_fields.
  change (drop_if_null (py "failed_regions") (drop_if_null (py "next_token") d)
          = filter (fun kv => negb (is_null_field kv)) d).
  rewrite (drop_if_null_filter (py "next_token") d Hnd).
  rewrite drop_if_null_filter by (apply keys_filter_nodup; exact Hnd).
  clear Hnd. induction d as [|kv d IH]; simpl; [reflexivity|].
  unfold is_null_field at 1, null_at at 2.
  destruct (pystr_eqb (fst kv) (py "next_token")) eqn:E1; simpl.
  - destruct (snd kv) eqn:Es; simpl; try exact IH;
      unfold null_at at 1; rewrite Es, andb_false_r; simpl; f_equal; exact IH.
  - unfold null_at at 1.
    destruct (pystr_eqb (fst kv) (py "failed_regions") && _); simpl; [|f_equal]; exact IH.
Qed.

(** *** The normaliser *)

Lemma format_loop_spec (content : list ContentBlock) (acc : list pystr) :
  format_loop content acc
  = rbind (render_all (text_payloads content)) (fun l => Ok (acc ++ l)).
Proof.
  revert acc; induction content as [|c rest IH]; intros acc; simpl.
  - rewrite app_nil_r. reflexivity.
  - destruct c; simpl; try apply IH.
    destruct (render_text text) as [s|e]; simpl; [|reflexivity].
    rewrite IH. destruct (render_all (text_payloads rest)) as [l|e]; simpl; [|reflexivity].
    rewrite <- app_assoc. reflexivity.
Qed.

Lemma format_content_render_all (content : list ContentBlock) :
  format_content content
  = rbind (render_all (text_payloads content)) (fun l => Ok (join [ch_newline] l)).
Proof.
  unfold format_content. rewrite format_loop_spec.
  destruct (render_all (text_payloads content)); reflexivity.
Qed.



(** *** The connection scope and the handlers *)

Lemma aenter_ok (U : Upstream) (st : state) :
  acquisition U = Ok tt ->
  aenter U st = (Ok tt, {| stack := Session :: Transport :: stack st;
                           trace := trace st ++ [Opened Transport; Opened Session; Initialized] |}).
Proof.
  unfold acquisition, aenter, try_except, bind, enter_async_context, lift, emit.
  destruct (connect U) as [[]|e1]; simpl; [|discriminate].
  destruct (open_session U) as [[]|e2]; simpl; [|discriminate].
  destruct (initialize U) as [[]|e3]; simpl; [|discriminate].
  intros _. rewrite <- !app_assoc. reflexivity.
Qed.

Lemma aenter_raise (U : Upstream) (st : state) (e : exn) :
  acquisition U = Raise e ->
  aenter U st
  = (Raise (McpError INTERNAL_ERROR (py "Connection Error: " ++ exn_str e)),
     {| stack := [];
        trace := trace st ++ List.map Opened (rev (entered U))
                   ++ Released :: List.map Closed (entered U ++ stack st)
                   ++ [Logged (py "Failed to connect to AWS MCP: " ++ exn_str e)] |}).
Proof.
  unfold acquisition, aenter, try_except, bind, enter_async_context, lift, emit, aclose,
    raise, entered.
  destruct (connect U) as [[]|e1]; simpl.
  - destruct (open_session U) as [[]|e2]; simpl.
    + destruct (initialize U) as [[]|e3]; simpl; [discriminate|].
      intros [= ->]. repeat (rewrite <- ?app_assoc; simpl). reflexivity.
    + intros [= ->]. repeat (rewrite <- ?app_assoc; simpl). reflexivity.
  - intros [= ->]. repeat (rewrite <- ?app_assoc; simpl). reflexivity.
Qed.

Lemma handle_unfold (U : Upstream) (tc : tool_call) :
  handle U tc
  = async_with U (guarded_call U (upstream_name tc) (lift (upstream_args tc))
                               (error_label tc)).
Proof. destruct tc; reflexivity. Qed.

Lemma guarded_call_run (U : Upstream) (tc : tool_call) (st : state) :
  guarded_call U (upstream_name tc) (lift (upstream_args tc)) (error_label tc) st
  = (Ok (body_outcome U tc),
     {| stack := stack st; trace := trace st ++ body_events tc |}).
Proof.
  unfold guarded_call, try_except, bind, lift, session_call_tool, emit, ret,
    body_outcome, body_events.
  destruct (upstream_args tc) as [args|e]; simpl.
  - destruct (call_tool U (upstream_name tc) args) as [content|e]; simpl;
      [destruct (format_content content)|]; reflexivity.
  - rewrite app_nil_r. destruct st; reflexivity.
Qed.

Lemma invoke_handle_ok (U : Upstream) (tc : tool_call) :
  acquisition U = Ok tt ->
  invoke (handle U tc)
  = (Ok (body_outcome U tc),
     {| stack := [];
        trace := [Opened Transport; Opened Session; Initialized] ++ body_events tc
                 ++ [Released; Closed Session; Closed Transport] |}).
Proof.
  intros Hacq. unfold invoke. rewrite handle_unfold. unfold async_with.
  rewrite (aenter_ok U _ Hacq), guarded_call_run. unfold aexit, aclose. simpl.
  reflexivity.
Qed.

Lemma invoke_handle_raise (U : Upstream) (tc : tool_call) (e : exn) :
  acquisition U = Raise e ->
  invoke (handle U tc)
  = (Raise (McpError INTERNAL_ERROR (py "Connection Error: " ++ exn_str e)),
     {| stack := [];
        trace := List.map Opened (rev (entered U))
                 ++ Released :: List.map Closed (entered U)
                 ++ [Logged (py "Failed to connect to AWS MCP: " ++ exn_str e)] |}).
Proof.
  intros Hacq. unfold invoke. rewrite handle_unfold. unfold async_with.
  rewrite (aenter_raise U _ e Hacq). simpl. rewrite app_nil_r. reflexivity.
Qed.

Lemma count_app (p : event -> bool) (a b : list event) :
  count p (a ++ b) = (count p a + count p b)%nat.
Proof. unfold count. rewrite filter_app, length_app. reflexivity. Qed.

Lemma body_events_count (tc : tool_call) (p : event -> bool) :
  (forall n a, p (Called n a) = false) -> count p (body_events tc) = 0%nat.
Proof.
  intros Hp. unfold body_events. destruct (upstream_args tc); [|reflexivity].
  unfold count. simpl. rewrite Hp. reflexivity.
Qed.


(** *** What the scanners leave *)

Lemma suffix_length (r s : pystr) : suffix r s -> (List.length r <= List.length s)%nat.
Proof. induction 1; simpl; lia. Qed.

Lemma suffix_trans (a b c : pystr) : suffix a b -> suffix b c -> suffix a c.
Proof. intros Hab Hbc. induction Hbc; [assumption|constructor; assumption]. Qed.

Lemma suffix_Forall (P : N -> Prop) (r s : pystr) : suffix r s -> Forall P s -> Forall P r.
Proof. intros Hs; induction Hs; intros HP; [assumption|]. inversion HP; auto. Qed.

Lemma strict_suffix_weaken (r s : pystr) : strict_suffix r s -> suffix r s.
Proof. destruct s; simpl; [tauto|]. intros H. constructor. exact H. Qed.

Lemma strict_suffix_length (r s : pystr) :
  strict_suffix r s -> (List.length r < List.length s)%nat.
Proof. destruct s; simpl; [tauto|]. intros H. apply suffix_length in H. lia. Qed.

Lemma suffix_strict_trans (a b c : pystr) : suffix a b -> strict_suffix b c -> strict_suffix a c.
Proof. destruct c; simpl; [tauto|]. apply suffix_trans. Qed.

Lemma strict_suffix_trans (a b c : pystr) : strict_suffix a b -> suffix b c -> strict_suffix a c.
Proof.
  intros Hab Hbc. induction Hbc; [assumption|].
  simpl. apply strict_suffix_weaken. assumption.
Qed.

Lemma skip_ws_suffix (s : pystr) : suffix (skip_ws s) s.
Proof.
  induction s as [|c s IH]; simpl; [constructor|].
  destruct (is_ws c); [constructor; assumption|constructor].
Qed.

Lemma strip_prefix_suffix (p s r : pystr) : strip_prefix p s = Some r -> suffix r s.
Proof.
  revert s; induction p as [|a p IH]; intros s H; simpl in H.
  - destruct s; injection H as <-; constructor.
  - destruct s as [|b s]; [discriminate|].
    destruct (a =? b); [|discriminate]. constructor. auto.
Qed.

Lemma strip_prefix_strict (p s r : pystr) :
  p <> [] -> strip_prefix p s = Some r -> strict_suffix r s.
Proof.
  destruct p as [|a p]; [congruence|]. intros _ H.
  destruct s as [|b s]; simpl in *; [discriminate|].
  destruct (a =? b); [|discriminate]. eauto using strip_prefix_suffix.
Qed.

Lemma cons_char_inv (c : N) (x : option (pystr * pystr)) (str r : pystr) :
  cons_char c x = Some (str, r) ->
  exists str', x = Some (str', r) /\ str = c :: str'.
Proof.
  destruct x as [[str' r']|]; simpl; [|discriminate].
  intros [= <- <-]. eauto.
Qed.

Lemma scanstring_suffix_le (n : nat) (s : pystr) :
  (List.length s <= n)%nat ->
  forall str r, scanstring s = Some (str, r) -> strict_suffix r s.
Proof.
  revert s; induction n as [|n IH]; intros s Hlen str r H.
  - destruct s; [discriminate|simpl in Hlen; lia].
  - destruct s as [|c s1]; [discriminate|]. simpl in H. simpl in Hlen.
    assert (IH' : forall t, (List.length t <= n)%nat -> forall str r,
              scanstring t = Some (str, r) -> suffix r t).
    { intros t Ht str' r' H'. apply strict_suffix_weaken. eauto. }
    simpl.
    destruct (c =? ch_quote); [injection H as <- <-; constructor|].
    destruct (c =? ch_backslash).
    + destruct s1 as [|e s2]; [discriminate|].
      destruct (e =? 117).
      * destruct s2 as [|ha [|hb [|hc [|hd s3]]]]; try discriminate.
        destruct (hex4 ha hb hc hd) as [uni|]; [|discriminate].
        assert (Hs3 : forall str' , cons_char uni (scanstring s3) = Some (str', r) -> suffix r s3).
        { intros str' H'. apply cons_char_inv in H'. destruct H' as [x [H' _]].
          eapply IH'; [|exact H']. simpl in Hlen. lia. }
        do 5 constructor.
        destruct s3 as [|bs [|u [|xa [|xb [|xc [|xd s4]]]]]]; eauto.
        destruct (is_high_surrogate uni && (bs =? ch_backslash) && (u =? 117)); eauto.
        destruct (hex4 xa xb xc xd) as [uni2|]; [|discriminate].
        destruct (is_low_surrogate uni2); eauto.
        apply cons_char_inv in H. destruct H as [x [H _]].
        do 6 constructor. eapply IH'; [|exact H]. simpl in Hlen. lia.
      * destruct (simple_escape e); [|discriminate].
        apply cons_char_inv in H. destruct H as [x [H _]].
        constructor. eapply IH'; [|exact H]. simpl in Hlen. lia.
    + destruct (c <? 32); [discriminate|].
      apply cons_char_inv in H. destruct H as [x [H _]].
      eapply IH'; [|exact H]. lia.
Qed.

Lemma scanstring_suffix (s str r : pystr) :
  scanstring s = Some (str, r) -> strict_suffix r s.
Proof. apply (scanstring_suffix_le (List.length s)). lia. Qed.

Lemma take_digits_app (s ds r : pystr) : take_digits s = (ds, r) -> s = ds ++ r.
Proof.
  revert ds r; induction s as [|c s IH]; intros ds r H; simpl in H.
  - injection H as <- <-. reflexivity.
  - destruct (is_digit c).
    + destruct (take_digits s) as [ds' r'] eqn:E. injection H as <- <-.
      simpl. f_equal. auto.
    + injection H as <- <-. reflexivity.
Qed.

Lemma suffix_app (p r : pystr) : suffix r (p ++ r).
Proof. induction p; simpl; constructor; assumption. Qed.

Lemma take_digits_suffix (s ds r : pystr) : take_digits s = (ds, r) -> suffix r s.
Proof. intros H. apply take_digits_app in H. subst. apply suffix_app. Qed.

Lemma number_sign_suffix (s : pystr) (neg : bool) (r : pystr) :
  number_sign s = (neg, r) -> suffix r s.
Proof.
  unfold number_sign. destruct s as [|c s]; [intros [= <- <-]; constructor|].
  destruct (c =? ch_minus); intros [= <- <-]; repeat constructor.
Qed.

Lemma number_frac_suffix (s fr r : pystr) : number_frac s = (fr, r) -> suffix r s.
Proof.
  unfold number_frac. destruct s as [|dot [|d s]]; try (intros [= <- <-]; constructor).
  destruct ((dot =? ch_dot) && is_digit d); [|intros [= <- <-]; constructor].
  destruct (take_digits s) as [fs r'] eqn:E. intros [= <- <-].
  do 2 constructor. eauto using take_digits_suffix.
Qed.

Lemma number_exp_suffix (s ex r : pystr) : number_exp s = (ex, r) -> suffix r s.
Proof.
  unfold number_exp. destruct s as [|e s]; [intros [= <- <-]; constructor|].
  destruct ((e =? 101) || (e =? 69)); [|intros [= <- <-]; constructor].
  destruct s as [|g t].
  - simpl. intros [= <- <-]. constructor.
  - destruct ((g =? ch_plus) || (g =? ch_minus)).
    + destruct (take_digits t) as [es r'] eqn:E.
      destruct es; intros [= <- <-]; [constructor|].
      do 2 constructor. eauto using take_digits_suffix.
    + destruct (take_digits (g :: t)) as [es r'] eqn:E.
      destruct es; intros [= <- <-]; [constructor|].
      constructor. eauto using take_digits_suffix.
Qed.

Lemma match_number_suffix (s : pystr) (v : pyval) (r : pystr) :
  match_number s = Some (v, r) -> strict_suffix r s.
Proof.
  unfold match_number.
  destruct (number_sign s) as [neg s1] eqn:Hsign.
  destruct s1 as [|c s2]; [discriminate|].
  destruct (is_digit c); [|discriminate].
  destruct (if c =? ch_zero then ([c], s2)
            else let (ds, r0) := take_digits s2 in (c :: ds, r0)) as [ip s3] eqn:Hip.
  destruct (number_frac s3) as [fr s4] eqn:Hfr.
  destruct (number_exp s4) as [ex s5] eqn:Hex.
  intros H.
  assert (r = s5) as -> by (destruct fr, ex; injection H as _ <-; reflexivity).
  assert (suffix s3 s2).
  { destruct (c =? ch_zero); [injection Hip as _ <-; constructor|].
    destruct (take_digits s2) eqn:E. injection Hip as _ <-. eauto using take_digits_suffix. }
  assert (suffix s5 s2).
  { eapply suffix_trans; [eapply number_exp_suffix; eassumption|].
    eapply suffix_trans; [eapply number_frac_suffix; eassumption|]. assumption. }
  eapply strict_suffix_trans; [|eapply number_sign_suffix; eassumption].
  simpl. assumption.
Qed.

Lemma scan_constant_suffix (name : pystr) (v v' : pyval) (s r : pystr) :
  name <> [] -> scan_constant name v s = Some (v', r) -> strict_suffix r s.
Proof.
  unfold scan_constant. intros Hn. destruct (strip_prefix name s) eqn:E; [|discriminate].
  intros [= _ <-]. eauto using strip_prefix_strict.
Qed.

Lemma scan_atom_suffix (s : pystr) (v : pyval) (r : pystr) :
  scan_atom s = Some (v, r) -> strict_suffix r s.
Proof.
  unfold scan_atom. destruct s as [|c s']; [discriminate|].
  destruct (c =? ch_quote).
  - destruct (scanstring s') as [[str r']|] eqn:E; [|discriminate].
    intros [= _ <-]. simpl. apply strict_suffix_weaken. eauto using scanstring_suffix.
  - unfold or_else.
    repeat match goal with
    | |- context [scan_constant ?n ?x ?y] =>
        let E := fresh "E" in
        destruct (scan_constant n x y) as [[? ?]|] eqn:E;
        [ intros [= _ <-]; eapply scan_constant_suffix; [|exact E]; discriminate | ]
    end.
    apply match_number_suffix.
Qed.

(** *** The recursive scanner *)

Lemma scan_suffix (fuel : nat) :
  (forall depth s v r, scan_once fuel depth s = Scanned v r -> strict_suffix r s)
  /\ (forall depth s xs r, parse_array fuel depth s = Scanned xs r -> strict_suffix r s)
  /\ (forall depth s kvs r, parse_object fuel depth s = Scanned kvs r -> strict_suffix r s).
Proof.
  induction fuel as [|n [IHv [IHa IHo]]]; [repeat split; discriminate|].
  split; [|split].
  - intros depth s v r H. simpl in H.
    destruct s as [|c s']; [discriminate|].
    destruct (c =? ch_lbrace).
    { destruct depth as [|d]; [discriminate|].
      destruct (skip_ws s') as [|c1 s2] eqn:Hws; [discriminate|].
      pose proof (skip_ws_suffix s') as Hsuf. rewrite Hws in Hsuf.
      destruct (c1 =? ch_rbrace).
      - injection H as _ <-. simpl.
        eapply suffix_trans; [|exact Hsuf]. repeat constructor.
      - destruct (parse_object n d (c1 :: s2)) eqn:E; try discriminate.
        injection H as _ <-. apply IHo in E. simpl.
        eapply suffix_trans; [|exact Hsuf]. apply strict_suffix_weaken. exact E. }
    destruct (c =? ch_lbracket).
    { destruct depth as [|d]; [discriminate|].
      destruct (skip_ws s') as [|c1 s2] eqn:Hws; [discriminate|].
      pose proof (skip_ws_suffix s') as Hsuf. rewrite Hws in Hsuf.
      destruct (c1 =? ch_rbracket).
      - injection H as _ <-. simpl.
        eapply suffix_trans; [|exact Hsuf]. repeat constructor.
      - destruct (parse_array n d (c1 :: s2)) eqn:E; try discriminate.
        injection H as _ <-. apply IHa in E. simpl.
        eapply suffix_trans; [|exact Hsuf]. apply strict_suffix_weaken. exact E. }
    destruct (scan_atom (c :: s')) as [[v' r']|] eqn:E; [|discriminate].
    destruct (conversion_error (c :: s') v'); [discriminate|].
    injection H as _ <-. eapply scan_atom_suffix. exact E.
  - intros depth s xs r H. simpl in H.
    destruct (scan_once n depth s) as [v r0| | |] eqn:E; try discriminate.
    apply IHv in E.
    destruct (skip_ws r0) as [|c r1] eqn:Hws; [discriminate|].
    pose proof (skip_ws_suffix r0) as Hsuf. rewrite Hws in Hsuf.
    assert (Hr1 : strict_suffix r1 s).
    { eapply suffix_strict_trans; [|exact E].
      eapply suffix_trans; [|exact Hsuf]. repeat constructor. }
    destruct (c =? ch_rbracket); [injection H as _ <-; exact Hr1|].
    destruct (c =? ch_comma); [|discriminate].
    destruct (parse_array n depth (skip_ws r1)) eqn:E2; try discriminate.
    injection H as _ <-. apply IHa in E2.
    eapply suffix_strict_trans; [|exact Hr1].
    eapply suffix_trans; [|apply skip_ws_suffix]. apply strict_suffix_weaken. exact E2.
  - intros depth s kvs r H. simpl in H.
    destruct s as [|c s1]; [discriminate|].
    destruct (c =? ch_quote); [|discriminate].
    destruct (scanstring s1) as [[key r0]|] eqn:Hkey; [|discriminate].
    apply scanstring_suffix, strict_suffix_weaken in Hkey.
    destruct (skip_ws r0) as [|c2 r1] eqn:Hws; [discriminate|].
    pose proof (skip_ws_suffix r0) as Hsuf. rewrite Hws in Hsuf.
    destruct (c2 =? ch_colon); [|discriminate].
    destruct (scan_once n depth (skip_ws r1)) as [v r2| | |] eqn:E; try discriminate.
    apply IHv, strict_suffix_weaken in E.
    assert (Hr2 : suffix r2 s1).
    { eapply suffix_trans; [exact E|].
      eapply suffix_trans; [apply skip_ws_suffix|].
      eapply suffix_trans; [|exact Hkey].
      eapply suffix_trans; [|exact Hsuf]. repeat constructor. }
    destruct (skip_ws r2) as [|c3 r3] eqn:Hws2; [discriminate|].
    pose proof (skip_ws_suffix r2) as Hsuf2. rewrite Hws2 in Hsuf2.
    assert (Hr3 : suffix r3 s1).
    { eapply suffix_trans; [|exact Hr2].
      eapply suffix_trans; [|exact Hsuf2]. repeat constructor. }
    destruct (c3 =? ch_rbrace); [injection H as _ <-; exact Hr3|].
    destruct (c3 =? ch_comma); [|discriminate].
    destruct (parse_object n depth (skip_ws r3)) eqn:E2; try discriminate.
    injection H as _ <-. apply IHo, strict_suffix_weaken in E2. simpl.
    eapply suffix_trans; [exact E2|].
    eapply suffix_trans; [apply skip_ws_suffix|]. exact Hr3.
Qed.

(** Fuel beyond twice the length of the text is never used up. *)
Lemma scan_fuel (fuel : nat) :
  (forall depth s, (2 * List.length s < fuel)%nat -> scan_once fuel depth s <> OutOfFuel)
  /\ (forall depth s, (2 * List.length s + 1 < fuel)%nat ->
        parse_array fuel depth s <> OutOfFuel)
  /\ (forall depth s, (2 * List.length s + 1 < fuel)%nat ->
        parse_object fuel depth s <> OutOfFuel).
Proof.
  induction fuel as [|n [IHv [IHa IHo]]]; [repeat split; intros; lia|].
  split; [|split].
  - intros depth s Hlen. simpl.
    destruct s as [|c s']; [discriminate|]. simpl in Hlen.
    pose proof (suffix_length _ _ (skip_ws_suffix s')) as Hws.
    destruct (c =? ch_lbrace).
    { destruct depth as [|d]; [discriminate|].
      destruct (skip_ws s') as [|c1 s2] eqn:E; [discriminate|].
      destruct (c1 =? ch_rbrace); [discriminate|]. simpl in Hws.
      specialize (IHo d (c1 :: s2)).
      destruct (parse_object n d (c1 :: s2)); try discriminate.
      exfalso. apply IHo; [len_lia|reflexivity]. }
    destruct (c =? ch_lbracket).
    { destruct depth as [|d]; [discriminate|].
      destruct (skip_ws s') as [|c1 s2] eqn:E; [discriminate|].
      destruct (c1 =? ch_rbracket); [discriminate|].
      specialize (IHa d (c1 :: s2)).
      destruct (parse_array n d (c1 :: s2)); try discriminate.
      exfalso. apply IHa; [len_lia|reflexivity]. }
    destruct (scan_atom (c :: s')) as [[v' ?]|]; [|discriminate].
    destruct (conversion_error (c :: s') v'); discriminate.
  - intros depth s Hlen. simpl.
    destruct (scan_once n depth s) as [v r0| | |] eqn:E; [|discriminate|discriminate|].
    + apply (proj1 (scan_suffix n)) in E. apply strict_suffix_length in E.
      pose proof (suffix_length _ _ (skip_ws_suffix r0)) as Hws.
      destruct (skip_ws r0) as [|c r1]; [discriminate|]. simpl in Hws.
      destruct (c =? ch_rbracket); [discriminate|].
      destruct (c =? ch_comma); [|discriminate].
      pose proof (suffix_length _ _ (skip_ws_suffix r1)) as Hws1.
      specialize (IHa depth (skip_ws r1)).
      destruct (parse_array n depth (skip_ws r1)); try discriminate.
      exfalso. apply IHa; [len_lia|reflexivity].
    + exfalso. apply (IHv depth s); [len_lia|exact E].
  - intros depth s Hlen. simpl.
    destruct s as [|c s1]; [discriminate|]. simpl in Hlen.
    destruct (c =? ch_quote); [|discriminate].
    destruct (scanstring s1) as [[key r0]|] eqn:Hkey; [|discriminate].
    apply scanstring_suffix, strict_suffix_length in Hkey.
    pose proof (suffix_length _ _ (skip_ws_suffix r0)) as Hws.
    destruct (skip_ws r0) as [|c2 r1]; [discriminate|]. simpl in Hws.
    destruct (c2 =? ch_colon); [|discriminate].
    pose proof (suffix_length _ _ (skip_ws_suffix r1)) as Hws1.
    destruct (scan_once n depth (skip_ws r1)) as [v r2| | |] eqn:E;
      [|discriminate|discriminate|].
    + apply (proj1 (scan_suffix n)) in E. apply strict_suffix_length in E.
      pose proof (suffix_length _ _ (skip_ws_suffix r2)) as Hws2.
      destruct (skip_ws r2) as [|c3 r3]; [discriminate|]. simpl in Hws2.
      destruct (c3 =? ch_rbrace); [discriminate|].
      destruct (c3 =? ch_comma); [|discriminate].
      pose proof (suffix_length _ _ (skip_ws_suffix r3)) as Hws3.
      specialize (IHo depth (skip_ws r3)).
      destruct (parse_object n depth (skip_ws r3)); try discriminate.
      exfalso. apply IHo; [len_lia|reflexivity].
    + exfalso. apply (IHv depth (skip_ws r1)); [len_lia|exact E].
Qed.

(** The equations of the scanner, one unfolding of the fuel. *)
Lemma scan_once_S (n depth : nat) (s : pystr) :
  scan_once (S n) depth s =
  match s with
  | [] => DecodeError
  | c :: s' =>
      if c =? ch_lbrace then
        match depth with
        | O => Raised object_recursion_error
        | S d =>
            match skip_ws s' with
            | c1 :: s2 =>
                if c1 =? ch_rbrace then Scanned (PDict []) s2
                else
                  match parse_object n d (skip_ws s') with
                  | Scanned pairs r => Scanned (PDict (dict_of_pairs pairs)) r
                  | DecodeError => DecodeError
                  | Raised e => Raised e
                  | OutOfFuel => OutOfFuel
                  end
            | [] => DecodeError
            end
        end
      else if c =? ch_lbracket then
        match depth with
        | O => Raised array_recursion_error
        | S d =>
            match skip_ws s' with
            | c1 :: s2 =>
                if c1 =? ch_rbracket then Scanned (PList []) s2
                else
                  match parse_array n d (skip_ws s') with
                  | Scanned xs r => Scanned (PList xs) r
                  | DecodeError => DecodeError
                  | Raised e => Raised e
                  | OutOfFuel => OutOfFuel
                  end
            | [] => DecodeError
            end
        end
      else
        match scan_atom s with
        | Some (v, r) =>
            match conversion_error s v with
            | Some e => Raised e
            | None => Scanned v r
            end
        | None => DecodeError
        end
  end.
Proof. reflexivity. Qed.

Lemma parse_array_S (n depth : nat) (s : pystr) :
  parse_array (S n) depth s =
  match scan_once n depth s with
  | Scanned v r =>
      match skip_ws r with
      | c :: r1 =>
          if c =? ch_rbracket then Scanned [v] r1
          else if c =? ch_comma then
            match parse_array n depth (skip_ws r1) with
            | Scanned vs r2 => Scanned (v :: vs) r2
            | DecodeError => DecodeError
            | Raised e => Raised e
            | OutOfFuel => OutOfFuel
            end
          else DecodeError
      | [] => DecodeError
      end
  | DecodeError => DecodeError
  | Raised e => Raised e
  | OutOfFuel => OutOfFuel
  end.
Proof. reflexivity. Qed.

Lemma parse_object_S (n depth : nat) (s : pystr) :
  parse_object (S n) depth s =
  match s with
  | c :: s1 =>
      if c =? ch_quote then
        match scanstring s1 with
        | Some (key, r) =>
            match skip_ws r with
            | c2 :: r1 =>
                if c2 =? ch_colon then
                  match scan_once n depth (skip_ws r1) with
                  | Scanned v r2 =>
                      match skip_ws r2 with
                      | c3 :: r3 =>
                          if c3 =? ch_rbrace then Scanned [(key, v)] r3
                          else if c3 =? ch_comma then
                            match parse_object n depth (skip_ws r3) with
                            | Scanned kvs r4 => Scanned ((key, v) :: kvs) r4
                            | DecodeError => DecodeError
                            | Raised e => Raised e
                            | OutOfFuel => OutOfFuel
                            end
                          else DecodeError
                      | [] => DecodeError
                      end
                  | DecodeError => DecodeError
                  | Raised e => Raised e
                  | OutOfFuel => OutOfFuel
                  end
                else DecodeError
            | [] => DecodeError
            end
        | None => DecodeError
        end
      else DecodeError
  | [] => DecodeError
  end.
Proof. reflexivity. Qed.

(** A result other than [OutOfFuel] stays the same with more fuel. *)
Lemma scan_more_fuel (fuel : nat) :
  (forall depth s, scan_once fuel depth s <> OutOfFuel ->
     scan_once (S fuel) depth s = scan_once fuel depth s)
  /\ (forall depth s, parse_array fuel depth s <> OutOfFuel ->
        parse_array (S fuel) depth s = parse_array fuel depth s)
  /\ (forall depth s, parse_object fuel depth s <> OutOfFuel ->
        parse_object (S fuel) depth s = parse_object fuel depth s).
Proof.
  induction fuel as [|n [IHv [IHa IHo]]];
    [repeat split; intros depth s Hx; simpl in Hx; congruence|].
  split; [|split].
  - intros depth s Hx. rewrite (scan_once_S n) in Hx |- *. rewrite (scan_once_S (S n)).
    destruct s as [|c s']; [reflexivity|].
    destruct (c =? ch_lbrace).
    { destruct depth as [|d]; [reflexivity|].
      destruct (skip_ws s') as [|c1 s2] eqn:E; [reflexivity|].
      destruct (c1 =? ch_rbrace); [reflexivity|].
      rewrite IHo; [reflexivity|].
      destruct (parse_object n d (c1 :: s2)); congruence. }
    destruct (c =? ch_lbracket).
    { destruct depth as [|d]; [reflexivity|].
      destruct (skip_ws s') as [|c1 s2] eqn:E; [reflexivity|].
      destruct (c1 =? ch_rbracket); [reflexivity|].
      rewrite IHa; [reflexivity|].
      destruct (parse_array n d (c1 :: s2)); congruence. }
    reflexivity.
  - intros depth s Hx. rewrite (parse_array_S n) in Hx |- *. rewrite (parse_array_S (S n)).
    rewrite IHv by (destruct (scan_once n depth s); congruence).
    destruct (scan_once n depth s) as [v r0| | |]; try reflexivity.
    destruct (skip_ws r0) as [|c r1]; [reflexivity|].
    destruct (c =? ch_rbracket); [reflexivity|].
    destruct (c =? ch_comma); [|reflexivity].
    rewrite IHa; [reflexivity|].
    destruct (parse_array n depth (skip_ws r1)); congruence.
  - intros depth s Hx. rewrite (parse_object_S n) in Hx |- *. rewrite (parse_object_S (S n)).
    destruct s as [|c s1]; [reflexivity|].
    destruct (c =? ch_quote); [|reflexivity].
    destruct (scanstring s1) as [[key r0]|]; [|reflexivity].
    destruct (skip_ws r0) as [|c2 r1]; [reflexivity|].
    destruct (c2 =? ch_colon); [|reflexivity].
    rewrite IHv by (destruct (scan_once n depth (skip_ws r1)); congruence).
    destruct (scan_once n depth (skip_ws r1)) as [v r2| | |]; try reflexivity.
    destruct (skip_ws r2) as [|c3 r3]; [reflexivity|].
    destruct (c3 =? ch_rbrace); [reflexivity|].
    destruct (c3 =? ch_comma); [|reflexivity].
    rewrite IHo; [reflexivity|].
    destruct (parse_object n depth (skip_ws r3)); congruence.
Qed.

Lemma scan_once_fuel_le (m n depth : nat) (s : pystr) :
  (m <= n)%nat -> scan_once m depth s <> OutOfFuel ->
  scan_once n depth s = scan_once m depth s.
Proof.
  intros Hle Hx. induction Hle as [|n Hle IH]; [reflexivity|].
  rewrite <- IH. apply (proj1 (scan_more_fuel n)). rewrite IH. exact Hx.
Qed.

Lemma parse_array_fuel_le (m n depth : nat) (s : pystr) :
  (m <= n)%nat -> parse_array m depth s <> OutOfFuel ->
  parse_array n depth s = parse_array m depth s.
Proof.
  intros Hle Hx. induction Hle as [|n Hle IH]; [reflexivity|].
  rewrite <- IH. apply (proj1 (proj2 (scan_more_fuel n))). rewrite IH. exact Hx.
Qed.

Lemma parse_object_fuel_le (m n depth : nat) (s : pystr) :
  (m <= n)%nat -> parse_object m depth s <> OutOfFuel ->
  parse_object n depth s = parse_object m depth s.
Proof.
  intros Hle Hx. induction Hle as [|n Hle IH]; [reflexivity|].
  rewrite <- IH. apply (proj2 (proj2 (scan_more_fuel n))). rewrite IH. exact Hx.
Qed.

(** [json_loads] gives its scanner enough fuel. *)
Lemma decode_fuel (depth : nat) (s : pystr) :
  decode (2 * List.length s + 1) depth s <> OutOfFuel.
Proof.
  unfold decode.
  pose proof (suffix_length _ _ (skip_ws_suffix s)) as Hws.
  destruct (scan_once (2 * List.length s + 1) depth (skip_ws s)) as [v r| | |] eqn:E.
  - destruct (skip_ws r); discriminate.
  - discriminate.
  - discriminate.
  - exfalso. revert E. apply (proj1 (scan_fuel _)). lia.
Qed.

(** Any amount of fuel that suffices gives the result of [json_loads]. *)
Lemma json_loads_scanned (fuel : nat) (s : pystr) (v : pyval) :
  scan_once fuel decoder_depth (skip_ws s) = Scanned v [] -> json_loads s = Ok v.
Proof.
  intros H. unfold json_loads, decode.
  assert (Hn : scan_once (2 * List.length s + 1) decoder_depth (skip_ws s) <> OutOfFuel).
  { apply (proj1 (scan_fuel _)).
    pose proof (suffix_length _ _ (skip_ws_suffix s)). lia. }
  assert (E : scan_once (2 * List.length s + 1) decoder_depth (skip_ws s) = Scanned v []).
  { destruct (Nat.le_ge_cases fuel (2 * List.length s + 1)) as [Hle|Hle].
    - rewrite (scan_once_fuel_le _ _ _ _ Hle); [exact H|]. rewrite H. discriminate.
    - rewrite <- (scan_once_fuel_le _ _ _ _ Hle Hn). exact H. }
  rewrite E. reflexivity.
Qed.

(** *** Escapes *)

Lemma hexval_hex_digit (d : N) : d < 16 -> hexval (hex_digit d) = Some d.
Proof.
  intros H. unfold hexval, hex_digit, is_digit.
  bdestruct; cbn [andb orb negb]; try (exfalso; lia); f_equal; lia.
Qed.

Lemma hex4_u_escape (c : N) (t : pystr) :
  c < 65536 ->
  exists ha hb hc hd,
    u_escape c ++ t = ch_backslash :: 117 :: ha :: hb :: hc :: hd :: t
    /\ hex4 ha hb hc hd = Some c.
Proof.
  intros H. unfold u_escape. do 4 eexists. split; [reflexivity|].
  unfold hex4.
  rewrite !hexval_hex_digit by (apply N.mod_lt; discriminate).
  f_equal. lia.
Qed.

Lemma lor_shiftl_add (a b n : N) : b < 2 ^ n -> N.lor (N.shiftl a n) b = a * 2 ^ n + b.
Proof.
  intros H. rewrite <- N.shiftl_mul_pow2.
  assert (Hland : N.land (N.shiftl a n) b = 0).
  { apply N.bits_inj. intros i. rewrite N.land_spec, N.bits_0.
    destruct (N.lt_ge_cases i n) as [Hi|Hi].
    - rewrite N.shiftl_spec_low by exact Hi. reflexivity.
    - rewrite <- (N.mod_small b (2 ^ n)) by exact H.
      rewrite N.mod_pow2_bits_high by exact Hi. apply andb_false_r. }
  rewrite N.add_nocarry_lxor, N.lxor_lor by exact Hland. reflexivity.
Qed.

Lemma surrogates_of (c : N) :
  65536 <= c -> c <= 1114111 ->
  let n := c - 65536 in
  let s1 := N.lor 55296 (N.land (N.shiftr n 10) 1023) in
  let s2 := N.lor 56320 (N.land n 1023) in
  s1 = 55296 + n / 1024 /\ s2 = 56320 + n mod 1024
  /\ join_surrogates s1 s2 = c.
Proof.
  intros Hlo Hhi n s1 s2.
  assert (Hn : n < 1048576) by (unfold n; lia).
  assert (E1 : s1 = 55296 + n / 1024).
  { unfold s1. rewrite N.shiftr_div_pow2.
    change 1023 with (N.ones 10). rewrite N.land_ones.
    change 55296 with (N.shiftl 54 10) at 1.
    rewrite lor_shiftl_add by (apply N.mod_lt; discriminate).
    change (2 ^ 10) with 1024. lia. }
  assert (E2 : s2 = 56320 + n mod 1024).
  { unfold s2. change 1023 with (N.ones 10). rewrite N.land_ones.
    change 56320 with (N.shiftl 55 10) at 1.
    rewrite lor_shiftl_add by (apply N.mod_lt; discriminate).
    change (2 ^ 10) with 1024. lia. }
  split; [exact E1|]. split; [exact E2|].
  unfold join_surrogates. rewrite E1, E2.
  replace (55296 + n / 1024 - 55296) with (n / 1024) by lia.
  replace (56320 + n mod 1024 - 56320) with (n mod 1024) by lia.
  rewrite lor_shiftl_add by (apply N.mod_lt; discriminate).
  change (2 ^ 10) with 1024. unfold n. lia.
Qed.

Lemma escape_char_cases (c : N) :
  c <= 1114111 ->
  (exists e, escape_char c = [ch_backslash; e] /\ (e =? 117) = false
             /\ simple_escape e = Some c)
  \/ (escape_char c = [c] /\ (c =? ch_quote) = false /\ (c =? ch_backslash) = false
      /\ (c <? 32) = false)
  \/ (escape_char c = u_escape c /\ c < 65536)
  \/ (exists hi lo, escape_char c = u_escape hi ++ u_escape lo
                    /\ hi < 65536 /\ lo < 65536
                    /\ is_high_surrogate hi = true /\ is_low_surrogate lo = true
                    /\ join_surrogates hi lo = c).
Proof.
  intros Hmax. unfold escape_char.
  destruct (N.eqb_spec c ch_quote) as [->|H1]; [left; eexists; repeat split|].
  destruct (N.eqb_spec c ch_backslash) as [->|H2]; [left; eexists; repeat split|].
  destruct (N.eqb_spec c 10) as [->|H3]; [left; eexists; repeat split|].
  destruct (N.eqb_spec c 13) as [->|H4]; [left; eexists; repeat split|].
  destruct (N.eqb_spec c 9) as [->|H5]; [left; eexists; repeat split|].
  destruct (N.eqb_spec c 12) as [->|H6]; [left; eexists; repeat split|].
  destruct (N.eqb_spec c 8) as [->|H7]; [left; eexists; repeat split|].
  destruct ((32 <=? c) && (c <=? 126)) eqn:Hp.
  { right; left. apply andb_true_iff in Hp. destruct Hp as [Hp1 Hp2].
    apply N.leb_le in Hp1. repeat split; bdestruct; try reflexivity; lia. }
  destruct (N.ltb_spec c 65536) as [H8|H8]; [right; right; left; auto|].
  right; right; right.
  destruct (surrogates_of c H8 Hmax) as [E1 [E2 E3]].
  eexists _, _. split; [reflexivity|].
  rewrite E3. rewrite E1, E2.
  assert (c - 65536 < 1048576) by lia.
  unfold is_high_surrogate, is_low_surrogate.
  repeat split; try lia; apply andb_true_iff; split; apply N.leb_le; lia.
Qed.

(** *** Reading back an encoded string *)

Lemma scanstring_quote (t : pystr) : scanstring (ch_quote :: t) = Some ([], t).
Proof. reflexivity. Qed.

Lemma scanstring_plain (c : N) (t : pystr) :
  (c =? ch_quote) = false -> (c =? ch_backslash) = false -> (c <? 32) = false ->
  scanstring (c :: t) = cons_char c (scanstring t).
Proof. intros H1 H2 H3. simpl. rewrite H1, H2, H3. reflexivity. Qed.

Lemma scanstring_simple (e c : N) (t : pystr) :
  (e =? 117) = false -> simple_escape e = Some c ->
  scanstring (ch_backslash :: e :: t) = cons_char c (scanstring t).
Proof.
  intros H1 H2.
  change (scanstring (ch_backslash :: e :: t))
    with (if e =? 117 then
            match t with
            | ha :: hb :: hc :: hd :: s3 =>
                match hex4 ha hb hc hd with
                | None => None
                | Some uni =>
                    match s3 with
                    | bs :: u :: xa :: xb :: xc :: xd :: s4 =>
                        if is_high_surrogate uni && (bs =? ch_backslash) && (u =? 117)
                        then
                          match hex4 xa xb xc xd with
                          | None => None
                          | Some uni2 =>
                              if is_low_surrogate uni2
                              then cons_char (join_surrogates uni uni2) (scanstring s4)
                              else cons_char uni (scanstring s3)
                          end
                        else cons_char uni (scanstring s3)
                    | _ => cons_char uni (scanstring s3)
                    end
                end
            | _ => None
            end
          else match simple_escape e with
               | Some c' => cons_char c' (scanstring t)
               | None => None
               end).
  rewrite H1, H2. reflexivity.
Qed.

Lemma scanstring_unicode (ha hb hc hd : N) (t : pystr) :
  scanstring (ch_backslash :: 117 :: ha :: hb :: hc :: hd :: t)
  = match hex4 ha hb hc hd with
    | None => None
    | Some uni =>
        match t with
        | bs :: u :: xa :: xb :: xc :: xd :: s4 =>
            if is_high_surrogate uni && (bs =? ch_backslash) && (u =? 117)
            then
              match hex4 xa xb xc xd with
              | None => None
              | Some uni2 =>
                  if is_low_surrogate uni2
                  then cons_char (join_surrogates uni uni2) (scanstring s4)
                  else cons_char uni (scanstring t)
              end
            else cons_char uni (scanstring t)
        | _ => cons_char uni (scanstring t)
        end
    end.
Proof. reflexivity. Qed.

(** A [\u] escape that is not the first half of a pair reads as itself. *)
Lemma scanstring_u_escape (uni : N) (t : pystr) :
  uni < 65536 ->
  is_high_surrogate uni && pair_ahead t = false ->
  scanstring (u_escape uni ++ t) = cons_char uni (scanstring t).
Proof.
  intros Hlt Hpair.
  destruct (hex4_u_escape uni t Hlt) as [ha [hb [hc [hd [-> Hhex]]]]].
  rewrite scanstring_unicode, Hhex.
  destruct t as [|bs [|u [|xa [|xb [|xc [|xd s4]]]]]]; try reflexivity.
  unfold pair_ahead in Hpair.
  destruct (is_high_surrogate uni); [|reflexivity].
  destruct (bs =? ch_backslash); [|reflexivity].
  destruct (u =? 117); [|reflexivity].
  cbn [andb] in Hpair |- *.
  destruct (hex4 xa xb xc xd); [|discriminate].
  rewrite Hpair. reflexivity.
Qed.

(** The two escapes of a character beyond the basic plane read as it. *)
Lemma scanstring_pair (hi lo : N) (t : pystr) :
  hi < 65536 -> lo < 65536 ->
  is_high_surrogate hi = true -> is_low_surrogate lo = true ->
  scanstring (u_escape hi ++ u_escape lo ++ t)
  = cons_char (join_surrogates hi lo) (scanstring t).
Proof.
  intros Hhi Hlo Hh Hl.
  destruct (hex4_u_escape hi (u_escape lo ++ t) Hhi) as [ha [hb [hc [hd [-> Hhex]]]]].
  destruct (hex4_u_escape lo t Hlo) as [xa [xb [xc [xd [-> Hhex2]]]]].
  rewrite scanstring_unicode, Hhex, Hh.
  change (ch_backslash =? ch_backslash) with true. change (117 =? 117) with true.
  cbn [andb]. rewrite Hhex2, Hl. reflexivity.
Qed.

Lemma pair_ahead_quote (t : pystr) : pair_ahead (ch_quote :: t) = false.
Proof. destruct t as [|u [|xa [|xb [|xc [|xd s4]]]]]; reflexivity. Qed.

Lemma pair_ahead_escape (c : N) (t : pystr) :
  c <= 1114111 -> is_low_surrogate c = false ->
  pair_ahead (escape_char c ++ t) = false.
Proof.
  intros Hmax Hlow.
  destruct (escape_char_cases c Hmax)
    as [[e [-> [He _]]] | [[-> [_ [Hb _]]] | [[-> Hlt] | [hi [lo [-> [Hhi [_ [Hh _]]]]]]]]].
  - destruct t as [|xa [|xb [|xc [|xd s4]]]]; try reflexivity.
    simpl. rewrite He. reflexivity.
  - destruct t as [|u [|xa [|xb [|xc [|xd s4]]]]]; try reflexivity.
    simpl. rewrite Hb. reflexivity.
  - destruct (hex4_u_escape c t Hlt) as [ha [hb [hc [hd [-> Hhex]]]]].
    unfold pair_ahead. rewrite Hhex, Hlow. reflexivity.
  - rewrite <- app_assoc.
    destruct (hex4_u_escape hi (u_escape lo ++ t) Hhi) as [ha [hb [hc [hd [-> Hhex]]]]].
    unfold pair_ahead. rewrite Hhex.
    unfold is_high_surrogate, is_low_surrogate in *.
    apply andb_true_iff in Hh. destruct Hh as [H1 H2].
    apply N.leb_le in H1, H2.
    bdestruct; try reflexivity; exfalso; lia.
Qed.

Lemma valid_str_cons (c : N) (s : pystr) :
  valid_str (c :: s) = true ->
  c <= 1114111 /\ valid_str s = true
  /\ match s with
     | b :: _ => is_high_surrogate c && is_low_surrogate b = false
     | [] => True
     end.
Proof.
  unfold valid_str. cbn [forallb no_surrogate_pair].
  rewrite !andb_true_iff. intros [[H1 H2] [H3 H4]].
  apply N.leb_le in H1. repeat split; auto.
  destruct s; [exact I|]. apply negb_true_iff in H3. exact H3.
Qed.

Lemma pair_ahead_valid (c : N) (s rest : pystr) :
  valid_str (c :: s) = true ->
  is_high_surrogate c && pair_ahead (flat_map escape_char s ++ ch_quote :: rest) = false.
Proof.
  intros Hv. apply valid_str_cons in Hv. destruct Hv as [_ [Hs Hpair]].
  destruct (is_high_surrogate c); [|reflexivity]. cbn [andb] in *.
  destruct s as [|b s']; [apply pair_ahead_quote|].
  apply valid_str_cons in Hs. destruct Hs as [Hb _].
  cbn [flat_map]. rewrite <- app_assoc. apply pair_ahead_escape; assumption.
Qed.

Lemma scanstring_encoded (s rest : pystr) :
  valid_str s = true ->
  scanstring (flat_map escape_char s ++ ch_quote :: rest) = Some (s, rest).
Proof.
  induction s as [|c s IH]; intros Hv; [apply scanstring_quote|].
  pose proof (pair_ahead_valid c s rest Hv) as Hahead.
  apply valid_str_cons in Hv. destruct Hv as [Hmax [Hs _]].
  specialize (IH Hs). cbn [flat_map]. rewrite <- app_assoc.
  destruct (escape_char_cases c Hmax)
    as [[e [-> [He Hsimple]]] | [[-> [Hq [Hb H32]]] | [[-> Hlt]
        | [hi [lo [-> [Hhi [Hlo [Hh [Hl Hjoin]]]]]]]]]].
  - cbn [app]. rewrite (scanstring_simple e c _ He Hsimple), IH. reflexivity.
  - cbn [app]. rewrite (scanstring_plain c _ Hq Hb H32), IH. reflexivity.
  - rewrite (scanstring_u_escape c _ Hlt Hahead), IH. reflexivity.
  - rewrite <- app_assoc, (scanstring_pair hi lo _ Hhi Hlo Hh Hl), IH, Hjoin. reflexivity.
Qed.

Lemma scan_encoded_string (s rest : pystr) :
  valid_str s = true ->
  scanstring (tl (encode_basestring_ascii s) ++ rest) = Some (s, rest).
Proof.
  intros Hv. unfold encode_basestring_ascii. cbn [tl].
  rewrite <- app_assoc. apply scanstring_encoded. exact Hv.
Qed.

(** *** Numbers *)

Lemma delimited_nondigit (rest : pystr) : delimited rest = true -> nondigit_head rest = true.
Proof.
  destruct rest as [|c rest]; [reflexivity|]. simpl. unfold is_digit, ch_comma, ch_newline.
  bdestruct; cbn [andb orb negb]; try reflexivity; try discriminate; intros; exfalso; lia.
Qed.

Lemma take_digits_nondigit (t : pystr) : nondigit_head t = true -> take_digits t = ([], t).
Proof.
  destruct t as [|c t]; [reflexivity|]. simpl. intros H.
  apply negb_true_iff in H. rewrite H. reflexivity.
Qed.

Lemma take_digits_cons (c : N) (s : pystr) :
  take_digits (c :: s)
  = if is_digit c then let (ds, r) := take_digits s in (c :: ds, r) else ([], c :: s).
Proof. reflexivity. Qed.

Lemma take_digits_uint_chars (d : uint) (t : pystr) :
  nondigit_head t = true -> take_digits (uint_chars d ++ t) = (uint_chars d, t).
Proof.
  intros Ht. induction d; cbn [uint_chars app];
    [apply take_digits_nondigit; exact Ht | ..];
    rewrite take_digits_cons, IHd; reflexivity.
Qed.

Lemma uint_of_chars_uint_chars (d : uint) : uint_of_chars (uint_chars d) = d.
Proof. induction d; cbn [uint_chars uint_of_chars]; [reflexivity|..]; rewrite IHd; reflexivity. Qed.

Lemma match_number_canonical (neg : bool) (d : uint) (t : pystr) :
  canonical d = true -> nondigit_head t = true ->
  match_number ((if neg then [ch_minus] else []) ++ uint_chars d ++ t)
  = let (frac, s4) := number_frac t in
    let (ex, s5) := number_exp s4 in
    match frac, ex with
    | [], [] => Some (PInt (int_of_text neg (uint_chars d)), s5)
    | _, _ =>
        Some (PFloat (parse_float ((if neg then [ch_minus] else [])
                                   ++ uint_chars d ++ frac ++ ex)), s5)
    end.
Proof.
  intros Hc Ht. unfold match_number.
  assert (Hsign : number_sign ((if neg then [ch_minus] else []) ++ uint_chars d ++ t)
                  = (neg, uint_chars d ++ t)).
  { destruct neg; [reflexivity|]. destruct d; try discriminate Hc; reflexivity. }
  rewrite Hsign.
  destruct d as [|d'|d'|d'|d'|d'|d'|d'|d'|d'|d']; try discriminate Hc;
    cbn [uint_chars app];
    try (change (is_digit _) with true; cbv iota;
         change (_ =? ch_zero) with false; cbv iota;
         rewrite (take_digits_uint_chars d' t Ht); reflexivity).
  destruct d'; try discriminate Hc. reflexivity.
Qed.

Lemma number_frac_delimited (rest : pystr) :
  delimited rest = true -> number_frac rest = ([], rest).
Proof.
  destruct rest as [|c [|d rest]]; try reflexivity.
  unfold delimited, number_frac, ch_comma, ch_newline, ch_dot. intros H.
  replace (c =? 46) with false; [reflexivity|].
  revert H. bdestruct; cbn [orb]; try discriminate; try reflexivity; intros; exfalso; lia.
Qed.

Lemma number_exp_delimited (rest : pystr) :
  delimited rest = true -> number_exp rest = ([], rest).
Proof.
  destruct rest as [|c rest]; try reflexivity.
  unfold delimited, number_exp, ch_comma, ch_newline. intros H.
  replace ((c =? 101) || (c =? 69)) with false; [reflexivity|].
  revert H. bdestruct; cbn [orb]; try discriminate; try reflexivity; intros; exfalso; lia.
Qed.

(** [Pos.to_uint] writes no leading zero. *)
Lemma canonical_to_uint (p : positive) : canonical (Pos.to_uint p) = true.
Proof.
  pose proof (DecimalPos.Unsigned.to_of (Pos.to_uint p)) as H.
  rewrite DecimalPos.Unsigned.of_to in H. simpl in H.
  pose proof (DecimalPos.Unsigned.to_uint_nonnil p) as Hnil.
  pose proof (DecimalPos.Unsigned.to_uint_nonzero p) as Hz.
  destruct (Pos.to_uint p) as [|d|d|d|d|d|d|d|d|d|d] eqn:E; try reflexivity;
    [congruence|].
  exfalso. rewrite unorm_D0 in H.
  assert (Hd : d <> Nil) by (intros ->; apply Hz; reflexivity).
  pose proof (nb_digits_unorm d Hd) as Hlen.
  rewrite <- H in Hlen. simpl in Hlen. lia.
Qed.

Lemma int_of_text_int_repr (z : Z) :
  match Z.to_int z with
  | Pos d => canonical d = true /\ int_of_text false (uint_chars d) = z
  | Neg d => canonical d = true /\ int_of_text true (uint_chars d) = z
  end.
Proof.
  unfold int_of_text. destruct z as [|p|p]; simpl.
  - split; reflexivity.
  - split; [apply canonical_to_uint|].
    rewrite uint_of_chars_uint_chars. unfold Z.of_uint.
    rewrite DecimalPos.Unsigned.of_to. reflexivity.
  - split; [apply canonical_to_uint|].
    rewrite uint_of_chars_uint_chars. unfold Z.of_uint.
    rewrite DecimalPos.Unsigned.of_to. reflexivity.
Qed.

Lemma match_number_int_repr (z : Z) (rest : pystr) :
  delimited rest = true ->
  match_number (int_repr z ++ rest) = Some (PInt z, rest).
Proof.
  intros Hd. pose proof (int_of_text_int_repr z) as H. unfold int_repr.
  destruct (Z.to_int z) as [d|d]; destruct H as [Hc Hz].
  - pose proof (match_number_canonical false d rest Hc (delimited_nondigit rest Hd)) as Hm.
    cbn [List.app] in Hm. rewrite Hm.
    rewrite (number_frac_delimited rest Hd), (number_exp_delimited rest Hd), Hz.
    reflexivity.
  - pose proof (match_number_canonical true d rest Hc (delimited_nondigit rest Hd)) as Hm.
    cbn [List.app] in Hm. cbn [List.app]. rewrite Hm.
    rewrite (number_frac_delimited rest Hd), (number_exp_delimited rest Hd), Hz.
    reflexivity.
Qed.

(** *** A number followed by a delimiter *)

Lemma take_digits_delimited (s ds r rest : pystr) :
  take_digits s = (ds, r) -> nondigit_head rest = true ->
  take_digits (s ++ rest) = (ds, r ++ rest).
Proof.
  intros H Hrest. revert ds r H. induction s as [|c s IH]; intros ds r H.
  - injection H as <- <-. apply take_digits_nondigit. exact Hrest.
  - cbn [List.app]. rewrite take_digits_cons in H |- *.
    destruct (is_digit c); [|injection H as <- <-; reflexivity].
    destruct (take_digits s) as [ds' r'] eqn:E. injection H as <- <-.
    rewrite (IH ds' r' eq_refl). reflexivity.
Qed.

Lemma delimited_cons (c : N) (rest : pystr) :
  delimited (c :: rest) = true ->
  is_digit c = false /\ (c =? ch_dot) = false /\ ((c =? 101) || (c =? 69)) = false
  /\ ((c =? ch_plus) || (c =? ch_minus)) = false.
Proof.
  unfold delimited, is_digit, ch_comma, ch_newline, ch_dot, ch_plus, ch_minus.
  bdestruct; cbn [andb orb]; intros Hdel; try discriminate Hdel; repeat split;
    try reflexivity; exfalso; lia.
Qed.

Lemma number_frac_app (s fr r rest : pystr) :
  number_frac s = (fr, r) -> delimited rest = true ->
  number_frac (s ++ rest) = (fr, r ++ rest).
Proof.
  intros H Hrest. pose proof (delimited_nondigit rest Hrest) as Hnd.
  destruct s as [|dot [|d s]].
  - injection H as <- <-. apply number_frac_delimited. exact Hrest.
  - injection H as <- <-. cbn [List.app]. destruct rest as [|c rest]; [reflexivity|].
    destruct (delimited_cons c rest Hrest) as [Hc _].
    unfold number_frac. rewrite Hc, andb_false_r. reflexivity.
  - cbn [List.app]. unfold number_frac in H |- *.
    destruct ((dot =? ch_dot) && is_digit d); [|injection H as <- <-; reflexivity].
    destruct (take_digits s) as [fs r'] eqn:E. injection H as <- <-.
    rewrite (take_digits_delimited s fs r' rest E Hnd). reflexivity.
Qed.

Lemma number_exp_app (s ex r rest : pystr) :
  number_exp s = (ex, r) -> delimited rest = true ->
  number_exp (s ++ rest) = (ex, r ++ rest).
Proof.
  intros H Hrest. pose proof (delimited_nondigit rest Hrest) as Hnd.
  destruct s as [|e s].
  - injection H as <- <-. apply number_exp_delimited. exact Hrest.
  - cbn [List.app]. unfold number_exp in H |- *.
    destruct ((e =? 101) || (e =? 69)); [|injection H as <- <-; reflexivity].
    destruct s as [|g t].
    + injection H as <- <-. cbn [List.app].
      destruct rest as [|c rest]; [reflexivity|].
      destruct (delimited_cons c rest Hrest) as [_ [_ [_ Hc]]].
      rewrite Hc, (take_digits_nondigit (c :: rest) Hnd). reflexivity.
    + cbn [List.app].
      destruct ((g =? ch_plus) || (g =? ch_minus)).
      * destruct (take_digits t) as [es r'] eqn:E.
        rewrite (take_digits_delimited t es r' rest E Hnd).
        destruct es; injection H as <- <-; reflexivity.
      * destruct (take_digits (g :: t)) as [es r'] eqn:E.
        change (g :: t ++ rest) with ((g :: t) ++ rest).
        rewrite (take_digits_delimited (g :: t) es r' rest E Hnd).
        destruct es; injection H as <- <-; reflexivity.
Qed.

Lemma match_number_app (s : pystr) (v : pyval) (r rest : pystr) :
  match_number s = Some (v, r) -> delimited rest = true ->
  match_number (s ++ rest) = Some (v, r ++ rest).
Proof.
  intros H Hrest. pose proof (delimited_nondigit rest Hrest) as Hnd.
  unfold match_number in H |- *.
  destruct (number_sign s) as [neg s1] eqn:Hsign.
  destruct s1 as [|c s2]; [discriminate|].
  assert (Hsign' : number_sign (s ++ rest) = (neg, (c :: s2) ++ rest)).
  { unfold number_sign in Hsign |- *. destruct s as [|c0 s]; [discriminate|].
    destruct (c0 =? ch_minus) eqn:E0; inversion Hsign; subst;
      cbn [List.app]; rewrite E0; reflexivity. }
  rewrite Hsign'. cbn [List.app].
  destruct (is_digit c); [|discriminate].
  destruct (if c =? ch_zero then ([c], s2)
            else let (ds, r0) := take_digits s2 in (c :: ds, r0)) as [ip s3] eqn:Hip.
  assert (Hip' : (if c =? ch_zero then ([c], s2 ++ rest)
                  else let (ds, r0) := take_digits (s2 ++ rest) in (c :: ds, r0))
                 = (ip, s3 ++ rest)).
  { destruct (c =? ch_zero); [injection Hip as <- <-; reflexivity|].
    destruct (take_digits s2) as [ds r0] eqn:E.
    rewrite (take_digits_delimited s2 ds r0 rest E Hnd).
    injection Hip as <- <-. reflexivity. }
  rewrite Hip'.
  destruct (number_frac s3) as [fr s4] eqn:Hfr.
  rewrite (number_frac_app s3 fr s4 rest Hfr Hrest).
  destruct (number_exp s4) as [ex s5] eqn:Hex.
  rewrite (number_exp_app s4 ex s5 rest Hex Hrest).
  destruct fr, ex; injection H as <- <-; reflexivity.
Qed.

Lemma match_number_head (s : pystr) (v : pyval) (r : pystr) :
  match_number s = Some (v, r) ->
  exists c s', s = c :: s'
    /\ (is_digit c = true
        \/ c = ch_minus /\ exists d s'', s' = d :: s'' /\ is_digit d = true).
Proof.
  unfold match_number, number_sign.
  destruct s as [|c0 s]; [discriminate|].
  intros H. exists c0, s. split; [reflexivity|].
  destruct (N.eqb_spec c0 ch_minus) as [->|Hne].
  - right. split; [reflexivity|]. destruct s as [|d s'']; [discriminate|].
    destruct (is_digit d) eqn:E; [eauto|discriminate].
  - left. destruct (is_digit c0); [reflexivity|discriminate].
Qed.

Lemma strip_prefix_digit (p : pystr) (c : N) (s : pystr) :
  is_digit c = true ->
  match p with a :: _ => is_digit a = false | [] => False end ->
  strip_prefix p (c :: s) = None.
Proof.
  intros Hc Ha. destruct p as [|a p]; [contradiction|]. simpl.
  destruct (N.eqb_spec a c) as [->|]; [congruence|reflexivity].
Qed.

(** A text that opens with a digit, or a minus sign and a digit, is a number. *)
Lemma scan_atom_digit (c : N) (s : pystr) :
  is_digit c = true -> scan_atom (c :: s) = match_number (c :: s).
Proof.
  intros Hc. unfold scan_atom.
  replace (c =? ch_quote) with false
    by (unfold is_digit, ch_quote in *; revert Hc; bdestruct; cbn [andb];
        try reflexivity; try discriminate; intros; exfalso; lia).
  unfold scan_constant.
  rewrite !(strip_prefix_digit _ c s Hc) by reflexivity. reflexivity.
Qed.

Lemma scan_atom_minus (d : N) (s : pystr) :
  is_digit d = true ->
  scan_atom (ch_minus :: d :: s) = match_number (ch_minus :: d :: s).
Proof.
  intros Hd. unfold scan_atom, scan_constant.
  change (ch_minus =? ch_quote) with false. cbv iota.
  change (strip_prefix (py "-Infinity") (ch_minus :: d :: s))
    with (strip_prefix (py "Infinity") (d :: s)).
  rewrite (strip_prefix_digit _ d s Hd) by reflexivity. reflexivity.
Qed.

Lemma strip_prefix_inv (p s r : pystr) : strip_prefix p s = Some r -> s = p ++ r.
Proof.
  revert s; induction p as [|a p IH]; intros s H; simpl in H.
  - destruct s; injection H as <-; reflexivity.
  - destruct s as [|b s]; [discriminate|].
    destruct (N.eqb_spec a b) as [->|]; [|discriminate].
    cbn [List.app]. f_equal. auto.
Qed.

(** What the scanner accepts as a float is one of the three constants or a
    number. *)
Lemma scan_atom_float (t : pystr) (f : float) (r : pystr) :
  scan_atom t = Some (PFloat f, r) ->
  (t = py "NaN" ++ r /\ f = NaN) \/ (t = py "Infinity" ++ r /\ f = PosInf)
  \/ (t = py "-Infinity" ++ r /\ f = NegInf)
  \/ match_number t = Some (PFloat f, r).
Proof.
  unfold scan_atom. destruct t as [|c t']; [discriminate|].
  destruct (c =? ch_quote).
  { destruct (scanstring t') as [[? ?]|]; discriminate. }
  unfold or_else, scan_constant.
  destruct (strip_prefix (py "null") (c :: t')); [discriminate|].
  destruct (strip_prefix (py "true") (c :: t')); [discriminate|].
  destruct (strip_prefix (py "false") (c :: t')); [discriminate|].
  destruct (strip_prefix (py "NaN") (c :: t')) eqn:E1.
  { intros [= <- <-]. left. split; [|reflexivity]. apply strip_prefix_inv. exact E1. }
  destruct (strip_prefix (py "Infinity") (c :: t')) eqn:E2.
  { intros [= <- <-]. right; left. split; [|reflexivity]. apply strip_prefix_inv. exact E2. }
  destruct (strip_prefix (py "-Infinity") (c :: t')) eqn:E3.
  { intros [= <- <-]. right; right; left. split; [|reflexivity].
    apply strip_prefix_inv. exact E3. }
  intros H. right; right; right. exact H.
Qed.

Lemma scan_atom_float_app (t : pystr) (f : float) (rest : pystr) :
  scan_atom t = Some (PFloat f, []) -> delimited rest = true ->
  scan_atom (t ++ rest) = Some (PFloat f, rest).
Proof.
  intros H Hrest.
  destruct (scan_atom_float t f [] H) as [[-> ->] | [[-> ->] | [[-> ->] | Hnum]]];
    try reflexivity.
  pose proof (match_number_app t (PFloat f) [] rest Hnum Hrest) as Happ.
  destruct (match_number_head t _ _ Hnum) as [c [s' [-> [Hc | [-> [d [s'' [-> Hd]]]]]]]].
  - cbn [List.app] in *. rewrite (scan_atom_digit c _ Hc). exact Happ.
  - cbn [List.app] in *. rewrite (scan_atom_minus d _ Hd). exact Happ.
Qed.

(** *** Induction on values *)

Lemma pyval_ind (P : pyval -> Prop) :
  P PNone -> (forall b, P (PBool b)) -> (forall z, P (PInt z)) ->
  (forall f, P (PFloat f)) -> (forall s, P (PStr s)) ->
  (forall xs, Forall P xs -> P (PList xs)) ->
  (forall kvs, Forall (fun kv => P (snd kv)) kvs -> P (PDict kvs)) ->
  forall v, P v.
Proof.
  intros HNone HBool HInt HFloat HStr HList HDict.
  fix IH 1. intros [ | b | z | f | s | xs | kvs].
  - exact HNone.
  - apply HBool.
  - apply HInt.
  - apply HFloat.
  - apply HStr.
  - apply HList. induction xs as [|x xs IHxs]; constructor; [apply IH | exact IHxs].
  - apply HDict. induction kvs as [|kv kvs IHkvs]; constructor; [apply IH | exact IHkvs].
Qed.

(** *** More fuel *)

Lemma scan_once_more (m n depth : nat) (s : pystr) (v : pyval) (r : pystr) :
  scan_once m depth s = Scanned v r -> (m <= n)%nat -> scan_once n depth s = Scanned v r.
Proof.
  intros H Hle. rewrite (scan_once_fuel_le m n depth s Hle); [exact H|].
  rewrite H. discriminate.
Qed.

Lemma parse_array_more (m n depth : nat) (s : pystr) (xs : list pyval) (r : pystr) :
  parse_array m depth s = Scanned xs r -> (m <= n)%nat ->
  parse_array n depth s = Scanned xs r.
Proof.
  intros H Hle. rewrite (parse_array_fuel_le m n depth s Hle); [exact H|].
  rewrite H. discriminate.
Qed.

Lemma parse_object_more (m n depth : nat) (s : pystr) (kvs : list (pystr * pyval))
    (r : pystr) :
  parse_object m depth s = Scanned kvs r -> (m <= n)%nat ->
  parse_object n depth s = Scanned kvs r.
Proof.
  intros H Hle. rewrite (parse_object_fuel_le m n depth s Hle); [exact H|].
  rewrite H. discriminate.
Qed.

(** *** White space *)

Lemma skip_ws_spaces (k : nat) (s : pystr) :
  skip_ws (repeat ch_space k ++ s) = skip_ws s.
Proof. induction k as [|k IH]; [reflexivity|exact IH]. Qed.

Lemma skip_ws_newline_indent (indent level : nat) (s : pystr) :
  skip_ws (newline_indent indent level ++ s) = skip_ws s.
Proof. unfold newline_indent. cbn [List.app]. apply (skip_ws_spaces _ s). Qed.

Lemma skip_ws_head (c : N) (s : pystr) : is_ws c = false -> skip_ws (c :: s) = c :: s.
Proof. intros H. simpl. rewrite H. reflexivity. Qed.

(** *** Atoms *)

Lemma scan_atom_open (s' : pystr) :
  scan_atom (ch_lbrace :: s') = None /\ scan_atom (ch_lbracket :: s') = None.
Proof. split; reflexivity. Qed.

Lemma scan_once_atom (n depth : nat) (s : pystr) (v : pyval) (r : pystr) :
  scan_atom s = Some (v, r) -> conversion_error s v = None ->
  scan_once (S n) depth s = Scanned v r.
Proof.
  intros H Hconv. rewrite scan_once_S. destruct s as [|c s']; [discriminate|].
  destruct (N.eqb_spec c ch_lbrace) as [->|_].
  { rewrite (proj1 (scan_atom_open s')) in H. discriminate. }
  destruct (N.eqb_spec c ch_lbracket) as [->|_].
  { rewrite (proj2 (scan_atom_open s')) in H. discriminate. }
  rewrite H, Hconv. reflexivity.
Qed.

Lemma scan_atom_value_head (s : pystr) (v : pyval) (r : pystr) :
  scan_atom s = Some (v, r) -> value_head s.
Proof.
  destruct s as [|c s']; [discriminate|]. intros H. simpl.
  unfold is_ws.
  destruct (N.eqb_spec c 32) as [->|_]; [discriminate H|].
  destruct (N.eqb_spec c 9) as [->|_]; [discriminate H|].
  destruct (N.eqb_spec c 10) as [->|_]; [discriminate H|].
  destruct (N.eqb_spec c 13) as [->|_]; [discriminate H|].
  destruct (N.eqb_spec c ch_rbracket) as [->|_]; [discriminate H|].
  split; reflexivity.
Qed.

Lemma value_head_app (s t : pystr) : value_head s -> value_head (s ++ t).
Proof. destruct s; [contradiction|]. exact (fun H => H). Qed.

Lemma skip_ws_value (s : pystr) : value_head s -> skip_ws s = s.
Proof. destruct s as [|c s]; [contradiction|]. intros [H _]. apply skip_ws_head. exact H. Qed.

Lemma uint_chars_head (d : uint) :
  canonical d = true -> exists c t, uint_chars d = c :: t /\ is_digit c = true.
Proof.
  destruct d; try discriminate; intros _; eexists _, _; split; reflexivity.
Qed.

Lemma scan_atom_int (z : Z) (rest : pystr) :
  delimited rest = true -> scan_atom (int_repr z ++ rest) = Some (PInt z, rest).
Proof.
  intros Hd. rewrite <- (match_number_int_repr z rest Hd).
  pose proof (int_of_text_int_repr z) as H. unfold int_repr.
  destruct (Z.to_int z) as [d|d]; destruct H as [Hc _];
    destruct (uint_chars_head d Hc) as [c [t [-> Hdig]]]; cbn [List.app].
  - apply scan_atom_digit. exact Hdig.
  - apply scan_atom_minus. exact Hdig.
Qed.

Lemma scan_atom_str (s rest : pystr) :
  valid_str s = true ->
  scan_atom (encode_basestring_ascii s ++ rest) = Some (PStr s, rest).
Proof.
  intros Hv. unfold encode_basestring_ascii, scan_atom. cbn [List.app].
  change (ch_quote =? ch_quote) with true. cbv iota.
  rewrite <- app_assoc. cbn [List.app].
  rewrite (scanstring_encoded s rest Hv). reflexivity.
Qed.

(** *** The strings the scanner builds *)

Lemma hexval_lt (c x : N) : hexval c = Some x -> x < 16.
Proof.
  unfold hexval, is_digit.
  destruct (N.leb_spec 48 c), (N.leb_spec c 57); cbn [andb];
    try (intros [= <-]; lia);
    destruct (N.leb_spec 97 c), (N.leb_spec c 102); cbn [andb];
    try (intros [= <-]; lia);
    destruct (N.leb_spec 65 c), (N.leb_spec c 70); cbn [andb];
    try (intros [= <-]; lia); discriminate.
Qed.

Lemma hex4_lt (a b c d u : N) : hex4 a b c d = Some u -> u < 65536.
Proof.
  unfold hex4.
  destruct (hexval a) as [x|] eqn:Ea; [|discriminate].
  destruct (hexval b) as [y|] eqn:Eb; [|discriminate].
  destruct (hexval c) as [z|] eqn:Ec; [|discriminate].
  destruct (hexval d) as [w|] eqn:Ed; [|discriminate].
  apply hexval_lt in Ea; apply hexval_lt in Eb; apply hexval_lt in Ec;
    apply hexval_lt in Ed. intros H.
  assert (E : 4096 * x + 256 * y + 16 * z + w = u) by (injection H; exact (fun e => e)).
  lia.
Qed.

Lemma join_surrogates_range (hi lo : N) :
  is_high_surrogate hi = true -> is_low_surrogate lo = true ->
  65536 <= join_surrogates hi lo /\ join_surrogates hi lo <= 1114111.
Proof.
  unfold is_high_surrogate, is_low_surrogate, join_surrogates.
  rewrite !andb_true_iff, !N.leb_le. intros [H1 H2] [H3 H4].
  rewrite lor_shiftl_add by (change (2 ^ 10) with 1024; lia).
  change (2 ^ 10) with 1024. lia.
Qed.

Lemma simple_escape_lt (e c : N) : simple_escape e = Some c -> c < 128.
Proof.
  unfold simple_escape, ch_quote, ch_backslash, ch_slash.
  repeat match goal with
         | |- context [N.eqb ?a ?b] => destruct (N.eqb a b)
         end; intros [= <-]; lia.
Qed.

Lemma not_surrogate_small (c : N) :
  c < 55296 \/ 57343 < c -> is_high_surrogate c = false /\ is_low_surrogate c = false.
Proof.
  unfold is_high_surrogate, is_low_surrogate. intros H.
  split; apply andb_false_iff; rewrite !N.leb_gt; lia.
Qed.

Lemma is_scalar_value_spec (c : N) :
  is_scalar_value c = true -> c <= 1114111 /\ (c < 55296 \/ 57343 < c).
Proof.
  unfold is_scalar_value. rewrite orb_true_iff, andb_true_iff, !N.ltb_lt, N.leb_le. lia.
Qed.

(** One more character in front of a scanned string. *)
Lemma scanned_ok_cons (s t : pystr) (c : N) (out : pystr) :
  c <= 1114111 ->
  (is_high_surrogate c = false \/ pair_ahead t = false) ->
  (is_low_surrogate c = true -> pair_ahead s = true) ->
  scanned_ok t out -> scanned_ok s (c :: out).
Proof.
  intros Hmax Hhigh Hlow [Hr [Hp Hh]]. unfold scanned_ok, in_range in *.
  cbn [forallb no_surrogate_pair]. rewrite Hr, Hp, !andb_true_r.
  split; [apply N.leb_le; exact Hmax|]. split; [|exact Hlow].
  destruct out as [|b out']; [reflexivity|].
  apply negb_true_iff, andb_false_iff.
  destruct Hhigh as [Hc|Ht]; [left; exact Hc|].
  destruct (is_low_surrogate b); [|right; reflexivity].
  rewrite (Hh eq_refl) in Ht. discriminate.
Qed.

Lemma scanstring_valid_le (n : nat) (s : pystr) :
  (List.length s <= n)%nat -> valid_text s = true ->
  forall out r, scanstring s = Some (out, r) -> scanned_ok s out.
Proof.
  revert s; induction n as [|n IH]; intros s Hlen Hv out r H.
  { destruct s; [discriminate|simpl in Hlen; lia]. }
  destruct s as [|c s1]; [discriminate|].
  unfold valid_text in Hv. cbn [forallb] in Hv. apply andb_true_iff in Hv.
  destruct Hv as [Hc Hv1]. apply is_scalar_value_spec in Hc. destruct Hc as [Hcmax Hcs].
  cbn [List.length] in Hlen.
  destruct (N.eqb_spec c ch_quote) as [->|Hq].
  { rewrite scanstring_quote in H. injection H as <- <-.
    repeat split. }
  destruct (N.eqb_spec c ch_backslash) as [->|Hb].
  - destruct s1 as [|e s2]; [discriminate|].
    cbn [forallb] in Hv1. apply andb_true_iff in Hv1. destruct Hv1 as [_ Hv2].
    cbn [List.length] in Hlen.
    destruct (N.eqb_spec e 117) as [->|Hu].
    + destruct s2 as [|ha [|hb [|hc [|hd s3]]]]; try discriminate.
      rewrite scanstring_unicode in H.
      destruct (hex4 ha hb hc hd) as [uni|] eqn:Hhex; [|discriminate].
      pose proof (hex4_lt _ _ _ _ _ Hhex) as Huni.
      assert (Hv3 : valid_text s3 = true).
      { cbn [forallb] in Hv2. rewrite !andb_true_iff in Hv2. tauto. }
      assert (Hself : is_low_surrogate uni = true
                      -> pair_ahead (ch_backslash :: 117 :: ha :: hb :: hc :: hd :: s3) = true).
      { intros Hl. unfold pair_ahead. rewrite Hhex, Hl. reflexivity. }
      assert (Hplain : (is_high_surrogate uni = false \/ pair_ahead s3 = false) ->
                       cons_char uni (scanstring s3) = Some (out, r) ->
                       scanned_ok (ch_backslash :: 117 :: ha :: hb :: hc :: hd :: s3) out).
      { intros Hhp H'. apply cons_char_inv in H'. destruct H' as [out' [H' ->]].
        apply (scanned_ok_cons _ s3); [lia | exact Hhp | exact Hself |].
        apply (IH s3 ltac:(cbn [List.length] in Hlen; lia) Hv3 out' r H'). }
      destruct s3 as [|bs [|u [|xa [|xb [|xc [|xd s4]]]]]];
        try (apply Hplain; [right; reflexivity | exact H]).
      destruct (is_high_surrogate uni) eqn:Hhi;
        [|apply Hplain; [left; reflexivity | exact H]].
      cbn [andb] in H.
      destruct ((bs =? ch_backslash) && (u =? 117)) eqn:Hbu;
        [|apply Hplain; [right; unfold pair_ahead; rewrite Hbu; reflexivity | exact H]].
      destruct (hex4 xa xb xc xd) as [uni2|] eqn:Hhex2; [|discriminate].
      destruct (is_low_surrogate uni2) eqn:Hlo2;
        [|apply Hplain;
          [right; unfold pair_ahead; rewrite Hbu, Hhex2, Hlo2; reflexivity | exact H]].
      apply cons_char_inv in H. destruct H as [out' [H' ->]].
      destruct (join_surrogates_range uni uni2 Hhi Hlo2) as [Hj1 Hj2].
      destruct (not_surrogate_small (join_surrogates uni uni2)) as [Hnh Hnl]; [lia|].
      apply (scanned_ok_cons _ s4); [exact Hj2 | left; exact Hnh | rewrite Hnl; discriminate |].
      assert (Hv4 : valid_text s4 = true).
      { unfold valid_text in Hv3. cbn [forallb] in Hv3. rewrite !andb_true_iff in Hv3. tauto. }
      apply (IH s4 ltac:(cbn [List.length] in Hlen; lia) Hv4 out' r H').
    + rewrite <- N.eqb_neq in Hu.
      destruct (simple_escape e) as [c'|] eqn:Hse.
      * rewrite (scanstring_simple e c' s2 Hu Hse) in H.
        apply cons_char_inv in H. destruct H as [out' [H' ->]].
        pose proof (simple_escape_lt e c' Hse) as Hc'.
        destruct (not_surrogate_small c') as [Hnh Hnl]; [lia|].
        apply (scanned_ok_cons _ s2); [lia | left; exact Hnh | rewrite Hnl; discriminate |].
        apply (IH s2 ltac:(lia) Hv2 out' r H').
      * exfalso. revert H.
        change (scanstring (ch_backslash :: e :: s2))
          with (if e =? 117 then scanstring (ch_backslash :: 117 :: s2)
                else match simple_escape e with
                     | Some c' => cons_char c' (scanstring s2)
                     | None => None
                     end) at 1.
        rewrite Hu, Hse. discriminate.
  - rewrite <- N.eqb_neq in Hq, Hb.
    destruct (c <? 32) eqn:H32.
    + exfalso. revert H. simpl. rewrite Hq, Hb, H32. discriminate.
    + rewrite (scanstring_plain c s1 Hq Hb H32) in H.
      apply cons_char_inv in H. destruct H as [out' [H' ->]].
      destruct (not_surrogate_small c Hcs) as [Hnh Hnl].
      apply (scanned_ok_cons _ s1); [exact Hcmax | left; exact Hnh | rewrite Hnl; discriminate |].
      apply (IH s1 ltac:(lia) Hv1 out' r H').
Qed.

Lemma scanstring_valid (s out r : pystr) :
  valid_text s = true -> scanstring s = Some (out, r) -> valid_str out = true.
Proof.
  intros Hv H.
  destruct (scanstring_valid_le (List.length s) s (le_n _) Hv out r H) as [Hr [Hp _]].
  unfold valid_str. fold (in_range out). rewrite Hr, Hp. reflexivity.
Qed.

(** *** The digits of an integer *)

Lemma number_sign_canonical (neg : bool) (d : uint) (t : pystr) :
  canonical d = true ->
  number_sign ((if neg then [ch_minus] else []) ++ uint_chars d ++ t)
  = (neg, uint_chars d ++ t).
Proof.
  intros Hc. destruct neg; [reflexivity|]. destruct d; try discriminate Hc; reflexivity.
Qed.

Lemma int_literal_digits_canonical (neg : bool) (d : uint) (t : pystr) :
  canonical d = true -> nondigit_head t = true ->
  int_literal_digits ((if neg then [ch_minus] else []) ++ uint_chars d ++ t)
  = List.length (uint_chars d).
Proof.
  intros Hc Ht. unfold int_literal_digits. rewrite (number_sign_canonical neg d t Hc).
  destruct d as [|d'|d'|d'|d'|d'|d'|d'|d'|d'|d']; try discriminate Hc;
    cbn [uint_chars List.app List.length];
    try (change (_ =? ch_zero) with false; cbv iota;
         rewrite (take_digits_uint_chars d' t Ht); reflexivity).
  destruct d'; try discriminate Hc. reflexivity.
Qed.

Lemma int_literal_digits_int_repr (z : Z) (rest : pystr) :
  nondigit_head rest = true ->
  int_literal_digits (int_repr z ++ rest) = int_digits z.
Proof.
  intros Hnd. pose proof (int_of_text_int_repr z) as H. unfold int_repr, int_digits.
  destruct (Z.to_int z) as [d|d]; destruct H as [Hc _].
  - exact (int_literal_digits_canonical false d rest Hc Hnd).
  - pose proof (int_literal_digits_canonical true d rest Hc Hnd) as Hm.
    cbn [List.app] in Hm |- *. exact Hm.
Qed.

(** A value that fits at some depth is read back with no exception. *)
Lemma conversion_error_int_repr (z : Z) (depth : nat) (rest : pystr) :
  delimited rest = true -> fits depth (PInt z) = true ->
  conversion_error (int_repr z ++ rest) (PInt z) = None.
Proof.
  intros Hd Hfit. unfold conversion_error.
  rewrite (int_literal_digits_int_repr z rest (delimited_nondigit rest Hd)).
  change (negb (too_many_digits (int_digits z)) = true) in Hfit.
  apply negb_true_iff in Hfit. rewrite Hfit. reflexivity.
Qed.

Section WithFloatLaws.
Context {L : FloatLaws}.

Lemma scan_atom_floatstr (f : float) (rest : pystr) :
  delimited rest = true -> scan_atom (floatstr f ++ rest) = Some (PFloat f, rest).
Proof. intros Hd. apply scan_atom_float_app; [apply floatstr_scans | exact Hd]. Qed.

Lemma encoded_head (indent level : nat) (v : pyval) :
  value_head (iterencode indent level v).
Proof.
  destruct v as [ | [|] | z | f | s | [|x xs] | [|kv kvs]];
    try (split; reflexivity).
  - pose proof (scan_atom_int z [] eq_refl) as H. rewrite app_nil_r in H.
    exact (scan_atom_value_head _ _ _ H).
  - exact (scan_atom_value_head _ _ _ (floatstr_scans f)).
Qed.

(** *** Dictionaries built from pairs *)

Lemma dict_set_notin (k : pystr) (v : pyval) (d : dict) :
  ~ In k (keys d) -> dict_set k v d = d ++ [(k, v)].
Proof.
  induction d as [|[k' v'] d IH]; intros Hnotin; [reflexivity|].
  simpl in *. destruct (pystr_eqb k k') eqn:E.
  - apply pystr_eqb_eq in E. subst. tauto.
  - rewrite IH by tauto. reflexivity.
Qed.

Lemma dict_of_pairs_acc (kvs acc : dict) :
  NoDup (keys (acc ++ kvs)) ->
  fold_left (fun d kv => dict_set (fst kv) (snd kv) d) kvs acc = acc ++ kvs.
Proof.
  revert acc. induction kvs as [|[k v] kvs IH]; intros acc Hnd.
  - rewrite app_nil_r. reflexivity.
  - cbn [fold_left fst snd].
    assert (Hnotin : ~ In k (keys acc)).
    { unfold keys in Hnd. rewrite map_app in Hnd. cbn [List.map fst] in Hnd.
      apply NoDup_remove_2 in Hnd. intros Hin. apply Hnd. apply in_or_app. auto. }
    rewrite (dict_set_notin k v acc Hnotin).
    rewrite IH; rewrite <- app_assoc; [reflexivity | exact Hnd].
Qed.

Lemma dict_of_pairs_nodup (kvs : dict) : NoDup (keys kvs) -> dict_of_pairs kvs = kvs.
Proof. intros H. apply (dict_of_pairs_acc kvs []). exact H. Qed.

(** *** Reading back an encoded value *)

Lemma join_head (sep a : pystr) (l : list pystr) :
  value_head a -> value_head (join sep (a :: l)).
Proof. destruct l; [exact (fun H => H)|]. apply value_head_app. Qed.

Lemma delimited_newline (indent level : nat) (t : pystr) :
  delimited (newline_indent indent level ++ t) = true.
Proof. reflexivity. Qed.

Lemma parse_array_encoded (indent level depth : nat) (xs : list pyval) (rest : pystr) :
  xs <> [] ->
  Forall (fun x => reads_back indent x /\ fits depth x = true) xs ->
  exists fuel,
    parse_array fuel depth
      (join (ch_comma :: newline_indent indent (S level))
            (List.map (iterencode indent (S level)) xs)
       ++ newline_indent indent level ++ ch_rbracket :: rest)
    = Scanned xs rest.
Proof.
  induction xs as [|x xs IH]; [congruence|]. intros _ HF.
  inversion HF as [|? ? [Hx Hfit] HF']; subst.
  destruct xs as [|y ys].
  - cbn [List.map join].
    destruct (Hx (S level) depth (newline_indent indent level ++ ch_rbracket :: rest)
                 (delimited_newline _ _ _) Hfit) as [f Hf].
    exists (S f). rewrite parse_array_S, Hf, skip_ws_newline_indent.
    reflexivity.
  - destruct (IH ltac:(discriminate) HF') as [f2 Hf2].
    set (J := join (ch_comma :: newline_indent indent (S level))
                   (List.map (iterencode indent (S level)) (y :: ys))) in *.
    assert (HJ : value_head (J ++ newline_indent indent level ++ ch_rbracket :: rest)).
    { apply value_head_app. unfold J. cbn [List.map]. apply join_head.
      apply encoded_head. }
    destruct (Hx (S level) depth
                 (ch_comma :: newline_indent indent (S level)
                  ++ J ++ newline_indent indent level ++ ch_rbracket :: rest)
                 eq_refl Hfit) as [f1 Hf1].
    exists (S (Nat.max f1 f2)). rewrite parse_array_S.
    change (List.map (iterencode indent (S level)) (x :: y :: ys))
      with (iterencode indent (S level) x
            :: List.map (iterencode indent (S level)) (y :: ys)).
    change (join (ch_comma :: newline_indent indent (S level))
                 (iterencode indent (S level) x
                  :: List.map (iterencode indent (S level)) (y :: ys)))
      with (iterencode indent (S level) x
            ++ (ch_comma :: newline_indent indent (S level)) ++ J).
    rewrite <- !app_assoc. cbn [List.app].
    rewrite (scan_once_more f1 _ _ _ _ _ Hf1) by lia.
    rewrite skip_ws_head by reflexivity.
    change (ch_comma =? ch_rbracket) with false.
    change (ch_comma =? ch_comma) with true. cbv iota.
    rewrite skip_ws_newline_indent, (skip_ws_value _ HJ).
    rewrite (parse_array_more f2 _ _ _ _ _ Hf2) by lia. reflexivity.
Qed.

Lemma parse_object_item (indent level n depth : nat) (k : pystr) (v : pyval) (t : pystr) :
  valid_str k = true ->
  parse_object (S n) depth (encode_item indent level (k, v) ++ t)
  = match scan_once n depth (skip_ws (iterencode indent level v ++ t)) with
    | Scanned v' r2 =>
        match skip_ws r2 with
        | c3 :: r3 =>
            if c3 =? ch_rbrace then Scanned [(k, v')] r3
            else if c3 =? ch_comma then
              match parse_object n depth (skip_ws r3) with
              | Scanned kvs r4 => Scanned ((k, v') :: kvs) r4
              | DecodeError => DecodeError
              | Raised e => Raised e
              | OutOfFuel => OutOfFuel
              end
            else DecodeError
        | [] => DecodeError
        end
    | DecodeError => DecodeError
    | Raised e => Raised e
    | OutOfFuel => OutOfFuel
    end.
Proof.
  intros Hk. rewrite parse_object_S.
  unfold encode_item, encode_basestring_ascii. cbn [fst snd List.app].
  change (ch_quote =? ch_quote) with true. cbv iota.
  rewrite <- !app_assoc. cbn [List.app].
  rewrite (scanstring_encoded k _ Hk).
  rewrite skip_ws_head by reflexivity.
  change (ch_colon =? ch_colon) with true. cbv iota.
  reflexivity.
Qed.

Lemma encode_item_head (indent level : nat) (kv : pystr * pyval) (t : pystr) :
  value_head (encode_item indent level kv ++ t).
Proof. split; reflexivity. Qed.

Lemma parse_object_encoded (indent level depth : nat) (kvs : list (pystr * pyval))
    (rest : pystr) :
  kvs <> [] ->
  Forall (fun kv => valid_str (fst kv) = true
                    /\ reads_back indent (snd kv) /\ fits depth (snd kv) = true) kvs ->
  exists fuel,
    parse_object fuel depth
      (join (ch_comma :: newline_indent indent (S level))
            (List.map (encode_item indent (S level)) kvs)
       ++ newline_indent indent level ++ ch_rbrace :: rest)
    = Scanned kvs rest.
Proof.
  induction kvs as [|[k v] kvs IH]; [congruence|]. intros _ HF.
  inversion HF as [|? ? [Hk [Hv Hfit]] HF']; subst. cbn [fst snd] in *.
  destruct kvs as [|kv' kvs'].
  - cbn [List.map join].
    destruct (Hv (S level) depth (newline_indent indent level ++ ch_rbrace :: rest)
                 (delimited_newline _ _ _) Hfit) as [f Hf].
    exists (S f). rewrite (parse_object_item _ _ _ _ _ _ _ Hk).
    rewrite (skip_ws_value _ (value_head_app _ _ (encoded_head _ _ _))).
    rewrite Hf, skip_ws_newline_indent. reflexivity.
  - destruct (IH ltac:(discriminate) HF') as [f2 Hf2].
    set (J := join (ch_comma :: newline_indent indent (S level))
                   (List.map (encode_item indent (S level)) (kv' :: kvs'))) in *.
    assert (HJ : value_head (J ++ newline_indent indent level ++ ch_rbrace :: rest)).
    { apply value_head_app. unfold J. cbn [List.map]. apply join_head.
      split; reflexivity. }
    destruct (Hv (S level) depth
                 (ch_comma :: newline_indent indent (S level)
                  ++ J ++ newline_indent indent level ++ ch_rbrace :: rest)
                 eq_refl Hfit) as [f1 Hf1].
    exists (S (Nat.max f1 f2)).
    change (List.map (encode_item indent (S level)) ((k, v) :: kv' :: kvs'))
      with (encode_item indent (S level) (k, v)
            :: List.map (encode_item indent (S level)) (kv' :: kvs')).
    change (join (ch_comma :: newline_indent indent (S level))
                 (encode_item indent (S level) (k, v)
                  :: List.map (encode_item indent (S level)) (kv' :: kvs')))
      with (encode_item indent (S level) (k, v)
            ++ (ch_comma :: newline_indent indent (S level)) ++ J).
    rewrite <- !app_assoc.
    rewrite (parse_object_item _ _ _ _ _ _ _ Hk).
    rewrite (skip_ws_value _ (value_head_app _ _ (encoded_head _ _ _))).
    cbn [List.app].
    rewrite (scan_once_more f1 _ _ _ _ _ Hf1) by lia.
    rewrite skip_ws_head by reflexivity.
    change (ch_comma =? ch_rbrace) with false.
    change (ch_comma =? ch_comma) with true. cbv iota.
    rewrite skip_ws_newline_indent, (skip_ws_value _ HJ).
    rewrite (parse_object_more f2 _ _ _ _ _ Hf2) by lia. reflexivity.
Qed.

Lemma iterencode_list (indent level : nat) (x : pyval) (xs : list pyval) :
  iterencode indent level (PList (x :: xs))
  = ch_lbracket :: newline_indent indent (S level)
    ++ join (ch_comma :: newline_indent indent (S level))
            (List.map (iterencode indent (S level)) (x :: xs))
    ++ newline_indent indent level ++ [ch_rbracket].
Proof. reflexivity. Qed.

Lemma iterencode_dict (indent level : nat) (kv : pystr * pyval) (kvs : list (pystr * pyval)) :
  iterencode indent level (PDict (kv :: kvs))
  = ch_lbrace :: newline_indent indent (S level)
    ++ join (ch_comma :: newline_indent indent (S level))
            (List.map (encode_item indent (S level)) (kv :: kvs))
    ++ newline_indent indent level ++ [ch_rbrace].
Proof. reflexivity. Qed.

Lemma scan_encoded (indent : nat) (v : pyval) : wf_value v -> reads_back indent v.
Proof.
  induction v as [ | b | z | f | s | xs IH | kvs IH] using pyval_ind;
    intros Hwf level depth rest Hd Hfit.
  - exists 1%nat. reflexivity.
  - exists 1%nat. destruct b; reflexivity.
  - exists 1%nat. apply scan_once_atom; [apply scan_atom_int; exact Hd|].
    exact (conversion_error_int_repr z depth rest Hd Hfit).
  - exists 1%nat. apply scan_once_atom; [apply scan_atom_floatstr; exact Hd | reflexivity].
  - exists 1%nat. apply scan_once_atom; [|reflexivity]. apply scan_atom_str.
    inversion Hwf; assumption.
  - destruct depth as [|d]; [destruct xs; discriminate Hfit|].
    destruct xs as [|x xs]; [exists 1%nat; reflexivity|].
    cbn [fits] in Hfit.
    assert (HF : Forall (fun x => reads_back indent x /\ fits d x = true) (x :: xs)).
    { inversion Hwf as [| | | | |? Hall|]; subst.
      rewrite Forall_forall in IH, Hall. rewrite Forall_forall.
      rewrite forallb_forall in Hfit.
      intros y Hy. split; [apply IH; [exact Hy | apply Hall; exact Hy] | apply Hfit; exact Hy]. }
    destruct (parse_array_encoded indent level d (x :: xs) rest ltac:(discriminate) HF)
      as [f Hf].
    exists (S f). rewrite iterencode_list, scan_once_S.
    cbn [List.app]. rewrite <- !app_assoc. cbn [List.app].
    change (ch_lbracket =? ch_lbrace) with false.
    change (ch_lbracket =? ch_lbracket) with true. cbv iota.
    rewrite skip_ws_newline_indent.
    assert (Hhead : value_head
              (join (ch_comma :: newline_indent indent (S level))
                    (List.map (iterencode indent (S level)) (x :: xs))
               ++ newline_indent indent level ++ ch_rbracket :: rest)).
    { apply value_head_app. cbn [List.map]. apply join_head. apply encoded_head. }
    rewrite (skip_ws_value _ Hhead), Hf.
    destruct (join _ _ ++ _) as [|c1 s2]; [contradiction|].
    destruct Hhead as [_ ->]. reflexivity.
  - destruct depth as [|d]; [destruct kvs; discriminate Hfit|].
    destruct kvs as [|kv kvs]; [exists 1%nat; reflexivity|].
    cbn [fits] in Hfit.
    inversion Hwf as [| | | | | |? Hnd Hall]; subst.
    assert (HF : Forall (fun kv => valid_str (fst kv) = true
                           /\ reads_back indent (snd kv) /\ fits d (snd kv) = true)
                        (kv :: kvs)).
    { rewrite Forall_forall in IH, Hall. rewrite Forall_forall.
      rewrite forallb_forall in Hfit.
      intros y Hy. destruct (Hall y Hy) as [Hk Hv].
      split; [exact Hk | split; [apply IH; [exact Hy | exact Hv] | apply Hfit; exact Hy]]. }
    destruct (parse_object_encoded indent level d (kv :: kvs) rest ltac:(discriminate) HF)
      as [f Hf].
    exists (S f). rewrite iterencode_dict, scan_once_S.
    cbn [List.app]. rewrite <- !app_assoc. cbn [List.app].
    change (ch_lbrace =? ch_lbrace) with true. cbv iota.
    rewrite skip_ws_newline_indent.
    assert (Hhead : value_head
              (join (ch_comma :: newline_indent indent (S level))
                    (List.map (encode_item indent (S level)) (kv :: kvs))
               ++ newline_indent indent level ++ ch_rbrace :: rest)).
    { apply value_head_app. cbn [List.map]. apply join_head. split; reflexivity. }
    rewrite (skip_ws_value _ Hhead), Hf, (dict_of_pairs_nodup _ Hnd).
    cbn [List.map join] in *.
    destruct kvs; reflexivity.
Qed.

(** [json.loads] reads the text [json.dumps] writes for a well-formed
    value back as that value. *)
Lemma loads_iterencode (indent : nat) (v : pyval) :
  well_formed v -> json_loads (iterencode indent 0 v) = Ok v.
Proof.
  intros [Hwf Hfit].
  destruct (scan_encoded indent v Hwf 0%nat decoder_depth [] eq_refl Hfit) as [fuel H].
  rewrite app_nil_r in H. apply (json_loads_scanned fuel).
  rewrite (skip_ws_value _ (encoded_head indent 0 v)). exact H.
Qed.

Lemma loads_dumps (indent : nat) (v : pyval) (out : pystr) :
  well_formed v -> json_dumps indent v = Ok out -> json_loads out = Ok v.
Proof.
  intros Hwf. unfold json_dumps.
  destruct (encode_error encoder_depth v); [discriminate|].
  intros H. injection H as <-. apply loads_iterencode. exact Hwf.
Qed.

End WithFloatLaws.

(** *** The values the scanner builds *)

Lemma keys_dict_set_in (x k : pystr) (v : pyval) (d : dict) :
  In x (keys (dict_set k v d)) -> In x (keys d) \/ x = k.
Proof.
  induction d as [|[k' v'] d IH]; simpl.
  - intros [<-|[]]. right. reflexivity.
  - destruct (pystr_eqb k k'); simpl; intros [<-|Hin]; auto.
    destruct (IH Hin); auto.
Qed.

Lemma dict_set_nodup (k : pystr) (v : pyval) (d : dict) :
  NoDup (keys d) -> NoDup (keys (dict_set k v d)).
Proof.
  induction d as [|[k' v'] d IH]; simpl; intros Hnd.
  - constructor; [intros []|constructor].
  - inversion Hnd as [|? ? Hnotin Hnd']; subst.
    destruct (pystr_eqb k k') eqn:E; simpl; constructor; auto.
    intros Hin. apply keys_dict_set_in in Hin. destruct Hin as [Hin | ->]; [auto|].
    rewrite pystr_eqb_refl in E. discriminate.
Qed.

Lemma dict_set_Forall (Q : pystr * pyval -> Prop) (k : pystr) (v : pyval) (d : dict) :
  Q (k, v) -> Forall Q d -> Forall Q (dict_set k v d).
Proof.
  intros Hq. induction d as [|[k' v'] d IH]; simpl; intros HF.
  - constructor; [exact Hq|constructor].
  - inversion HF; subst. destruct (pystr_eqb k k') eqn:E.
    + apply pystr_eqb_eq in E. subst. constructor; assumption.
    + constructor; auto.
Qed.

Lemma dict_of_pairs_spec (Q : pystr * pyval -> Prop) (pairs : list (pystr * pyval)) :
  Forall Q pairs ->
  NoDup (keys (dict_of_pairs pairs)) /\ Forall Q (dict_of_pairs pairs).
Proof.
  unfold dict_of_pairs.
  assert (H : forall acc, NoDup (keys acc) -> Forall Q acc -> Forall Q pairs ->
            NoDup (keys (fold_left (fun d kv => dict_set (fst kv) (snd kv) d) pairs acc))
            /\ Forall Q (fold_left (fun d kv => dict_set (fst kv) (snd kv) d) pairs acc)).
  { induction pairs as [|[k v] pairs IH]; intros acc Hnd Hacc HF; [split; assumption|].
    inversion HF; subst. cbn [fold_left fst snd].
    apply IH; [apply dict_set_nodup; exact Hnd | apply dict_set_Forall; assumption | assumption]. }
  intros HF. apply H; [constructor | constructor | exact HF].
Qed.

Lemma match_number_kind (s : pystr) (v : pyval) (r : pystr) :
  match_number s = Some (v, r) -> (exists z, v = PInt z) \/ (exists f, v = PFloat f).
Proof.
  unfold match_number.
  destruct (number_sign s) as [neg s1].
  destruct s1 as [|c s2]; [discriminate|].
  destruct (is_digit c); [|discriminate].
  destruct (if c =? ch_zero then _ else _) as [ip s3].
  destruct (number_frac s3) as [fr s4].
  destruct (number_exp s4) as [ex s5].
  destruct fr, ex; intros [= <- _]; eauto.
Qed.

Lemma scan_atom_kind (s : pystr) (v : pyval) (r : pystr) :
  scan_atom s = Some (v, r) ->
  match v with PList _ => False | PDict _ => False | _ => True end.
Proof.
  unfold scan_atom. destruct s as [|c s]; [discriminate|].
  destruct (c =? ch_quote).
  - destruct (scanstring s) as [[str r']|]; [|discriminate].
    intros H. injection H as <- _. exact I.
  - unfold or_else, scan_constant.
    repeat match goal with
           | |- context [strip_prefix ?p ?t] =>
               destruct (strip_prefix p t);
               [intros H; injection H as <- _; exact I|]
           end.
    intros H. destruct (match_number_kind _ _ _ H) as [[z ->]|[f ->]]; exact I.
Qed.

Section Scanned.
Variables (Pin P : pystr -> Prop).
Hypothesis Pin_suffix : forall r s, suffix r s -> Pin s -> Pin r.
Hypothesis P_scanned : forall s out r, Pin s -> scanstring s = Some (out, r) -> P out.

Lemma scan_atom_wf (s : pystr) (v : pyval) (r : pystr) :
  Pin s -> scan_atom s = Some (v, r) -> wf_with P v.
Proof.
  intros Hin. unfold scan_atom. destruct s as [|c s']; [discriminate|].
  destruct (c =? ch_quote).
  { destruct (scanstring s') as [[str r']|] eqn:E; [|discriminate].
    intros [= <- _]. constructor. eapply P_scanned; [|exact E].
    eapply Pin_suffix; [|exact Hin]. repeat constructor. }
  unfold or_else, scan_constant.
  repeat match goal with
  | |- context [strip_prefix ?n ?x] =>
      destruct (strip_prefix n x); [intros [= <- _]; constructor|]
  end.
  intros H. apply match_number_kind in H. destruct H as [[z ->] | [f ->]]; constructor.
Qed.

Lemma scan_wf (fuel : nat) :
  (forall depth s v r, Pin s -> scan_once fuel depth s = Scanned v r -> wf_with P v)
  /\ (forall depth s xs r, Pin s -> parse_array fuel depth s = Scanned xs r ->
        Forall (wf_with P) xs)
  /\ (forall depth s kvs r, Pin s -> parse_object fuel depth s = Scanned kvs r ->
        Forall (fun kv => P (fst kv) /\ wf_with P (snd kv)) kvs).
Proof.
  induction fuel as [|n [IHv [IHa IHo]]]; [repeat split; discriminate|].
  split; [|split].
  - intros depth s v r Hin H. rewrite scan_once_S in H.
    destruct s as [|c s']; [discriminate|].
    assert (Hin' : Pin (skip_ws s')).
    { eapply Pin_suffix; [|exact Hin]. constructor. apply skip_ws_suffix. }
    destruct (c =? ch_lbrace).
    { destruct depth as [|d]; [discriminate|].
      destruct (skip_ws s') as [|c1 s2] eqn:Hws; [discriminate|].
      destruct (c1 =? ch_rbrace).
      - injection H as <- _. constructor; constructor.
      - destruct (parse_object n d (c1 :: s2)) as [pairs r'| | |] eqn:E; try discriminate.
        injection H as <- _. apply (IHo _ _ _ _ Hin') in E.
        destruct (dict_of_pairs_spec _ pairs E). constructor; assumption. }
    destruct (c =? ch_lbracket).
    { destruct depth as [|d]; [discriminate|].
      destruct (skip_ws s') as [|c1 s2] eqn:Hws; [discriminate|].
      destruct (c1 =? ch_rbracket).
      - injection H as <- _. constructor; constructor.
      - destruct (parse_array n d (c1 :: s2)) as [xs r'| | |] eqn:E; try discriminate.
        injection H as <- _. constructor. exact (IHa _ _ _ _ Hin' E). }
    destruct (scan_atom (c :: s')) as [[v' r']|] eqn:E; [|discriminate].
    destruct (conversion_error (c :: s') v'); [discriminate|].
    injection H as <- _. exact (scan_atom_wf _ _ _ Hin E).
  - intros depth s xs r Hin H. rewrite parse_array_S in H.
    destruct (scan_once n depth s) as [v r0| | |] eqn:E; try discriminate.
    pose proof (IHv _ _ _ _ Hin E) as Hv.
    apply (proj1 (scan_suffix n)), strict_suffix_weaken in E.
    pose proof (skip_ws_suffix r0) as Hsuf.
    destruct (skip_ws r0) as [|c r1]; [discriminate|].
    destruct (c =? ch_rbracket); [injection H as <- _; repeat constructor; exact Hv|].
    destruct (c =? ch_comma); [|discriminate].
    destruct (parse_array n depth (skip_ws r1)) as [vs r2| | |] eqn:E2; try discriminate.
    injection H as <- _. constructor; [exact Hv|].
    eapply IHa; [|exact E2].
    eapply Pin_suffix; [|exact Hin].
    eapply suffix_trans; [apply skip_ws_suffix|].
    eapply suffix_trans; [|exact E].
    eapply suffix_trans; [|exact Hsuf]. repeat constructor.
  - intros depth s kvs r Hin H. rewrite parse_object_S in H.
    destruct s as [|c s1]; [discriminate|].
    destruct (c =? ch_quote); [|discriminate].
    destruct (scanstring s1) as [[key r0]|] eqn:Hkey; [|discriminate].
    assert (Hin1 : Pin s1) by (eapply Pin_suffix; [|exact Hin]; repeat constructor).
    pose proof (P_scanned _ _ _ Hin1 Hkey) as Hk.
    apply scanstring_suffix, strict_suffix_weaken in Hkey.
    pose proof (skip_ws_suffix r0) as Hsuf.
    destruct (skip_ws r0) as [|c2 r1]; [discriminate|].
    destruct (c2 =? ch_colon); [|discriminate].
    assert (Hin2 : Pin (skip_ws r1)).
    { eapply Pin_suffix; [|exact Hin1].
      eapply suffix_trans; [apply skip_ws_suffix|].
      eapply suffix_trans; [|exact Hkey].
      eapply suffix_trans; [|exact Hsuf]. repeat constructor. }
    destruct (scan_once n depth (skip_ws r1)) as [v r2| | |] eqn:E; try discriminate.
    pose proof (IHv _ _ _ _ Hin2 E) as Hv.
    apply (proj1 (scan_suffix n)), strict_suffix_weaken in E.
    pose proof (skip_ws_suffix r2) as Hsuf2.
    destruct (skip_ws r2) as [|c3 r3]; [discriminate|].
    destruct (c3 =? ch_rbrace); [injection H as <- _; repeat constructor; assumption|].
    destruct (c3 =? ch_comma); [|discriminate].
    destruct (parse_object n depth (skip_ws r3)) as [kvs' r4| | |] eqn:E2; try discriminate.
    injection H as <- _. constructor; [split; assumption|].
    eapply IHo; [|exact E2].
    eapply Pin_suffix; [|exact Hin2].
    eapply suffix_trans; [apply skip_ws_suffix|].
    eapply suffix_trans; [|exact E].
    eapply suffix_trans; [|exact Hsuf2]. repeat constructor.
Qed.

Lemma json_loads_wf (text : pystr) (v : pyval) :
  Pin text -> json_loads text = Ok v -> wf_with P v.
Proof.
  intros Hin. unfold json_loads, decode.
  destruct (scan_once _ _ (skip_ws text)) as [obj r| | |] eqn:E; try discriminate.
  destruct (skip_ws r); [|discriminate]. intros [= <-].
  eapply (proj1 (scan_wf _)); [|exact E].
  eapply Pin_suffix; [|exact Hin]. apply skip_ws_suffix.
Qed.

End Scanned.

(** *** The limits the scanner keeps *)

Lemma nb_digits_uint_chars (d : uint) : List.length (uint_chars d) = nb_digits d.
Proof. induction d; cbn [uint_chars List.length nb_digits]; congruence. Qed.

Lemma length_uint_of_chars (ds : pystr) : nb_digits (uint_of_chars ds) = List.length ds.
Proof.
  induction ds as [|c ds IH]; [reflexivity|]. cbn [uint_of_chars List.length].
  repeat match goal with
         | |- context [if ?b then _ else _] => destruct b
         end; cbn [nb_digits]; congruence.
Qed.

(** The integer a literal stands for is written with no more digits than
    the literal has. *)
Lemma int_digits_int_of_text (neg : bool) (ds : pystr) :
  ds <> [] -> (int_digits (int_of_text neg ds) <= List.length ds)%nat.
Proof.
  intros Hne. rewrite <- (length_uint_of_chars ds).
  assert (Hd : uint_of_chars ds <> Nil).
  { destruct ds as [|c ds]; [congruence|]. cbn [uint_of_chars].
    repeat match goal with
           | |- context [if ?b then _ else _] => destruct b
           end; discriminate. }
  unfold int_digits, int_of_text, Z.of_uint.
  generalize dependent (uint_of_chars ds). clear ds Hne. intros d Hd.
  assert (Hn : forall n : N,
            N.to_uint n = unorm d ->
            (List.length (uint_chars (N.to_uint n)) <= nb_digits d)%nat).
  { intros n ->. rewrite nb_digits_uint_chars. apply nb_digits_unorm. exact Hd. }
  specialize (Hn (N.of_uint d) (DecimalN.Unsigned.to_of d)).
  unfold N.of_uint in Hn.
  destruct (Pos.of_uint d) as [|p]; destruct neg; cbn in Hn |- *; exact Hn.
Qed.

Lemma int_literal_digits_match_number (s : pystr) (z : Z) (r : pystr) :
  match_number s = Some (PInt z, r) -> (int_digits z <= int_literal_digits s)%nat.
Proof.
  unfold match_number, int_literal_digits.
  destruct (number_sign s) as [neg s1].
  destruct s1 as [|c s2]; [discriminate|].
  destruct (is_digit c); [|discriminate].
  destruct (c =? ch_zero).
  - destruct (number_frac s2) as [fr s4]. destruct (number_exp s4) as [ex s5].
    destruct fr; [|discriminate]. destruct ex; [|discriminate].
    intros H. injection H as <- _.
    apply (int_digits_int_of_text neg [c]). discriminate.
  - destruct (take_digits s2) as [ds r0]. cbn [fst].
    destruct (number_frac r0) as [fr s4]. destruct (number_exp s4) as [ex s5].
    destruct fr; [|discriminate]. destruct ex; [|discriminate].
    intros H. injection H as <- _.
    apply (int_digits_int_of_text neg (c :: ds)). discriminate.
Qed.

Lemma scan_atom_int_number (s : pystr) (z : Z) (r : pystr) :
  scan_atom s = Some (PInt z, r) -> match_number s = Some (PInt z, r).
Proof.
  unfold scan_atom. destruct s as [|c s']; [discriminate|].
  destruct (c =? ch_quote).
  { destruct (scanstring s') as [[? ?]|]; discriminate. }
  unfold or_else, scan_constant.
  repeat match goal with
         | |- context [strip_prefix ?p ?t] => destruct (strip_prefix p t); [discriminate|]
         end.
  exact (fun H => H).
Qed.

Lemma too_many_digits_le (m n : nat) :
  (m <= n)%nat -> too_many_digits n = false -> too_many_digits m = false.
Proof.
  unfold too_many_digits. intros Hle H.
  destruct (0 <? int_max_str_digits); [|reflexivity]. cbn [andb] in *.
  apply N.ltb_ge in H. apply N.ltb_ge. lia.
Qed.

Lemma scan_atom_fits (depth : nat) (s : pystr) (v : pyval) (r : pystr) :
  scan_atom s = Some (v, r) -> conversion_error s v = None -> fits depth v = true.
Proof.
  intros H Hconv. pose proof (scan_atom_kind s v r H) as Hk.
  destruct v as [ | | z | | | | ]; try reflexivity; try contradiction.
  unfold conversion_error in Hconv.
  destruct (too_many_digits (int_literal_digits s)) eqn:E; [discriminate|].
  change (negb (too_many_digits (int_digits z)) = true). apply negb_true_iff.
  apply (too_many_digits_le _ _ (int_literal_digits_match_number s z r
                                   (scan_atom_int_number s z r H)) E).
Qed.

Lemma forallb_dict_of_pairs (q : pystr * pyval -> bool) (pairs : list (pystr * pyval)) :
  forallb q pairs = true -> forallb q (dict_of_pairs pairs) = true.
Proof.
  intros H. apply forallb_forall. apply Forall_forall.
  apply (dict_of_pairs_spec (fun kv => q kv = true)).
  apply Forall_forall. apply forallb_forall. exact H.
Qed.

(** What the scanner returns fits the depth it was given. *)
Lemma scan_fits (fuel : nat) :
  (forall depth s v r, scan_once fuel depth s = Scanned v r -> fits depth v = true)
  /\ (forall depth s xs r, parse_array fuel depth s = Scanned xs r ->
        forallb (fits depth) xs = true)
  /\ (forall depth s kvs r, parse_object fuel depth s = Scanned kvs r ->
        forallb (fun kv => fits depth (snd kv)) kvs = true).
Proof.
  induction fuel as [|n [IHv [IHa IHo]]]; [repeat split; discriminate|].
  split; [|split].
  - intros depth s v r H. rewrite scan_once_S in H.
    destruct s as [|c s']; [discriminate|].
    destruct (c =? ch_lbrace).
    { destruct depth as [|d]; [discriminate|].
      destruct (skip_ws s') as [|c1 s2] eqn:Hws; [discriminate|].
      destruct (c1 =? ch_rbrace).
      - injection H as <- _. reflexivity.
      - destruct (parse_object n d (c1 :: s2)) as [pairs r'| | |] eqn:E; try discriminate.
        injection H as <- _. apply IHo in E.
        change (forallb (fun kv => fits d (snd kv)) (dict_of_pairs pairs) = true).
        apply forallb_dict_of_pairs. exact E. }
    destruct (c =? ch_lbracket).
    { destruct depth as [|d]; [discriminate|].
      destruct (skip_ws s') as [|c1 s2] eqn:Hws; [discriminate|].
      destruct (c1 =? ch_rbracket).
      - injection H as <- _. reflexivity.
      - destruct (parse_array n d (c1 :: s2)) as [xs r'| | |] eqn:E; try discriminate.
        injection H as <- _. exact (IHa _ _ _ _ E). }
    destruct (scan_atom (c :: s')) as [[v' r']|] eqn:E; [|discriminate].
    destruct (conversion_error (c :: s') v') eqn:Hconv; [discriminate|].
    injection H as <- _. exact (scan_atom_fits depth _ _ _ E Hconv).
  - intros depth s xs r H. rewrite parse_array_S in H.
    destruct (scan_once n depth s) as [v r0| | |] eqn:E; try discriminate.
    apply IHv in E.
    destruct (skip_ws r0) as [|c r1]; [discriminate|].
    destruct (c =? ch_rbracket).
    { injection H as <- _. cbn [forallb]. rewrite E. reflexivity. }
    destruct (c =? ch_comma); [|discriminate].
    destruct (parse_array n depth (skip_ws r1)) as [vs r2| | |] eqn:E2; try discriminate.
    injection H as <- _. cbn [forallb]. rewrite E, (IHa _ _ _ _ E2). reflexivity.
  - intros depth s kvs r H. rewrite parse_object_S in H.
    destruct s as [|c s1]; [discriminate|].
    destruct (c =? ch_quote); [|discriminate].
    destruct (scanstring s1) as [[key r0]|]; [|discriminate].
    destruct (skip_ws r0) as [|c2 r1]; [discriminate|].
    destruct (c2 =? ch_colon); [|discriminate].
    destruct (scan_once n depth (skip_ws r1)) as [v r2| | |] eqn:E; try discriminate.
    apply IHv in E.
    destruct (skip_ws r2) as [|c3 r3]; [discriminate|].
    destruct (c3 =? ch_rbrace).
    { injection H as <- _. cbn [forallb snd]. rewrite E. reflexivity. }
    destruct (c3 =? ch_comma); [|discriminate].
    destruct (parse_object n depth (skip_ws r3)) as [kvs' r4| | |] eqn:E2; try discriminate.
    injection H as <- _. cbn [forallb snd]. rewrite E, (IHo _ _ _ _ E2). reflexivity.
Qed.

Lemma json_loads_fits (text : pystr) (v : pyval) :
  json_loads text = Ok v -> fits decoder_depth v = true.
Proof.
  unfold json_loads, decode.
  destruct (scan_once _ _ (skip_ws text)) as [obj r| | |] eqn:E; try discriminate.
  destruct (skip_ws r); [|discriminate]. intros [= <-].
  exact (proj1 (scan_fits _) _ _ _ _ E).
Qed.


Lemma valid_text_suffix (r s : pystr) : suffix r s -> valid_text s = true -> valid_text r = true.
Proof.
  intros Hs. induction Hs; [exact (fun H => H)|].
  unfold valid_text. cbn [forallb]. rewrite andb_true_iff. intros [_ H]. auto.
Qed.

(** Whatever the text, a loaded value repeats no key. *)
Lemma json_loads_unique_keys (text : pystr) (v : pyval) :
  json_loads text = Ok v -> wf_with (fun _ => True) v.
Proof.
  apply (json_loads_wf (fun _ => True) (fun _ => True)); auto.
Qed.

(** A value loaded from Unicode text is well formed. *)
Lemma json_loads_wf_value (text : pystr) (v : pyval) :
  valid_text text = true -> json_loads text = Ok v -> wf_value v.
Proof.
  apply (json_loads_wf (fun s => valid_text s = true) (fun s => valid_str s = true)).
  - exact valid_text_suffix.
  - intros s out r. apply scanstring_valid.
Qed.

(** *** The envelope and the null fields keep values well formed *)

Lemma wf_dict_get (P : pystr -> Prop) (d : dict) (k : pystr) (v : pyval) :
  wf_with P (PDict d) -> dict_get k d = Some v -> wf_with P v.
Proof.
  intros Hwf. inversion Hwf as [| | | | | |? _ Hall]; subst. clear Hwf.
  induction d as [|[k' v'] d IH]; simpl; [discriminate|].
  inversion Hall as [|? ? [_ Hv] Hall']; subst.
  destruct (pystr_eqb k k'); [intros [= <-]; exact Hv | auto].
Qed.

Lemma wf_envelope_result (P : pystr -> Prop) (parsed : pyval) (result : dict) :
  wf_with P parsed -> envelope_result parsed = Some result -> wf_with P (PDict result).
Proof.
  intros Hwf. unfold envelope_result.
  destruct parsed as [ | | | | | |d]; try discriminate.
  destruct (dict_get (py "content") d) as [[ | | | | | |content]|] eqn:E1; try discriminate.
  destruct (dict_get (py "result") content) as [[ | | | | | |res]|] eqn:E2; try discriminate.
  intros [= <-].
  eapply wf_dict_get; [|exact E2]. eapply wf_dict_get; [|exact E1]. exact Hwf.
Qed.

Lemma wf_filter (P : pystr -> Prop) (p : pystr * pyval -> bool) (d : dict) :
  wf_with P (PDict d) -> wf_with P (PDict (filter p d)).
Proof.
  intros Hwf. inversion Hwf as [| | | | | |? Hnd Hall]; subst.
  constructor; [apply keys_filter_nodup; exact Hnd|].
  rewrite Forall_forall in *. intros kv Hin. apply filter_In in Hin. apply Hall, Hin.
Qed.

Lemma wf_unwrap (P : pystr -> Prop) (parsed : pyval) :
  wf_with P parsed -> wf_with P (unwrap parsed).
Proof.
  intros Hwf. unfold unwrap.
  destruct (envelope_result parsed) as [result|] eqn:E; [|exact Hwf].
  pose proof (wf_envelope_result P parsed result Hwf E) as Hr.
  rewrite remove_null_fields_filter; [apply wf_filter; exact Hr|].
  inversion Hr; assumption.
Qed.

(** *** The limits values keep under the envelope and the null fields *)

Lemma fits_le (v : pyval) :
  forall d d', fits d v = true -> (d <= d')%nat -> fits d' v = true.
Proof.
  induction v as [ | b | z | f | s | xs IH | kvs IH] using pyval_ind; intros d d' H Hle;
    try exact H.
  - destruct d as [|d]; [discriminate H|]. destruct d' as [|d']; [lia|].
    cbn [fits] in *. rewrite forallb_forall in *. rewrite Forall_forall in IH.
    intros x Hx. apply (IH x Hx d d'); [apply H; exact Hx | lia].
  - destruct d as [|d]; [discriminate H|]. destruct d' as [|d']; [lia|].
    cbn [fits] in *. rewrite forallb_forall in *. rewrite Forall_forall in IH.
    intros kv Hkv. apply (IH kv Hkv d d'); [apply H; exact Hkv | lia].
Qed.

Lemma fits_dict_get (d : nat) (kvs : dict) (k : pystr) (v : pyval) :
  fits (S d) (PDict kvs) = true -> dict_get k kvs = Some v -> fits d v = true.
Proof.
  cbn [fits]. induction kvs as [|[k' v'] kvs IH]; [discriminate 2|].
  cbn [forallb dict_get snd]. intros H. apply andb_true_iff in H. destruct H as [Hv Hrest].
  destruct (pystr_eqb k k'); [intros [= <-]; exact Hv | exact (IH Hrest)].
Qed.

Lemma forallb_dict_pop (q : pystr * pyval -> bool) (k : pystr) (kvs : dict) :
  forallb q kvs = true -> forallb q (dict_pop k kvs) = true.
Proof.
  induction kvs as [|[k' v'] kvs IH]; [exact (fun H => H)|].
  cbn [forallb dict_pop]. intros H. apply andb_true_iff in H. destruct H as [Hq Hrest].
  destruct (pystr_eqb k k'); [exact Hrest|]. cbn [forallb]. rewrite Hq, (IH Hrest).
  reflexivity.
Qed.

Lemma fits_remove_null_fields (d : nat) (kvs : dict) :
  fits d (PDict kvs) = true -> fits d (PDict (remove_null_fields kvs)) = true.
Proof.
  destruct d as [|d]; [discriminate 1|]. cbn [fits]. intros H.
  unfold remove_null_fields.
  destruct (get_is_None (py "next_token") kvs);
    destruct (get_is_None (py "failed_regions") _);
    repeat apply forallb_dict_pop; exact H.
Qed.

Lemma fits_envelope_result (d : nat) (parsed : pyval) (result : dict) :
  fits d parsed = true -> envelope_result parsed = Some result ->
  fits d (PDict result) = true.
Proof.
  intros Hfit. unfold envelope_result.
  destruct parsed as [ | | | | | |kvs]; try discriminate.
  destruct (dict_get (py "content") kvs) as [[ | | | | | |content]|] eqn:E1;
    try discriminate.
  destruct (dict_get (py "result") content) as [[ | | | | | |res]|] eqn:E2;
    try discriminate.
  intros [= <-].
  destruct d as [|d]; [discriminate Hfit|].
  pose proof (fits_dict_get d kvs _ _ Hfit E1) as Hc.
  destruct d as [|d]; [discriminate Hc|].
  pose proof (fits_dict_get d content _ _ Hc E2) as Hr.
  apply (fits_le (PDict res) d); [exact Hr | lia].
Qed.

Lemma fits_unwrap (d : nat) (parsed : pyval) :
  fits d parsed = true -> fits d (unwrap parsed) = true.
Proof.
  intros Hfit. unfold unwrap.
  destruct (envelope_result parsed) as [result|] eqn:E; [|exact Hfit].
  apply fits_remove_null_fields. exact (fits_envelope_result d parsed result Hfit E).
Qed.

(** A value loaded from Unicode text is well formed, and stays so under
    the unwrap. *)
Lemma json_loads_well_formed (text : pystr) (v : pyval) :
  valid_text text = true -> json_loads text = Ok v -> well_formed v.
Proof.
  intros Hv H. split; [exact (json_loads_wf_value text v Hv H) | exact (json_loads_fits text v H)].
Qed.

Lemma well_formed_unwrap (parsed : pyval) : well_formed parsed -> well_formed (unwrap parsed).
Proof.
  intros [Hwf Hfit]. split; [apply wf_unwrap; exact Hwf | apply fits_unwrap; exact Hfit].
Qed.

(** *** The exceptions of the two library functions *)

Lemma scan_raised (fuel : nat) :
  (forall depth s e, scan_once fuel depth s = Raised e -> limit_error e = true)
  /\ (forall depth s e, parse_array fuel depth s = Raised e -> limit_error e = true)
  /\ (forall depth s e, parse_object fuel depth s = Raised e -> limit_error e = true).
Proof.
  induction fuel as [|n [IHv [IHa IHo]]]; [repeat split; discriminate|].
  split; [|split].
  - intros depth s e H. rewrite scan_once_S in H.
    destruct s as [|c s']; [discriminate|].
    destruct (c =? ch_lbrace).
    { destruct depth as [|d]; [injection H as <-; reflexivity|].
      destruct (skip_ws s') as [|c1 s2]; [discriminate|].
      destruct (c1 =? ch_rbrace); [discriminate|].
      destruct (parse_object n d (c1 :: s2)) eqn:E; try discriminate.
      injection H as <-. exact (IHo _ _ _ E). }
    destruct (c =? ch_lbracket).
    { destruct depth as [|d]; [injection H as <-; reflexivity|].
      destruct (skip_ws s') as [|c1 s2]; [discriminate|].
      destruct (c1 =? ch_rbracket); [discriminate|].
      destruct (parse_array n d (c1 :: s2)) eqn:E; try discriminate.
      injection H as <-. exact (IHa _ _ _ E). }
    destruct (scan_atom (c :: s')) as [[v' r']|]; [|discriminate].
    unfold conversion_error in H.
    destruct v'; try discriminate.
    destruct (too_many_digits _); [|discriminate]. injection H as <-. reflexivity.
  - intros depth s e H. rewrite parse_array_S in H.
    destruct (scan_once n depth s) as [v r0| |e0|] eqn:E; try discriminate.
    + destruct (skip_ws r0) as [|c r1]; [discriminate|].
      destruct (c =? ch_rbracket); [discriminate|].
      destruct (c =? ch_comma); [|discriminate].
      destruct (parse_array n depth (skip_ws r1)) eqn:E2; try discriminate.
      injection H as <-. exact (IHa _ _ _ E2).
    + injection H as <-. exact (IHv _ _ _ E).
  - intros depth s e H. rewrite parse_object_S in H.
    destruct s as [|c s1]; [discriminate|].
    destruct (c =? ch_quote); [|discriminate].
    destruct (scanstring s1) as [[key r0]|]; [|discriminate].
    destruct (skip_ws r0) as [|c2 r1]; [discriminate|].
    destruct (c2 =? ch_colon); [|discriminate].
    destruct (scan_once n depth (skip_ws r1)) as [v r2| |e0|] eqn:E; try discriminate.
    + destruct (skip_ws r2) as [|c3 r3]; [discriminate|].
      destruct (c3 =? ch_rbrace); [discriminate|].
      destruct (c3 =? ch_comma); [|discriminate].
      destruct (parse_object n depth (skip_ws r3)) eqn:E2; try discriminate.
      injection H as <-. exact (IHo _ _ _ E2).
    + injection H as <-. exact (IHv _ _ _ E).
Qed.

(** [json.loads] raises [JSONDecodeError] or an exception of a limit. *)
Lemma json_loads_raises (text : pystr) (e : exn) :
  json_loads text = Raise e -> e = JSONDecodeError \/ limit_error e = true.
Proof.
  unfold json_loads, decode.
  destruct (scan_once _ _ (skip_ws text)) as [obj r| |e0|] eqn:E.
  - destruct (skip_ws r); [discriminate|]. intros [= <-]. left. reflexivity.
  - intros [= <-]. left. reflexivity.
  - intros [= <-]. right. exact (proj1 (scan_raised _) _ _ _ E).
  - intros [= <-]. left. reflexivity.
Qed.

Lemma first_error_map (A : Type) (f : A -> option exn) (l : list A) (e : exn) :
  first_error (List.map f l) = Some e -> exists x, In x l /\ f x = Some e.
Proof.
  induction l as [|x l IH]; [discriminate|]. cbn [List.map first_error].
  destruct (f x) as [e'|] eqn:E.
  - intros [= <-]. exists x. split; [left; reflexivity | exact E].
  - intros H. destruct (IH H) as [y [Hy Hf]]. exists y. split; [right; exact Hy | exact Hf].
Qed.

Lemma encode_error_limit (v : pyval) :
  forall room e, encode_error room v = Some e -> limit_error e = true.
Proof.
  induction v as [ | b | z | f | s | xs IH | kvs IH] using pyval_ind; intros room e;
    cbn [encode_error]; try discriminate.
  - destruct (too_many_digits _); [intros [= <-]; reflexivity | discriminate].
  - destruct (room <? 2)%nat; [intros [= <-]; reflexivity | discriminate].
  - destruct xs as [|x xs].
    { destruct (room <? 1)%nat; [intros [= <-]; reflexivity | discriminate]. }
    destruct room as [|[|r]]; try (intros [= <-]; reflexivity).
    intros H. apply first_error_map in H. destruct H as [y [Hy Hf]].
    rewrite Forall_forall in IH. exact (IH y Hy _ _ Hf).
  - destruct kvs as [|kv kvs].
    { destruct (room <? 1)%nat; [intros [= <-]; reflexivity | discriminate]. }
    destruct room as [|[|r]]; try (intros [= <-]; reflexivity).
    intros H. apply first_error_map in H. destruct H as [y [Hy Hf]].
    rewrite Forall_forall in IH. exact (IH y Hy _ _ Hf).
Qed.

(** [json.dumps] raises nothing but an exception of a limit. *)
Lemma json_dumps_raises (indent : nat) (v : pyval) (e : exn) :
  json_dumps indent v = Raise e -> limit_error e = true.
Proof.
  unfold json_dumps. destruct (encode_error encoder_depth v) as [e'|] eqn:E; [|discriminate].
  intros [= <-]. exact (encode_error_limit v _ _ E).
Qed.

(** *** One text block *)

(** What the [try] block of one text block gives, by the outcome of
    [json.loads]. *)
Lemma render_text_spec (text : pystr) :
  render_text text
  = match json_loads text with
    | Ok parsed => json_dumps 2 (unwrap parsed)
    | Raise JSONDecodeError => Ok text
    | Raise e => Raise e
    end.
Proof.
  unfold render_text. destruct (json_loads text) as [parsed|e] eqn:E; cbn [rbind].
  - destruct (json_dumps 2 (unwrap parsed)) as [out|e] eqn:Ed; [reflexivity|].
    pose proof (json_dumps_raises _ _ _ Ed) as Hl. destruct e; try discriminate Hl; reflexivity.
  - destruct (json_loads_raises text e E) as [-> | Hl]; [reflexivity|].
    destruct e; try discriminate Hl; reflexivity.
Qed.

Lemma render_text_loaded (text : pystr) (parsed : pyval) :
  json_loads text = Ok parsed -> render_text text = json_dumps 2 (unwrap parsed).
Proof. intros H. rewrite render_text_spec, H. reflexivity. Qed.

Lemma render_text_raises (text : pystr) (e : exn) :
  render_text text = Raise e -> limit_error e = true.
Proof.
  rewrite render_text_spec. destruct (json_loads text) as [parsed|e'] eqn:E.
  - apply json_dumps_raises.
  - destruct (json_loads_raises text e' E) as [-> | Hl]; [discriminate|].
    destruct e'; try discriminate Hl; intros [= <-]; reflexivity.
Qed.

Lemma format_content_one (text : pystr) :
  format_content [TextContent text] = render_text text.
Proof.
  rewrite format_content_render_all. cbn [text_payloads render_all rbind].
  destruct (render_text text); reflexivity.
Qed.

Lemma text_payloads_app (a b : list ContentBlock) :
  text_payloads (a ++ b) = text_payloads a ++ text_payloads b.
Proof.
  induction a as [|c a IH]; [reflexivity|].
  destruct c; cbn [List.app text_payloads]; rewrite IH; reflexivity.
Qed.

Lemma render_all_app (a b : list pystr) :
  render_all (a ++ b)
  = rbind (render_all a) (fun la => rbind (render_all b) (fun lb => Ok (la ++ lb))).
Proof.
  induction a as [|t a IH]; cbn [List.app render_all rbind].
  - destruct (render_all b); reflexivity.
  - destruct (render_text t) as [s|e]; cbn [rbind]; [|reflexivity].
    rewrite IH. destruct (render_all a) as [la|e]; cbn [rbind]; [|reflexivity].
    destruct (render_all b); reflexivity.
Qed.

Lemma render_all_length (texts : list pystr) (l : list pystr) :
  render_all texts = Ok l -> List.length l = List.length texts.
Proof.
  revert l. induction texts as [|t texts IH]; intros l; cbn [render_all].
  - intros [= <-]. reflexivity.
  - destruct (render_text t) as [s|e]; cbn [rbind]; [|discriminate].
    destruct (render_all texts) as [l'|e]; cbn [rbind]; [|discriminate].
    intros [= <-]. cbn [List.length]. rewrite (IH l' eq_refl). reflexivity.
Qed.

Lemma render_all_raises (texts : list pystr) (e : exn) :
  render_all texts = Raise e -> exists text, In text texts /\ render_text text = Raise e.
Proof.
  induction texts as [|t texts IH]; cbn [render_all]; [discriminate|].
  destruct (render_text t) as [s|e'] eqn:E; cbn [rbind].
  - destruct (render_all texts) as [l|e'']; cbn [rbind]; [discriminate|].
    intros [= <-]. destruct (IH eq_refl) as [x [Hx Hr]].
    exists x. split; [right; exact Hx | exact Hr].
  - intros [= <-]. exists t. split; [left; reflexivity | exact E].
Qed.

Lemma join_app (sep : pystr) (a b : list pystr) :
  join sep (a ++ b)
  = match a, b with
    | [], _ => join sep b
    | _, [] => join sep a
    | _ :: _, _ :: _ => join sep a ++ sep ++ join sep b
    end.
Proof.
  induction a as [|x a IH]; [reflexivity|].
  destruct b as [|y b]; [rewrite app_nil_r; reflexivity|].
  destruct a as [|x' a].
  - reflexivity.
  - change (join sep ((x :: x' :: a) ++ y :: b))
      with (x ++ sep ++ join sep ((x' :: a) ++ y :: b)).
    rewrite IH.
    change (join sep (x :: x' :: a)) with (x ++ sep ++ join sep (x' :: a)).
    rewrite <- !app_assoc. reflexivity.
Qed.

Lemma dict_get_pop_other (k k' : pystr) (d : dict) :
  pystr_eqb k k' = false -> dict_get k (dict_pop k' d) = dict_get k d.
Proof.
  intros Hne. induction d as [|[k0 v0] d IH]; [reflexivity|]. simpl.
  destruct (pystr_eqb k' k0) eqn:E1.
  - apply pystr_eqb_eq in E1. subst. rewrite Hne. reflexivity.
  - simpl. rewrite IH. reflexivity.
Qed.

Lemma dict_get_remove_null_fields (k : pystr) (d : dict) :
  pystr_eqb k (py "next_token") = false ->
  pystr_eqb k (py "failed_regions") = false ->
  dict_get k (remove_null_fields d) = dict_get k d.
Proof.
  intros H1 H2. unfold remove_null_fields.
  destruct (get_is_None (py "next_token") d);
    destruct (get_is_None (py "failed_regions") _);
    rewrite ?dict_get_pop_other by assumption; reflexivity.
Qed.

(** *** The argument mapping *)

(** The one mapping that can fail is that of a string of filters on which
    [json.loads] raises something else than [JSONDecodeError]. *)
Lemma filters_of_str_spec (s : pystr) :
  filters_of_str s
  = match json_loads s with
    | Ok (PList parsed) => Ok (PList parsed)
    | Ok _ => Ok (PList [PStr s])
    | Raise JSONDecodeError => Ok (PList [PStr s])
    | Raise e => Raise e
    end.
Proof. reflexivity. Qed.

Lemma upstream_args_ok (tc : tool_call) (args : dict) :
  upstream_args tc = Ok args -> NoDup (keys args).
Proof.
  destruct tc as [query [[|t ts]|] | url [i|] [n|] | url | | rt region [|[|c s]|[|x l]]];
    cbn [upstream_args search_args read_args availability_args filters_truthy];
    try (intros [= <-]; distinct_keys).
  unfold filters_of_str.
  destruct (json_loads (c :: s)) as [[ | | | | |xs| ]|[ | | | | | ]]; cbn [rbind];
    try discriminate; intros [= <-]; distinct_keys.
Qed.

Lemma upstream_args_raises (tc : tool_call) (e : exn) :
  upstream_args tc = Raise e ->
  exists resource_type region s,
    tc = GetRegionalAvailability resource_type region (FiltersStr s)
    /\ json_loads s = Raise e /\ limit_error e = true.
Proof.
  destruct tc as [query [[|t ts]|] | url [i|] [n|] | url | | rt region [|[|c s]|[|x l]]];
    cbn [upstream_args search_args read_args availability_args filters_truthy];
    try discriminate.
  unfold filters_of_str.
  destruct (json_loads (c :: s)) as [[ | | | | |xs| ]|e'] eqn:E; cbn [rbind];
    try discriminate.
  destruct (json_loads_raises _ _ E) as [-> | Hl]; [discriminate|].
  destruct e'; try discriminate Hl; intros [= <-]; eauto 6.
Qed.

End Properties.


(** * The model at concrete payloads *)

(** The payloads below are small: they nest no deeper than [min_depth] and
    their integers have one digit, so every interpreter gives the same
    result for them. *)
Ltac run_interpreter F :=
  let dd := fresh "dd" in
  let ed := fresh "ed" in
  let lim := fresh "lim" in
  let Hdd := fresh "Hdd" in
  let Hed := fresh "Hed" in
  destruct F as [? ? ? ? ? ? lim dd ed ? Hdd Hed];
  unfold min_depth in Hdd, Hed;
  do 8 (destruct dd as [|dd]; [exfalso; lia|]);
  do 8 (destruct ed as [|ed]; [exfalso; lia|]);
  destruct lim as [|[?|?|]]; vm_compute; reflexivity.

Lemma envelope_examples (F : Interpreter) :
  format_content [TextContent (jtext "{'content': {'result': {'a': 1}}}")]
  = Ok (jtext "{
  'a': 1
}")
  /\ format_content [TextContent (jtext "{'content': {'result': 'not-an-object'}}")]
     = Ok (jtext "{
  'content': {
    'result': 'not-an-object'
  }
}").
Proof. split; run_interpreter F. Qed.


(** * The statements of the specification *)

Section Statements.
Context {F : Interpreter}.


(** C2, as the code has it.  For every text block whose payload parses:
    when the parsed value is a [content.result] envelope, what is rendered
    is the [result] object without exactly those entries whose key is
    [next_token] or [failed_regions] and whose value is null, every other
    entry kept in place with its value; when it is not an envelope, the
    parsed value is rendered as it is, null fields included. *)
Theorem null_fields_removed_from_envelope (text : pystr) (parsed : pyval) :
  json_loads text = Ok parsed ->
  format_content [TextContent text]
  = json_dumps 2
      (match envelope_result parsed with
       | Some result => PDict (filter (fun kv => negb (is_null_field kv)) result)
       | None => parsed
       end).
Proof.
  intros Hload. rewrite format_content_one, (render_text_loaded text parsed Hload).
  unfold unwrap. destruct (envelope_result parsed) as [result|] eqn:E; [|reflexivity].
  rewrite remove_null_fields_filter; [reflexivity|].
  pose proof (wf_envelope_result _ parsed result (json_loads_unique_keys text parsed Hload) E)
    as Hwf.
  inversion Hwf; assumption.
Qed.


(** C4.  For every tool and every behaviour of the upstream -- whether the
    acquisition, the argument mapping, the call, the normalisation or
    nothing fails -- one invocation calls the exit stack's [aclose] exactly
    once, closes each resource as often as it opened it, and leaves the
    stack empty. *)
Theorem release_exactly_once (U : Upstream) (tc : tool_call) :
  let st := snd (invoke (handle U tc)) in
  count is_released (trace st) = 1%nat
  /\ (forall r, count (is_opened r) (trace st) = count (is_closed r) (trace st))
  /\ stack st = [].
Proof.
  destruct (acquisition U) as [[]|e] eqn:Hacq.
  - rewrite (invoke_handle_ok U tc Hacq). cbn [snd trace stack].
    split; [|split].
    + rewrite !count_app, body_events_count by reflexivity. reflexivity.
    + intros r. rewrite !count_app, !body_events_count by reflexivity.
      destruct r; reflexivity.
    + reflexivity.
  - rewrite (invoke_handle_raise U tc e Hacq). cbn [snd trace stack].
    unfold entered.
    destruct (connect U); [destruct (open_session U)|];
      (split; [reflexivity | split; [intros r; destruct r; reflexivity | reflexivity]]).
Qed.

(** C5.  [result] replaces the working value exactly when the parsed value
    is an object whose [content] is an object whose [result] is the object
    [result]; for a text block what is rendered is the unwrapped object in
    that case and the parsed value otherwise.  The envelope around
    [{"a": 1}] renders as that object with a two-space indent, and an
    envelope whose [result] is a string renders whole. *)
Theorem envelope_unwrap_iff (parsed : pyval) (result : dict) :
  (envelope_result parsed = Some result
   <-> exists d content,
         parsed = PDict d
         /\ dict_get (py "content") d = Some (PDict content)
         /\ dict_get (py "result") content = Some (PDict result))
  /\ (forall text,
        json_loads text = Ok parsed ->
        format_content [TextContent text]
        = json_dumps 2 (match envelope_result parsed with
                        | Some r => PDict (remove_null_fields r)
                        | None => parsed
                        end))
  /\ format_content [TextContent (jtext "{'content': {'result': {'a': 1}}}")]
     = Ok (jtext "{
  'a': 1
}")
  /\ format_content [TextContent (jtext "{'content': {'result': 'not-an-object'}}")]
     = Ok (jtext "{
  'content': {
    'result': 'not-an-object'
  }
}").
Proof.
  split; [|split; [|exact (envelope_examples F)]].
  - unfold envelope_result. split.
    + destruct parsed as [ | | | | | |d]; try discriminate.
      destruct (dict_get (py "content") d) as [[ | | | | | |content]|] eqn:E1;
        try discriminate.
      destruct (dict_get (py "result") content) as [[ | | | | | |res]|] eqn:E2;
        try discriminate.
      intros [= <-]. eauto.
    + intros [d [content [-> [-> ->]]]]. reflexivity.
  - intros text H. rewrite format_content_one, (render_text_loaded text parsed H).
    reflexivity.
Qed.

Section Idempotence.
Context {L : FloatLaws}.

(** C8.  Rendering is idempotent: [json.loads] reads the indented
    rendering of a well-formed value back as a value that renders to the
    same string; in particular this holds for what [format_content] gives
    for a text block of Unicode text that parses. *)
Theorem rendering_idempotent :
  (forall v out, well_formed v -> json_dumps 2 v = Ok out ->
     exists v', json_loads out = Ok v' /\ json_dumps 2 v' = Ok out)
  /\ (forall text parsed out,
        valid_text text = true ->
        json_loads text = Ok parsed ->
        format_content [TextContent text] = Ok out ->
        exists v', json_loads out = Ok v' /\ json_dumps 2 v' = Ok out).
Proof.
  split.
  - intros v out Hwf Hout. exists v. split; [exact (loads_dumps 2 v out Hwf Hout) | exact Hout].
  - intros text parsed out Hv Hload Hout.
    rewrite format_content_one, (render_text_loaded text parsed Hload) in Hout.
    exists (unwrap parsed). split; [|exact Hout].
    apply (loads_dumps 2 (unwrap parsed) out); [|exact Hout].
    apply well_formed_unwrap. exact (json_loads_well_formed text parsed Hv Hload).
Qed.

End Idempotence.

(** C9.  The envelope is removed once: when the parsed value is an
    envelope, what is rendered is its [result] object (less the null
    fields), in which the [content] entry is untouched, so that a [result]
    which is itself an envelope is rendered as that envelope. *)
Theorem envelope_unwrapped_once (text : pystr) (parsed : pyval) (result : dict) :
  json_loads text = Ok parsed ->
  envelope_result parsed = Some result ->
  format_content [TextContent text] = json_dumps 2 (PDict (remove_null_fields result))
  /\ dict_get (py "content") (remove_null_fields result) = dict_get (py "content") result
  /\ envelope_result (PDict (remove_null_fields result)) = envelope_result (PDict result).
Proof.
  intros Hload Henv. split; [|split].
  - rewrite format_content_one, (render_text_loaded text parsed Hload).
    unfold unwrap. rewrite Henv. reflexivity.
  - apply dict_get_remove_null_fields; reflexivity.
  - unfold envelope_result.
    rewrite dict_get_remove_null_fields by reflexivity. reflexivity.
Qed.

(** C10.  An empty string as [filters] is falsy: the argument set, and
    with it the whole invocation, is the one of an omitted [filters], with
    no [filters] key. *)
Theorem empty_string_filters_omitted (U : Upstream) (resource_type region : pystr) :
  filters_truthy (FiltersStr []) = false
  /\ availability_args resource_type region (FiltersStr [])
     = Ok [(py "resource_type", PStr resource_type); (py "region", PStr region)]
  /\ availability_args resource_type region (FiltersStr [])
     = availability_args resource_type region FiltersNone
  /\ get_regional_availability U resource_type region (FiltersStr [])
     = get_regional_availability U resource_type region FiltersNone.
Proof. repeat split. Qed.

End Statements.

(** * The statements at concrete inputs *)

(** The integral floats satisfy the float law. *)

Lemma whole_floats_laws : @FloatLaws whole_floats.
Proof.
  constructor. intros [ | | |z]; try reflexivity.
  cbn [floatstr whole_floats wfloat_str].
  pose proof (int_of_text_int_repr z) as H. unfold int_repr.
  assert (Hgen : forall neg d, canonical d = true ->
            int_of_text neg (uint_chars d) = z ->
            @scan_atom whole_floats
              (((if neg then [ch_minus] else []) ++ uint_chars d) ++ py ".0")
            = Some (@PFloat whole_floats (FWhole z), [])).
  { intros neg d Hc Hz. rewrite <- app_assoc.
    assert (Hnum : @match_number whole_floats
                     ((if neg then [ch_minus] else []) ++ uint_chars d ++ py ".0")
                   = Some (@PFloat whole_floats (FWhole z), [])).
    { rewrite (@match_number_canonical whole_floats neg d (py ".0") Hc eq_refl).
      cbn [number_frac]. change (number_frac (py ".0")) with (py ".0", @nil N).
      cbv iota. change (number_exp []) with (@nil N, @nil N). cbv iota.
      cbn [parse_float whole_floats]. unfold wfloat_parse.
      rewrite app_nil_r.
      rewrite (number_sign_canonical neg d (py ".0") Hc).
      rewrite (take_digits_uint_chars d (py ".0") eq_refl), Hz. reflexivity. }
    rewrite <- Hnum.
    destruct (uint_chars_head d Hc) as [c [t [Hd Hdig]]]. rewrite Hd.
    destruct neg; cbn [List.app].
    - apply (@scan_atom_minus whole_floats). exact Hdig.
    - apply (@scan_atom_digit whole_floats). exact Hdig. }
  destruct (Z.to_int z) as [d|d]; destruct H as [Hc Hz].
  - exact (Hgen false d Hc Hz).
  - exact (Hgen true d Hc Hz).
Qed.



(** C2 as stated fails: an object that is not an envelope keeps its null
    [next_token]. *)
Lemma null_field_kept_without_envelope :
  @format_content whole_floats
    [TextContent (jtext "{'next_token': null, 'failed_regions': ['x']}")]
  = Ok (jtext "{
  'next_token': null,
  'failed_regions': [
    'x'
  ]
}").
Proof. vm_compute. reflexivity. Qed.

(** C2 at an envelope with a null [next_token] and a non-null
    [failed_regions]. *)
Lemma null_fields_removed_witness :
  @json_loads whole_floats
    (jtext "{'content': {'result': {'next_token': null, 'failed_regions': ['x']}}}")
  = Ok (PDict [(py "content",
                PDict [(py "result",
                        PDict [(py "next_token", PNone);
                               (py "failed_regions", PList [PStr (py "x")])])])])
  /\ @format_content whole_floats
       [TextContent
          (jtext "{'content': {'result': {'next_token': null, 'failed_regions': ['x']}}}")]
     = Ok (jtext "{
  'failed_regions': [
    'x'
  ]
}").
Proof.
  assert (H : @json_loads whole_floats
    (jtext "{'content': {'result': {'next_token': null, 'failed_regions': ['x']}}}")
  = Ok (PDict [(py "content",
                PDict [(py "result",
                        PDict [(py "next_token", PNone);
                               (py "failed_regions", PList [PStr (py "x")])])])]))
    by (vm_compute; reflexivity).
  split; [exact H|].
  rewrite (null_fields_removed_from_envelope _ _ H). vm_compute. reflexivity.
Defined.


(** C5 at the envelope around an object. *)
Lemma envelope_unwrap_witness :
  @json_loads whole_floats (jtext "{'content': {'result': {'a': 1}}}")
  = Ok (PDict [(py "content", PDict [(py "result", PDict [(py "a", PInt 1)])])])
  /\ @envelope_result whole_floats
       (PDict [(py "content", PDict [(py "result", PDict [(py "a", PInt 1)])])])
     = Some [(py "a", PInt 1)]
  /\ @format_content whole_floats [TextContent (jtext "{'content': {'result': {'a': 1}}}")]
     = @json_dumps whole_floats 2 (PDict [(py "a", PInt 1)]).
Proof.
  assert (H : @json_loads whole_floats (jtext "{'content': {'result': {'a': 1}}}")
              = Ok (PDict [(py "content",
                            PDict [(py "result", PDict [(py "a", PInt 1)])])]))
    by (vm_compute; reflexivity).
  split; [exact H|]. split.
  - apply (proj1 (@envelope_unwrap_iff whole_floats _ _)).
    eexists _, _. repeat split.
  - exact (proj1 (proj2 (@envelope_unwrap_iff whole_floats _ [])) _ H).
Defined.

(** C6 fails at a text block after which comes one whose integer has 4301
    digits: nothing is joined, [format_content] raises what [json.loads]
    raised. *)
Theorem format_content_stops_at_failing_block :
  @format_content whole_floats [TextContent (py "first"); TextContent long_integer]
  = Raise (ValueError (py "Exceeds the limit (4300 digits) for integer string conversion: value has 4301 digits; use sys.set_int_max_str_digits() to increase the limit")).
Proof. vm_compute. reflexivity. Qed.

(** C7 fails at a text block whose payload is an integer of 4301 digits,
    and at one whose payload is a thousand opening brackets:
    [format_content] raises the [ValueError], and the [RecursionError],
    that [json.loads] raised. *)
Theorem format_content_raises_beyond_limits :
  @format_content whole_floats [TextContent long_integer]
  = Raise (ValueError (py "Exceeds the limit (4300 digits) for integer string conversion: value has 4301 digits; use sys.set_int_max_str_digits() to increase the limit"))
  /\ @format_content whole_floats [TextContent deep_brackets]
     = Raise (RecursionError (py "maximum recursion depth exceeded while decoding a JSON array from a unicode string")).
Proof. split; vm_compute; reflexivity. Qed.

(** C8 with the integral floats, at an envelope holding a list. *)
Lemma rendering_idempotent_witness :
  valid_text (jtext "{'content': {'result': {'a': [1, 2.0, 'x']}}}") = true
  /\ @json_loads whole_floats (jtext "{'content': {'result': {'a': [1, 2.0, 'x']}}}")
     = Ok (PDict [(py "content",
             PDict [(py "result",
               PDict [(py "a", PList [PInt 1; @PFloat whole_floats (FWhole 2);
                                      PStr (py "x")])])])])
  /\ @format_content whole_floats
       [TextContent (jtext "{'content': {'result': {'a': [1, 2.0, 'x']}}}")]
     = Ok (jtext "{
  'a': [
    1,
    2.0,
    'x'
  ]
}")
  /\ exists v', @json_loads whole_floats (jtext "{
  'a': [
    1,
    2.0,
    'x'
  ]
}") = Ok v'
       /\ @json_dumps whole_floats 2 v' = Ok (jtext "{
  'a': [
    1,
    2.0,
    'x'
  ]
}").
Proof.
  split; [reflexivity|].
  assert (H : @json_loads whole_floats (jtext "{'content': {'result': {'a': [1, 2.0, 'x']}}}")
              = Ok (PDict [(py "content",
                      PDict [(py "result",
                        PDict [(py "a", PList [PInt 1; @PFloat whole_floats (FWhole 2);
                                               PStr (py "x")])])])]))
    by (vm_compute; reflexivity).
  split; [exact H|].
  assert (Hout : @format_content whole_floats
       [TextContent (jtext "{'content': {'result': {'a': [1, 2.0, 'x']}}}")]
     = Ok (jtext "{
  'a': [
    1,
    2.0,
    'x'
  ]
}")) by (vm_compute; reflexivity).
  split; [exact Hout|].
  exact (proj2 (@rendering_idempotent whole_floats whole_floats_laws)
           (jtext "{'content': {'result': {'a': [1, 2.0, 'x']}}}") _ _ eq_refl H Hout).
Defined.

(** C9 at an envelope inside an envelope. *)
Lemma envelope_unwrapped_once_witness :
  @json_loads whole_floats
    (jtext "{'content': {'result': {'content': {'result': {'a': 1}}}}}")
  = Ok (PDict [(py "content",
          PDict [(py "result",
            PDict [(py "content", PDict [(py "result", PDict [(py "a", PInt 1)])])])])])
  /\ @format_content whole_floats
       [TextContent (jtext "{'content': {'result': {'content': {'result': {'a': 1}}}}}")]
     = Ok (jtext "{
  'content': {
    'result': {
      'a': 1
    }
  }
}").
Proof.
  assert (H : @json_loads whole_floats
    (jtext "{'content': {'result': {'content': {'result': {'a': 1}}}}}")
  = Ok (PDict [(py "content",
          PDict [(py "result",
            PDict [(py "content", PDict [(py "result", PDict [(py "a", PInt 1)])])])])]))
    by (vm_compute; reflexivity).
  split; [exact H|].
  rewrite (proj1 (envelope_unwrapped_once _ _
                    [(py "content", PDict [(py "result", PDict [(py "a", PInt 1)])])]
                    H eq_refl)).
  vm_compute. reflexivity.
Defined.

(** * Further properties of the code *)

(** Three blocks, the second an image, on every interpreter. *)
Lemma joining_example (F : Interpreter) :
  format_content [TextContent (py "first"); ImageContent (py "aGk=") (py "image/png");
                  TextContent (py "[1]")]
  = Ok (py "first
[
  1
]").
Proof. run_interpreter F. Qed.

Section Further.
Context {F : Interpreter}.

(** ** Helper lemmas *)

Lemma body_events_cases (tc : tool_call) :
  body_events tc = []
  \/ exists args, body_events tc = [Called (upstream_name tc) args].
Proof.
  unfold body_events. destruct (upstream_args tc) as [args|e]; [right; eauto | left; reflexivity].
Qed.

Lemma is_ascii_app (a b : pystr) : is_ascii (a ++ b) = is_ascii a && is_ascii b.
Proof. apply forallb_app. Qed.

Lemma hex_digit_ascii (n : N) : (hex_digit (n mod 16) <? 128) = true.
Proof.
  pose proof (N.mod_upper_bound n 16 ltac:(discriminate)) as H.
  unfold hex_digit. apply N.ltb_lt.
  destruct (N.ltb_spec (n mod 16) 10); lia.
Qed.

Lemma u_escape_ascii (n : N) : is_ascii (u_escape n) = true.
Proof.
  unfold u_escape, is_ascii. cbn [forallb].
  rewrite !hex_digit_ascii. reflexivity.
Qed.

Lemma escape_char_ascii (c : N) : is_ascii (escape_char c) = true.
Proof.
  unfold escape_char.
  repeat match goal with
         | |- context [if ?b then _ else _] => destruct b eqn:?; [try reflexivity|]
         end.
  - apply andb_true_iff in Heqb6. destruct Heqb6 as [_ H].
    apply N.leb_le in H. unfold is_ascii. cbn [forallb].
    rewrite andb_true_r. apply N.ltb_lt. lia.
  - apply u_escape_ascii.
  - rewrite is_ascii_app, !u_escape_ascii. reflexivity.
Qed.

Lemma flat_map_ascii (s : pystr) : is_ascii (flat_map escape_char s) = true.
Proof.
  induction s as [|c s IH]; [reflexivity|].
  cbn [flat_map]. rewrite is_ascii_app, escape_char_ascii, IH. reflexivity.
Qed.

Lemma encode_basestring_ascii_ascii (s : pystr) :
  is_ascii (encode_basestring_ascii s) = true.
Proof.
  unfold encode_basestring_ascii.
  change (ch_quote :: flat_map escape_char s ++ [ch_quote])
    with ([ch_quote] ++ flat_map escape_char s ++ [ch_quote]).
  rewrite !is_ascii_app, flat_map_ascii. reflexivity.
Qed.

Lemma uint_chars_ascii (d : uint) : is_ascii (uint_chars d) = true.
Proof. induction d; [reflexivity | exact IHd ..]. Qed.

Lemma int_repr_ascii (z : Z) : is_ascii (int_repr z) = true.
Proof. unfold int_repr. destruct (Z.to_int z); apply uint_chars_ascii. Qed.

Lemma newline_indent_ascii (indent level : nat) :
  is_ascii (newline_indent indent level) = true.
Proof.
  unfold newline_indent. generalize (indent * level)%nat. intros n.
  induction n as [|n IH]; [reflexivity | exact IH].
Qed.

Lemma join_ascii (sep : pystr) (parts : list pystr) :
  is_ascii sep = true ->
  Forall (fun p => is_ascii p = true) parts ->
  is_ascii (join sep parts) = true.
Proof.
  intros Hsep Hparts. induction Hparts as [|p parts Hp _ IH]; [reflexivity|].
  destruct parts as [|q parts]; [exact Hp|].
  change (join sep (p :: q :: parts)) with (p ++ sep ++ join sep (q :: parts)).
  rewrite !is_ascii_app, Hp, Hsep, IH. reflexivity.
Qed.

Lemma iterencode_ascii (indent : nat) (v : pyval) :
  (forall f, is_ascii (floatstr f) = true) ->
  forall level, is_ascii (iterencode indent level v) = true.
Proof.
  intros Hfloat. induction v as [ |b|z|f|s|xs IH|kvs IH] using pyval_ind; intros level.
  - reflexivity.
  - destruct b; reflexivity.
  - apply int_repr_ascii.
  - apply Hfloat.
  - apply encode_basestring_ascii_ascii.
  - destruct xs as [|x xs]; [reflexivity|].
    rewrite iterencode_list.
    change (ch_lbracket :: ?t) with ([ch_lbracket] ++ t).
    rewrite !is_ascii_app, !newline_indent_ascii.
    rewrite join_ascii; [reflexivity | apply newline_indent_ascii |].
    apply Forall_map. revert IH. apply Forall_impl. intros a Ha. apply Ha.
  - destruct kvs as [|kv kvs]; [reflexivity|].
    rewrite iterencode_dict.
    change (ch_lbrace :: ?t) with ([ch_lbrace] ++ t).
    rewrite !is_ascii_app, !newline_indent_ascii.
    rewrite join_ascii; [reflexivity | apply newline_indent_ascii |].
    apply Forall_map. revert IH. apply Forall_impl. intros a Ha.
    unfold encode_item. rewrite !is_ascii_app, encode_basestring_ascii_ascii, Ha.
    reflexivity.
Qed.

Lemma json_dumps_ascii (indent : nat) (v : pyval) (out : pystr) :
  (forall f, is_ascii (floatstr f) = true) ->
  json_dumps indent v = Ok out -> is_ascii out = true.
Proof.
  intros Hfloat. unfold json_dumps. destruct (encode_error encoder_depth v); [discriminate|].
  intros [= <-]. apply iterencode_ascii. exact Hfloat.
Qed.

(** ** The tool handlers *)

(** X1.  [search_documentation], once the session is acquired, issues one
    upstream call, to [aws___search_documentation].  Its argument set holds
    the query under [search_phrase] and has no [query] key; it holds
    [topics] exactly when the caller gave a non-empty list, which is passed
    on as it is.  No other key is sent, and an empty list of topics is the
    same invocation as no topics. *)
Theorem search_documentation_call (U : Upstream) (query : pystr)
    (topics : option (list pystr)) :
  acquisition U = Ok tt ->
  (exists args,
     calls (trace (snd (invoke (search_documentation U query topics))))
     = [(py "aws___search_documentation", args)]
     /\ dict_get (py "search_phrase") args = Some (PStr query)
     /\ dict_get (py "query") args = None
     /\ dict_get (py "topics") args
        = match topics with
          | Some (t :: ts) => Some (PList (List.map PStr (t :: ts)))
          | Some [] => None
          | None => None
          end
     /\ forall k, In k (keys args) -> k = py "search_phrase" \/ k = py "topics")
  /\ search_documentation U query (Some []) = search_documentation U query None.
Proof.
  intros Hacq. split; [|reflexivity].
  exists (search_args query topics).
  pose proof (invoke_handle_ok U (SearchDocumentation query topics) Hacq) as H.
  cbn [handle] in H. rewrite H. cbn [snd trace].
  split; [reflexivity|].
  destruct topics as [[|t ts]|]; (split; [reflexivity|]); (split; [reflexivity|]);
    (split; [reflexivity|]); intros k Hk; vm_compute in Hk; intuition.
Qed.

(** X2.  [read_documentation], once the session is acquired, issues one
    upstream call, to [aws___read_documentation].  Its argument set holds
    the url, and holds [start_index] and [max_length] exactly when the
    caller provided them, with the value provided: the test is for [None],
    so a zero is passed on. *)
Theorem read_documentation_call (U : Upstream) (url : pystr)
    (start_index max_length : option Z) :
  acquisition U = Ok tt ->
  exists args,
    calls (trace (snd (invoke (read_documentation U url start_index max_length))))
    = [(py "aws___read_documentation", args)]
    /\ dict_get (py "url") args = Some (PStr url)
    /\ dict_get (py "start_index") args = option_map PInt start_index
    /\ dict_get (py "max_length") args = option_map PInt max_length
    /\ forall k, In k (keys args) ->
         k = py "url" \/ k = py "start_index" \/ k = py "max_length".
Proof.
  intros Hacq. exists (read_args url start_index max_length).
  pose proof (invoke_handle_ok U (ReadDocumentation url start_index max_length) Hacq) as H.
  cbn [handle] in H. rewrite H. cbn [snd trace].
  split; [reflexivity|].
  destruct start_index as [i|]; destruct max_length as [n|];
    (split; [reflexivity|]); (split; [reflexivity|]); (split; [reflexivity|]);
    intros k Hk; vm_compute in Hk; intuition.
Qed.

(** X3.  For every tool, an invocation issues at most one upstream call and
    never a second attempt: exactly one, to the tool's upstream name with
    the mapped argument set, when the session is acquired and the argument
    mapping succeeds, and none when either fails.  A mapped argument set
    repeats no key.  The mapping fails only in [get_regional_availability],
    on a [filters] string at which [json.loads] raises an exception that is
    not a [JSONDecodeError]. *)
Theorem one_upstream_call (U : Upstream) (tc : tool_call) :
  calls (trace (snd (invoke (handle U tc))))
  = match acquisition U, upstream_args tc with
    | Ok _, Ok args => [(upstream_name tc, args)]
    | _, _ => []
    end
  /\ (forall args, upstream_args tc = Ok args -> NoDup (keys args))
  /\ (forall e, upstream_args tc = Raise e ->
        e <> JSONDecodeError
        /\ exists resource_type region s,
             tc = GetRegionalAvailability resource_type region (FiltersStr s)
             /\ json_loads s = Raise e).
Proof.
  split; [|split].
  - destruct (acquisition U) as [[]|e] eqn:Hacq.
    + rewrite (invoke_handle_ok U tc Hacq). cbn [snd trace].
      unfold body_events. destruct (upstream_args tc); reflexivity.
    + rewrite (invoke_handle_raise U tc e Hacq). cbn [snd trace].
      unfold entered. destruct (connect U); [destruct (open_session U)|]; reflexivity.
  - exact (upstream_args_ok tc).
  - intros e He.
    destruct (upstream_args_raises tc e He) as [rt [region [s [Htc [Hl Hlim]]]]].
    split; [intros ->; discriminate Hlim|]. eauto.
Qed.

(** ** The connection scope *)

(** X4.  Within one invocation, for every tool and every behaviour of the
    upstream: the resources are closed in the reverse of the order they
    were opened in; nothing is closed before the release and nothing is
    opened or called after it; and a call is issued only after both
    resources were opened and the session was initialised. *)
Theorem scope_events_in_order (U : Upstream) (tc : tool_call) :
  let tr := trace (snd (invoke (handle U tc))) in
  closed_resources tr = rev (opened_resources tr)
  /\ exists before after,
       tr = before ++ Released :: after
       /\ closed_resources before = []
       /\ opened_resources after = []
       /\ calls after = []
       /\ (calls before = []
           \/ exists b1 b2,
                before = b1 ++ Initialized :: b2
                /\ opened_resources b1 = [Transport; Session]
                /\ calls b1 = []
                /\ opened_resources b2 = []).
Proof.
  destruct (acquisition U) as [[]|e] eqn:Hacq.
  - rewrite (invoke_handle_ok U tc Hacq). cbn [snd trace].
    destruct (body_events_cases tc) as [->|[args ->]].
    + split; [reflexivity|].
      exists [Opened Transport; Opened Session; Initialized],
             [Closed Session; Closed Transport].
      split; [reflexivity|]. split; [reflexivity|]. split; [reflexivity|].
      split; [reflexivity|]. left. reflexivity.
    + split; [reflexivity|].
      exists [Opened Transport; Opened Session; Initialized;
              Called (upstream_name tc) args],
             [Closed Session; Closed Transport].
      split; [reflexivity|]. split; [reflexivity|]. split; [reflexivity|].
      split; [reflexivity|]. right.
      exists [Opened Transport; Opened Session], [Called (upstream_name tc) args].
      repeat split.
  - rewrite (invoke_handle_raise U tc e Hacq). cbn [snd trace].
    split.
    + unfold entered. destruct (connect U); [destruct (open_session U)|]; reflexivity.
    + exists (List.map Opened (rev (entered U))),
             (List.map Closed (entered U)
              ++ [Logged (py "Failed to connect to AWS MCP: " ++ exn_str e)]).
      split; [reflexivity|].
      unfold entered. destruct (connect U); [destruct (open_session U)|];
        (split; [reflexivity|]); (split; [reflexivity|]); (split; [reflexivity|]);
        left; reflexivity.
Qed.




(** ** [format_content] *)

(** X8.  [format_content] of two sequences put together is made of their
    two results.  When both return, so does the whole: their results
    joined by one line feed when both hold a text block, and the result of
    the other one when one of them holds none; a text block counts even
    when it renders to the empty string.  When the first raises, or the
    first returns and the second raises, the whole raises that
    exception. *)
Theorem format_content_app (a b : list ContentBlock) :
  (forall ra rb,
     format_content a = Ok ra ->
     format_content b = Ok rb ->
     format_content (a ++ b)
     = Ok (match text_payloads a, text_payloads b with
           | [], _ => rb
           | _ :: _, [] => ra
           | _ :: _, _ :: _ => ra ++ [10] ++ rb
           end))
  /\ (forall e, format_content a = Raise e -> format_content (a ++ b) = Raise e)
  /\ (forall ra e,
        format_content a = Ok ra ->
        format_content b = Raise e ->
        format_content (a ++ b) = Raise e).
Proof.
  rewrite !format_content_render_all, text_payloads_app, render_all_app.
  destruct (render_all (text_payloads a)) as [la|ea] eqn:Ea;
    destruct (render_all (text_payloads b)) as [lb|eb] eqn:Eb; cbn [rbind];
    (split; [|split]); try discriminate; try (intros; assumption).
  - intros ra rb [= <-] [= <-]. rewrite join_app.
    pose proof (render_all_length _ _ Ea) as Ha.
    pose proof (render_all_length _ _ Eb) as Hb.
    destruct (text_payloads a), (text_payloads b), la, lb; try discriminate;
      reflexivity.
Qed.

(** X9.  What [json.dumps] returns is ASCII only, provided floats print in
    ASCII: every character of a string outside the printable ASCII range is
    written as an escape.  So what [format_content] returns for a text
    block whose payload parses is ASCII only, while a payload that
    [json.loads] rejects with a [JSONDecodeError] is returned with its
    characters as they are. *)
Theorem rendering_is_ascii :
  (forall f, is_ascii (floatstr f) = true) ->
  (forall indent v out, json_dumps indent v = Ok out -> is_ascii out = true)
  /\ (forall text parsed out,
        json_loads text = Ok parsed ->
        format_content [TextContent text] = Ok out ->
        is_ascii out = true)
  /\ (forall text,
        json_loads text = Raise JSONDecodeError ->
        format_content [TextContent text] = Ok text).
Proof.
  intros Hfloat. split; [|split].
  - intros indent v out. apply json_dumps_ascii. exact Hfloat.
  - intros text parsed out Hload Hout.
    rewrite format_content_one, (render_text_loaded text parsed Hload) in Hout.
    exact (json_dumps_ascii 2 _ out Hfloat Hout).
  - intros text Hload. rewrite format_content_one, render_text_spec, Hload. reflexivity.
Qed.

(** X14.  What [format_content] does, block by block.  The empty sequence
    gives the empty string; a block that is not a text block changes
    nothing; a text block is rendered, then the rest, and the rendering is
    put in front of the rest's result, with one line feed between them
    when the rest holds a text block.  The first rendering that raises ends
    the loop with its exception.  So the result, when there is one, is the
    renderings of the text blocks in their order with one line feed between
    two neighbours. *)
Theorem format_content_joins_text_blocks :
  format_content [] = Ok []
  /\ (forall c rest,
        pystr_eqb (block_type c) (py "text") = false ->
        format_content (c :: rest) = format_content rest)
  /\ (forall text rest,
        format_content (TextContent text :: rest)
        = match render_text text with
          | Raise e => Raise e
          | Ok r =>
              match format_content rest with
              | Raise e => Raise e
              | Ok out =>
                  Ok (match text_payloads rest with
                      | [] => r
                      | _ :: _ => r ++ 10 :: out
                      end)
              end
          end)
  /\ (forall before after,
        text_payloads (before ++ after) = text_payloads before ++ text_payloads after)
  /\ format_content [TextContent (py "first"); ImageContent (py "aGk=") (py "image/png");
                     TextContent (py "[1]")]
     = Ok (py "first
[
  1
]").
Proof.
  split; [reflexivity|]. split; [|split; [|split]].
  - intros c rest Hc. rewrite !format_content_render_all.
    destruct c; try reflexivity. discriminate Hc.
  - intros text rest. rewrite !format_content_render_all.
    cbn [text_payloads render_all].
    destruct (render_text text) as [r|e]; [|reflexivity]. cbn [rbind].
    destruct (render_all (text_payloads rest)) as [l|e] eqn:E; [|reflexivity].
    cbn [rbind]. pose proof (render_all_length _ _ E) as Hl.
    destruct (text_payloads rest), l; try discriminate; reflexivity.
  - exact text_payloads_app.
  - exact (joining_example F).
Qed.

(** X15.  What [format_content] can raise: only what [json.loads] or
    [json.dumps] raised on one of its text blocks, which is never a
    [JSONDecodeError] or a [TypeError] -- those are caught -- but a
    [ValueError] or a [RecursionError] of the interpreter's limits.  A
    sequence without a text block never raises. *)
Theorem format_content_failures (content : list ContentBlock) (e : exn) :
  format_content content = Raise e ->
  limit_error e = true
  /\ e <> JSONDecodeError /\ e <> TypeError
  /\ exists text,
       In (TextContent text) content
       /\ format_content [TextContent text] = Raise e
       /\ match json_loads text with
          | Ok parsed => json_dumps 2 (unwrap parsed) = Raise e
          | Raise e' => e' = e
          end.
Proof.
  rewrite format_content_render_all.
  destruct (render_all (text_payloads content)) as [l|e'] eqn:E; [discriminate|].
  cbn [rbind]. intros [= ->].
  destruct (render_all_raises _ _ E) as [text [Hin Hr]].
  pose proof (render_text_raises text e Hr) as Hlim.
  split; [exact Hlim|].
  split; [intros ->; discriminate Hlim|]. split; [intros ->; discriminate Hlim|].
  exists text. split; [|split].
  - clear -Hin. induction content as [|c content IH]; [contradiction|].
    destruct c; cbn [text_payloads] in Hin;
      try (right; apply IH; exact Hin).
    destruct Hin as [->|Hin]; [left; reflexivity | right; apply IH; exact Hin].
  - rewrite format_content_one. exact Hr.
  - rewrite render_text_spec in Hr.
    destruct (json_loads text) as [parsed|e']; [exact Hr|].
    destruct e'; congruence.
Qed.

(** ** The first character of a payload *)

(** What [scan_atom] reads is not a container, and the first character
    decides which container [scan_once] reads. *)
Lemma scan_once_kind (fuel depth : nat) (c : N) (s : pystr) (v : pyval) (r : pystr) :
  scan_once fuel depth (c :: s) = Scanned v r ->
  match v with
  | PList _ => c = ch_lbracket
  | PDict _ => c = ch_lbrace
  | _ => True
  end.
Proof.
  destruct fuel as [|n]; [discriminate|]. rewrite scan_once_S.
  destruct (N.eqb_spec c ch_lbrace) as [->|Hb].
  - destruct depth as [|d]; [discriminate|].
    destruct (skip_ws s) as [|c1 s2]; [discriminate|].
    destruct (c1 =? ch_rbrace).
    + intros H. injection H as <- _. reflexivity.
    + destruct (parse_object n d (c1 :: s2)); try discriminate.
      intros H. injection H as <- _. reflexivity.
  - destruct (N.eqb_spec c ch_lbracket) as [->|Hk].
    + destruct depth as [|d]; [discriminate|].
      destruct (skip_ws s) as [|c1 s2]; [discriminate|].
      destruct (c1 =? ch_rbracket).
      * intros H. injection H as <- _. reflexivity.
      * destruct (parse_array n d (c1 :: s2)); try discriminate.
        intros H. injection H as <- _. reflexivity.
    + destruct (scan_atom (c :: s)) as [[v' r']|] eqn:E; [|discriminate].
      destruct (conversion_error (c :: s) v'); [discriminate|].
      intros H. injection H as <- _.
      pose proof (scan_atom_kind _ _ _ E) as Hk'.
      destruct v'; try exact I; contradiction.
Qed.

Lemma json_loads_kind (s : pystr) (v : pyval) :
  json_loads s = Ok v ->
  match v with
  | PList _ => first_char_is ch_lbracket s = true
  | PDict _ => first_char_is ch_lbrace s = true
  | _ => True
  end.
Proof.
  unfold json_loads, decode, first_char_is.
  destruct (skip_ws s) as [|c s'] eqn:E.
  - destruct (2 * List.length s + 1)%nat; discriminate.
  - destruct (scan_once _ _ (c :: s')) as [v' r| | |] eqn:Hscan; try discriminate.
    pose proof (scan_once_kind _ _ _ _ _ _ Hscan) as Hk.
    destruct (skip_ws r); [|discriminate].
    intros H. injection H as <-.
    destruct v'; try exact I; subst c; reflexivity.
Qed.

(** X10.  A string given as [filters] is taken as a list only when it
    starts, after white space, with an opening bracket: [json.loads] gives
    a list for no other text.  Every other non-empty string is sent as the
    one filter it is, whether it is JSON of another kind or no JSON at
    all, unless [json.loads] raises an exception that is not a
    [JSONDecodeError]: then the mapping raises it. *)
Theorem filters_string_without_bracket_wrapped (resource_type region : pystr)
    (c : N) (s : pystr) :
  first_char_is ch_lbracket (c :: s) = false ->
  (forall parsed, json_loads (c :: s) <> Ok (PList parsed))
  /\ availability_args resource_type region (FiltersStr (c :: s))
     = match json_loads (c :: s) with
       | Ok _ | Raise JSONDecodeError =>
           Ok [(py "resource_type", PStr resource_type); (py "region", PStr region);
               (py "filters", PList [PStr (c :: s)])]
       | Raise e => Raise e
       end.
Proof.
  intros Hfirst.
  assert (Hnot : forall parsed, json_loads (c :: s) <> Ok (PList parsed)).
  { intros parsed H. pose proof (json_loads_kind _ _ H) as Hk. cbv beta iota in Hk.
    congruence. }
  split; [exact Hnot|].
  unfold availability_args. cbn [filters_truthy]. rewrite filters_of_str_spec.
  destruct (json_loads (c :: s)) as [[ | | | | |xs| ]|[ | | | | | ]] eqn:E;
    try reflexivity.
  exfalso. exact (Hnot xs eq_refl).
Qed.

(** X11.  A text block whose payload does not start, after white space,
    with an opening brace is never unwrapped: when the payload parses, what
    is rendered is the value it parses to; when [json.loads] rejects it
    with a [JSONDecodeError], it comes out as it is; and when [json.loads]
    raises another exception, so does [format_content]. *)
Theorem payload_without_brace_not_unwrapped (text : pystr) :
  first_char_is ch_lbrace text = false ->
  format_content [TextContent text]
  = match json_loads text with
    | Ok parsed => json_dumps 2 parsed
    | Raise JSONDecodeError => Ok text
    | Raise e => Raise e
    end.
Proof.
  intros Hfirst. rewrite format_content_one, render_text_spec.
  destruct (json_loads text) as [parsed|e] eqn:E; [|reflexivity].
  pose proof (json_loads_kind _ _ E) as Hk.
  destruct parsed; try reflexivity. congruence.
Qed.

(** ** Reading back what was rendered *)

Section FurtherWithFloatLaws.
Context {L : FloatLaws}.

(** X12.  What a second pass does to the result for a text block of Unicode
    text: the result parses back to the value that was rendered, so the
    second pass renders that value after one more unwrap.  The result is
    therefore stable -- given back as a text block it comes out unchanged --
    whenever the payload was not JSON or the rendered value is not itself a
    [content.result] envelope. *)
Theorem normalised_output_is_stable (text out : pystr) :
  valid_text text = true ->
  format_content [TextContent text] = Ok out ->
  (forall parsed,
     json_loads text = Ok parsed ->
     json_loads out = Ok (unwrap parsed)
     /\ format_content [TextContent out] = json_dumps 2 (unwrap (unwrap parsed)))
  /\ (match json_loads text with
      | Ok parsed => envelope_result (unwrap parsed) = None
      | Raise _ => True
      end ->
      format_content [TextContent out] = Ok out).
Proof.
  intros Hv Hout. rewrite format_content_one in Hout.
  assert (Hback : forall parsed, json_loads text = Ok parsed ->
            json_loads out = Ok (unwrap parsed)).
  { intros parsed Hload. rewrite (render_text_loaded text parsed Hload) in Hout.
    apply (loads_dumps 2 _ out); [|exact Hout].
    apply well_formed_unwrap. exact (json_loads_well_formed text parsed Hv Hload). }
  split.
  - intros parsed Hload. split; [exact (Hback parsed Hload)|].
    rewrite format_content_one.
    exact (render_text_loaded _ _ (Hback parsed Hload)).
  - intros Henv. rewrite format_content_one.
    destruct (json_loads text) as [parsed|e] eqn:Hload.
    + rewrite (render_text_loaded _ _ (Hback parsed eq_refl)).
      rewrite (render_text_loaded text parsed Hload) in Hout.
      unfold unwrap at 1. rewrite Henv. exact Hout.
    + rewrite render_text_spec, Hload in Hout.
      destruct e; try discriminate Hout. injection Hout as <-.
      rewrite render_text_spec, Hload. reflexivity.
Qed.

(** X13.  A non-empty list of filters written as JSON text by [json.dumps]
    with an indent is the same argument as the list itself:
    [get_regional_availability] decodes the text back to the list and
    sends the same argument set. *)
Theorem json_encoded_filters_round_trip (U : Upstream) (resource_type region : pystr)
    (indent : nat) (x : pystr) (l : list pystr) :
  Forall (fun s => valid_str s = true) (x :: l) ->
  exists text,
    json_dumps indent (PList (List.map PStr (x :: l))) = Ok text
    /\ availability_args resource_type region (FiltersStr text)
       = availability_args resource_type region (FiltersList (x :: l))
    /\ get_regional_availability U resource_type region (FiltersStr text)
       = get_regional_availability U resource_type region (FiltersList (x :: l)).
Proof.
  intros Hvalid.
  assert (Hflat : forall xs room, first_error (List.map (encode_error room)
                                                 (List.map PStr xs)) = None).
  { intros xs room. induction xs as [|y xs IH]; [reflexivity | exact IH]. }
  assert (Hdump : json_dumps indent (PList (List.map PStr (x :: l)))
                  = Ok (iterencode indent 0 (PList (List.map PStr (x :: l))))).
  { unfold json_dumps. pose proof encoder_depth_min as Hmin. unfold min_depth in Hmin.
    destruct encoder_depth as [|[|r]]; [lia | lia |].
    cbn [encode_error List.map].
    change (first_error (None :: List.map (encode_error (S r)) (List.map PStr l)))
      with (first_error (List.map (encode_error (S r)) (List.map PStr l))).
    rewrite (Hflat l (S r)). reflexivity. }
  exists (iterencode indent 0 (PList (List.map PStr (x :: l)))).
  split; [exact Hdump|].
  assert (Hargs : availability_args resource_type region
            (FiltersStr (iterencode indent 0 (PList (List.map PStr (x :: l)))))
          = availability_args resource_type region (FiltersList (x :: l))).
  { assert (Hwf : well_formed (PList (List.map PStr (x :: l)))).
    { split.
      - constructor. apply Forall_map. revert Hvalid. apply Forall_impl.
        intros s Hs. constructor. exact Hs.
      - pose proof decoder_depth_min as Hmin. unfold min_depth in Hmin.
        destruct decoder_depth as [|d]; [lia|]. cbn [fits].
        apply forallb_forall. intros v Hin. apply in_map_iff in Hin.
        destruct Hin as [s [<- _]]. reflexivity. }
    pose proof (loads_iterencode indent _ Hwf) as Hload.
    unfold availability_args.
    destruct (iterencode indent 0 (PList (List.map PStr (x :: l)))) as [|c s] eqn:E;
      [discriminate E|].
    cbn [filters_truthy]. rewrite filters_of_str_spec, Hload. reflexivity. }
  split; [exact Hargs|].
  unfold get_regional_availability. rewrite Hargs. reflexivity.
Qed.

End FurtherWithFloatLaws.

(** ** The outcomes of [json.loads] *)

(** X16.  [json.loads] always has an outcome of its own: the measure the
    scanner recurses on, twice the length of the text and one, never runs
    out.  It returns a value or raises; what it raises is a
    [JSONDecodeError], or a [ValueError] or [RecursionError] of the
    interpreter's limits. *)
Theorem json_loads_outcomes (s : pystr) :
  match decode (2 * List.length s + 1) decoder_depth s with
  | OutOfFuel => False
  | _ => True
  end
  /\ match json_loads s with
     | Ok _ => True
     | Raise e => e = JSONDecodeError \/ limit_error e = true
     end.
Proof.
  split.
  - pose proof (decode_fuel decoder_depth s) as H.
    destruct (decode (2 * List.length s + 1) decoder_depth s); try exact I.
    apply H. reflexivity.
  - destruct (json_loads s) as [v|e] eqn:E; [exact I|].
    exact (json_loads_raises s e E).
Qed.

End Further.

(** * The further properties at concrete inputs *)

Lemma wfloat_str_ascii (f : wfloat) : is_ascii (wfloat_str f) = true.
Proof.
  destruct f as [ | | |z]; try reflexivity.
  cbn [wfloat_str]. unfold is_ascii. rewrite forallb_app.
  fold (is_ascii (int_repr z)). rewrite int_repr_ascii. reflexivity.
Qed.

(** X1 at a search with one topic. *)
Lemma search_documentation_call_witness :
  acquisition (upstream_answering []) = Ok tt
  /\ exists args,
       calls (trace (snd (invoke (search_documentation (upstream_answering [])
                                    (py "s3 versioning") (Some [py "general"])))))
       = [(py "aws___search_documentation", args)]
       /\ dict_get (py "search_phrase") args = Some (PStr (py "s3 versioning"))
       /\ dict_get (py "query") args = None
       /\ dict_get (py "topics") args = Some (PList [PStr (py "general")]).
Proof.
  split; [reflexivity|].
  destruct (proj1 (search_documentation_call (upstream_answering [])
                     (py "s3 versioning") (Some [py "general"]) eq_refl))
    as [args [H1 [H2 [H3 [H4 _]]]]].
  exists args. split; [exact H1|]. split; [exact H2|]. split; [exact H3 | exact H4].
Defined.

(** X2 at a read that starts at index zero. *)
Lemma read_documentation_call_witness :
  acquisition (upstream_answering []) = Ok tt
  /\ exists args,
       calls (trace (snd (invoke (read_documentation (upstream_answering [])
                                    (py "https://docs.aws.amazon.com/") (Some 0%Z) None))))
       = [(py "aws___read_documentation", args)]
       /\ dict_get (py "start_index") args = Some (PInt 0)
       /\ dict_get (py "max_length") args = None.
Proof.
  split; [reflexivity|].
  destruct (read_documentation_call (upstream_answering [])
              (py "https://docs.aws.amazon.com/") (Some 0%Z) None eq_refl)
    as [args [H1 [_ [H3 [H4 _]]]]].
  exists args. split; [exact H1|]. split; [exact H3 | exact H4].
Defined.

(** X3 at a [filters] string whose integer is too long, where no call is
    issued, and at one that is wrapped. *)
Lemma one_upstream_call_witness :
  @upstream_args whole_floats
    (GetRegionalAvailability (py "api") (py "us-east-1") (FiltersStr long_integer))
  = Raise (ValueError (py "Exceeds the limit (4300 digits) for integer string conversion: value has 4301 digits; use sys.set_int_max_str_digits() to increase the limit"))
  /\ calls (trace (snd (invoke (handle (upstream_answering [])
              (GetRegionalAvailability (py "api") (py "us-east-1")
                 (FiltersStr long_integer))))))
     = []
  /\ (exists resource_type region s,
        GetRegionalAvailability (py "api") (py "us-east-1") (FiltersStr long_integer)
        = GetRegionalAvailability resource_type region (FiltersStr s)
        /\ @json_loads whole_floats s
           = Raise (ValueError (py "Exceeds the limit (4300 digits) for integer string conversion: value has 4301 digits; use sys.set_int_max_str_digits() to increase the limit")))
  /\ calls (trace (snd (invoke (handle (upstream_answering [])
              (GetRegionalAvailability (py "api") (py "us-east-1")
                 (FiltersStr (py "abc")))))))
     = [(py "aws___get_regional_availability",
         [(py "resource_type", PStr (py "api")); (py "region", PStr (py "us-east-1"));
          (py "filters", PList [PStr (py "abc")])])]
  /\ NoDup (@keys whole_floats [(py "resource_type", PStr (py "api"));
                  (py "region", PStr (py "us-east-1"));
                  (py "filters", PList [PStr (py "abc")])]).
Proof.
  assert (Hargs : @upstream_args whole_floats
    (GetRegionalAvailability (py "api") (py "us-east-1") (FiltersStr long_integer))
  = Raise (ValueError (py "Exceeds the limit (4300 digits) for integer string conversion: value has 4301 digits; use sys.set_int_max_str_digits() to increase the limit")))
    by (vm_compute; reflexivity).
  assert (Hwrap : @upstream_args whole_floats
    (GetRegionalAvailability (py "api") (py "us-east-1") (FiltersStr (py "abc")))
  = Ok [(py "resource_type", PStr (py "api")); (py "region", PStr (py "us-east-1"));
        (py "filters", PList [PStr (py "abc")])])
    by (vm_compute; reflexivity).
  split; [exact Hargs|]. split.
  { rewrite (proj1 (one_upstream_call (upstream_answering [])
               (GetRegionalAvailability (py "api") (py "us-east-1")
                  (FiltersStr long_integer)))).
    rewrite Hargs. reflexivity. }
  split.
  { exact (proj2 (proj2 (proj2 (one_upstream_call (upstream_answering [])
               (GetRegionalAvailability (py "api") (py "us-east-1")
                  (FiltersStr long_integer)))) _ Hargs)). }
  split.
  { rewrite (proj1 (one_upstream_call (upstream_answering [])
               (GetRegionalAvailability (py "api") (py "us-east-1")
                  (FiltersStr (py "abc"))))).
    rewrite Hwrap. reflexivity. }
  exact (proj1 (proj2 (one_upstream_call (upstream_answering [])
               (GetRegionalAvailability (py "api") (py "us-east-1")
                  (FiltersStr (py "abc"))))) _ Hwrap).
Defined.



(** X8 at a text block followed by an image and a list, and at a text
    block followed by one whose integer is too long. *)
Lemma format_content_app_witness :
  @format_content whole_floats [TextContent (py "first")] = Ok (py "first")
  /\ @format_content whole_floats
       [ImageContent (py "aGk=") (py "image/png"); TextContent (py "[1]")]
     = Ok (py "[
  1
]")
  /\ @format_content whole_floats
       ([TextContent (py "first")]
        ++ [ImageContent (py "aGk=") (py "image/png"); TextContent (py "[1]")])
     = Ok (py "first
[
  1
]")
  /\ @format_content whole_floats ([TextContent (py "first")] ++ [TextContent long_integer])
     = Raise (ValueError (py "Exceeds the limit (4300 digits) for integer string conversion: value has 4301 digits; use sys.set_int_max_str_digits() to increase the limit"))
  /\ @format_content whole_floats ([TextContent long_integer] ++ [TextContent (py "first")])
     = Raise (ValueError (py "Exceeds the limit (4300 digits) for integer string conversion: value has 4301 digits; use sys.set_int_max_str_digits() to increase the limit")).
Proof.
  assert (Ha : @format_content whole_floats [TextContent (py "first")] = Ok (py "first"))
    by (vm_compute; reflexivity).
  assert (Hb : @format_content whole_floats
                 [ImageContent (py "aGk=") (py "image/png"); TextContent (py "[1]")]
               = Ok (py "[
  1
]")) by (vm_compute; reflexivity).
  assert (Hc : @format_content whole_floats [TextContent long_integer]
               = Raise (ValueError (py "Exceeds the limit (4300 digits) for integer string conversion: value has 4301 digits; use sys.set_int_max_str_digits() to increase the limit")))
    by (vm_compute; reflexivity).
  split; [exact Ha|]. split; [exact Hb|]. split.
  { exact (proj1 (@format_content_app whole_floats [TextContent (py "first")]
                    [ImageContent (py "aGk=") (py "image/png"); TextContent (py "[1]")])
             _ _ Ha Hb). }
  split.
  { exact (proj2 (proj2 (@format_content_app whole_floats [TextContent (py "first")]
                           [TextContent long_integer])) _ _ Ha Hc). }
  exact (proj1 (proj2 (@format_content_app whole_floats [TextContent long_integer]
                         [TextContent (py "first")])) _ Hc).
Defined.

(** X9 with the integral floats, at a string holding a letter outside
    ASCII (code point 233): written as an escape when the payload is JSON,
    kept when the payload is not JSON. *)
Lemma rendering_is_ascii_witness :
  is_ascii [91; 34; 233; 34; 93] = false
  /\ @json_loads whole_floats [91; 34; 233; 34; 93] = Ok (PList [PStr [233]])
  /\ @format_content whole_floats [TextContent [91; 34; 233; 34; 93]]
     = Ok (jtext "[
  '\u00e9'
]")
  /\ is_ascii (jtext "[
  '\u00e9'
]") = true
  /\ @json_dumps whole_floats 2 (PList [PStr [233]])
     = Ok (jtext "[
  '\u00e9'
]")
  /\ @json_loads whole_floats [233] = Raise JSONDecodeError
  /\ @format_content whole_floats [TextContent [233]] = Ok [233].
Proof.
  assert (Hload : @json_loads whole_floats [91; 34; 233; 34; 93] = Ok (PList [PStr [233]]))
    by (vm_compute; reflexivity).
  assert (Hout : @format_content whole_floats [TextContent [91; 34; 233; 34; 93]]
                 = Ok (jtext "[
  '\u00e9'
]")) by (vm_compute; reflexivity).
  assert (Hdump : @json_dumps whole_floats 2 (PList [PStr [233]])
                  = Ok (jtext "[
  '\u00e9'
]")) by (vm_compute; reflexivity).
  assert (Hbad : @json_loads whole_floats [233] = Raise JSONDecodeError)
    by (vm_compute; reflexivity).
  split; [reflexivity|]. split; [exact Hload|]. split; [exact Hout|]. split.
  { exact (proj1 (proj2 (@rendering_is_ascii whole_floats wfloat_str_ascii))
             _ _ _ Hload Hout). }
  split; [exact Hdump|]. split; [exact Hbad|].
  exact (proj2 (proj2 (@rendering_is_ascii whole_floats wfloat_str_ascii)) _ Hbad).
Defined.

(** X10 at a string that is JSON for an object, and at an integer that is
    too long. *)
Lemma filters_string_without_bracket_wrapped_witness :
  first_char_is ch_lbracket (jtext "{'a': 1}") = false
  /\ @availability_args whole_floats (py "api") (py "us-east-1")
       (FiltersStr (jtext "{'a': 1}"))
     = Ok [(py "resource_type", PStr (py "api")); (py "region", PStr (py "us-east-1"));
           (py "filters", PList [PStr (jtext "{'a': 1}")])]
  /\ first_char_is ch_lbracket long_integer = false
  /\ @availability_args whole_floats (py "api") (py "us-east-1") (FiltersStr long_integer)
     = Raise (ValueError (py "Exceeds the limit (4300 digits) for integer string conversion: value has 4301 digits; use sys.set_int_max_str_digits() to increase the limit")).
Proof.
  split; [reflexivity|]. split.
  { etransitivity.
    - exact (proj2 (@filters_string_without_bracket_wrapped whole_floats
                      (py "api") (py "us-east-1") ch_lbrace (List.tl (jtext "{'a': 1}"))
                      eq_refl)).
    - vm_compute. reflexivity. }
  split; [reflexivity|].
  etransitivity.
  - exact (proj2 (@filters_string_without_bracket_wrapped whole_floats
                    (py "api") (py "us-east-1") 49 (List.tl long_integer) eq_refl)).
  - vm_compute. reflexivity.
Defined.

(** X11 at a list that holds an envelope, at a payload that is not JSON,
    and at an integer that is too long. *)
Lemma payload_without_brace_not_unwrapped_witness :
  first_char_is ch_lbrace (jtext "[{'content': {'result': {'a': 1}}}]") = false
  /\ @format_content whole_floats
       [TextContent (jtext "[{'content': {'result': {'a': 1}}}]")]
     = Ok (jtext "[
  {
    'content': {
      'result': {
        'a': 1
      }
    }
  }
]")
  /\ first_char_is ch_lbrace (py "not json") = false
  /\ @format_content whole_floats [TextContent (py "not json")] = Ok (py "not json")
  /\ first_char_is ch_lbrace long_integer = false
  /\ @format_content whole_floats [TextContent long_integer]
     = Raise (ValueError (py "Exceeds the limit (4300 digits) for integer string conversion: value has 4301 digits; use sys.set_int_max_str_digits() to increase the limit")).
Proof.
  split; [reflexivity|]. split.
  { rewrite (@payload_without_brace_not_unwrapped whole_floats
               (jtext "[{'content': {'result': {'a': 1}}}]") eq_refl).
    vm_compute. reflexivity. }
  split; [reflexivity|]. split.
  { rewrite (@payload_without_brace_not_unwrapped whole_floats (py "not json") eq_refl).
    vm_compute. reflexivity. }
  split; [reflexivity|].
  rewrite (@payload_without_brace_not_unwrapped whole_floats long_integer eq_refl).
  vm_compute. reflexivity.
Defined.

(** X12 at an envelope: the rendered object comes back unchanged. *)
Lemma normalised_output_is_stable_witness :
  valid_text (jtext "{'content': {'result': {'a': 1}}}") = true
  /\ @format_content whole_floats [TextContent (jtext "{'content': {'result': {'a': 1}}}")]
     = Ok (jtext "{
  'a': 1
}")
  /\ @json_loads whole_floats (jtext "{
  'a': 1
}") = Ok (PDict [(py "a", PInt 1)])
  /\ @format_content whole_floats [TextContent (jtext "{
  'a': 1
}")]
     = Ok (jtext "{
  'a': 1
}").
Proof.
  split; [reflexivity|].
  assert (H : @format_content whole_floats
                [TextContent (jtext "{'content': {'result': {'a': 1}}}")]
              = Ok (jtext "{
  'a': 1
}")) by (vm_compute; reflexivity).
  assert (Hload : @json_loads whole_floats (jtext "{'content': {'result': {'a': 1}}}")
                  = Ok (PDict [(py "content",
                                PDict [(py "result", PDict [(py "a", PInt 1)])])]))
    by (vm_compute; reflexivity).
  split; [exact H|]. split.
  { exact (proj1 (proj1 (@normalised_output_is_stable whole_floats whole_floats_laws
                           (jtext "{'content': {'result': {'a': 1}}}") _ eq_refl H)
                    _ Hload)). }
  apply (proj2 (@normalised_output_is_stable whole_floats whole_floats_laws
                  (jtext "{'content': {'result': {'a': 1}}}") _ eq_refl H)).
  vm_compute. reflexivity.
Defined.

(** X13 at a list of two filters. *)
Lemma json_encoded_filters_round_trip_witness :
  Forall (fun s => valid_str s = true) [py "lambda"; py "s3"]
  /\ exists text,
       @json_dumps whole_floats 2 (PList [PStr (py "lambda"); PStr (py "s3")]) = Ok text
       /\ @availability_args whole_floats (py "api") (py "us-east-1") (FiltersStr text)
          = Ok [(py "resource_type", PStr (py "api"));
                (py "region", PStr (py "us-east-1"));
                (py "filters", PList [PStr (py "lambda"); PStr (py "s3")])].
Proof.
  assert (H : Forall (fun s => valid_str s = true) [py "lambda"; py "s3"])
    by (repeat constructor).
  split; [exact H|].
  destruct (@json_encoded_filters_round_trip whole_floats whole_floats_laws
              (upstream_answering []) (py "api") (py "us-east-1") 2%nat
              (py "lambda") [py "s3"] H) as [text [Hd [Ha _]]].
  exists text. split; [exact Hd|]. rewrite Ha. reflexivity.
Defined.

(** X14 at an image in front of a text block. *)
Lemma format_content_joins_witness :
  @format_content whole_floats
    [ImageContent (py "aGk=") (py "image/png"); TextContent (py "[1]")]
  = @format_content whole_floats [TextContent (py "[1]")].
Proof.
  exact (proj1 (proj2 (@format_content_joins_text_blocks whole_floats))
           (ImageContent (py "aGk=") (py "image/png")) [TextContent (py "[1]")] eq_refl).
Defined.

(** X15 at a text block followed by one whose integer is too long. *)
Lemma format_content_failures_witness :
  @format_content whole_floats [TextContent (py "first"); TextContent long_integer]
  = Raise (ValueError (py "Exceeds the limit (4300 digits) for integer string conversion: value has 4301 digits; use sys.set_int_max_str_digits() to increase the limit"))
  /\ exists text,
       In (TextContent text) [TextContent (py "first"); TextContent long_integer]
       /\ @format_content whole_floats [TextContent text]
          = Raise (ValueError (py "Exceeds the limit (4300 digits) for integer string conversion: value has 4301 digits; use sys.set_int_max_str_digits() to increase the limit")).
Proof.
  assert (H : @format_content whole_floats
                [TextContent (py "first"); TextContent long_integer]
              = Raise (ValueError (py "Exceeds the limit (4300 digits) for integer string conversion: value has 4301 digits; use sys.set_int_max_str_digits() to increase the limit")))
    by (vm_compute; reflexivity).
  split; [exact H|].
  destruct (proj2 (proj2 (proj2 (@format_content_failures whole_floats _ _ H))))
    as [text [Hin [Hr _]]].
  exists text. split; [exact Hin | exact Hr].
Defined.

(** X17.  The limit on the digits of an integer, at its default of 4300:
    [json.loads] reads an integer of 4300 digits, with or without a minus
    sign, which is not counted, and raises a [ValueError] at 4301
    digits. *)
Theorem digit_limit_boundary :
  @json_loads whole_floats (repeat 49 4300)
  = Ok (PInt (int_of_text false (repeat 49 4300)))
  /\ @json_loads whole_floats (ch_minus :: repeat 49 4300)
     = Ok (PInt (int_of_text true (repeat 49 4300)))
  /\ @json_loads whole_floats (repeat 49 4301)
     = Raise (ValueError (py "Exceeds the limit (4300 digits) for integer string conversion: value has 4301 digits; use sys.set_int_max_str_digits() to increase the limit")).
Proof. repeat split; vm_compute; reflexivity. Qed.
